(** * n8n-nodes-evernote: the markup codec, resource builder and note
      update logic of [nodes/Evernote/utils.ts] and
      [nodes/Evernote/Evernote.node.ts], embedded in Rocq.

    JavaScript strings are modelled as lists of 8-bit characters (the
    code units below 256, which contain every character the code treats
    specially); byte buffers as lists of bytes; JavaScript objects used as
    maps as [gmap]; thrown errors and calls to the note store through a
    small trace-and-error monad. What the code takes from the JavaScript
    runtime ([RegExp], [String.prototype.replace], [JSON.parse], MD5) is
    embedded too: regular expressions by a parser and a backtracking
    matcher that follow the ECMAScript specification, with its Annex B,
    on the patterns they accept. A pattern or a JSON text that uses a
    construct outside that fragment makes the operation [Uncovered]: the
    embedding says nothing about it. [sanitize-html] and the note store
    are parameters. *)

From Stdlib Require Import List Ascii String ZArith NArith Bool Lia.
From Stdlib Require Import Init.Byte.
From stdpp Require Import base option list gmap strings.
Import ListNotations.

Set Default Proof Using "Type".

(* ================================================================== *)
(** ** JavaScript strings *)
(* ================================================================== *)

(** A string is a list of characters. String literals are written
    between double quotes in scope [js]. *)
Abbreviation str := (list ascii).

Definition js_string : Type := list ascii.

Inductive str_literal : Set :=
| LitNil
| LitCons (c : ascii) (s : str_literal).

Fixpoint literal_of_bytes (l : list byte) : str_literal :=
  match l with
  | [] => LitNil
  | b :: t => LitCons (ascii_of_byte b) (literal_of_bytes t)
  end.

Fixpoint bytes_of_literal (s : str_literal) : list byte :=
  match s with
  | LitNil => []
  | LitCons c t => byte_of_ascii c :: bytes_of_literal t
  end.

Declare Scope js_scope.
Delimit Scope js_scope with js.
#[warnings="-via-type-remapping,-via-type-mismatch"]
String Notation js_string literal_of_bytes bytes_of_literal
  (via str_literal mapping [[nil] => LitNil, [cons] => LitCons]) : js_scope.
Open Scope js_scope.

Definition code (c : ascii) : N := N_of_ascii c.

Definition chr (n : N) : ascii := ascii_of_N n.

Definition char_eqb (a b : ascii) : bool := Ascii.eqb a b.

Fixpoint str_eqb (a b : str) : bool :=
  match a, b with
  | [], [] => true
  | x :: a', y :: b' => char_eqb x y && str_eqb a' b'
  | _, _ => false
  end.

Definition in_range (lo hi : N) (c : ascii) : bool :=
  (lo <=? code c)%N && (code c <=? hi)%N.

(** [String.prototype.concat] over an array: [arr.join('')]. *)
Definition join_empty (l : list str) : str := concat l.

(** White space and line terminators removed by [String.prototype.trim],
    among the 8-bit characters: TAB, LF, VT, FF, CR, SPACE, NBSP. *)
Definition is_js_space (c : ascii) : bool :=
  in_range 9 13 c || (code c =? 32)%N || (code c =? 160)%N.

Fixpoint trim_start (s : str) : str :=
  match s with
  | c :: t => if is_js_space c then trim_start t else s
  | [] => []
  end.

Definition trim (s : str) : str := rev (trim_start (rev (trim_start s))).

(** [s.split(',')]: the segments between the commas, at least one. *)
Fixpoint split_on (sep : ascii) (s : str) : list str :=
  match s with
  | [] => [[]]
  | c :: t =>
      if char_eqb c sep then [] :: split_on sep t
      else match split_on sep t with
           | seg :: segs => (c :: seg) :: segs
           | [] => [[c]]
           end
  end.

Definition nonempty (s : str) : bool :=
  match s with [] => false | _ => true end.

(** Decimal digits of a number ([String(i)] for an array index). *)
Fixpoint decimal_digits (fuel : nat) (n : N) (acc : str) : str :=
  match fuel with
  | O => acc
  | S fuel' =>
      let acc' := chr (48 + n mod 10) :: acc in
      if (n <? 10)%N then acc' else decimal_digits fuel' (n / 10) acc'
  end.

Definition string_of_index (i : nat) : str :=
  decimal_digits (S i) (N.of_nat i) [].


(* ================================================================== *)
(** ** Regular expressions: [RegExp] without the [u], [m] and [s] flags *)
(* ================================================================== *)

Infix "==" := char_eqb (at level 70, no associativity) : js_scope.

(** [Canonicalize] with [ignoreCase]: the upper-case form, when that is a
    single character. Among the 8-bit characters these are the ASCII
    letters and the accented Latin-1 letters; the micro sign and y with
    diaeresis have upper-case forms above 255 that no 8-bit character
    shares, so they are only equal to themselves. *)
Definition toUpperCase (c : ascii) : ascii :=
  if in_range 97 122 c then chr (code c - 32)
  else if in_range 224 254 c && negb (code c =? 247)%N then chr (code c - 32)
  else c.

Definition canonicalize (ignoreCase : bool) (c : ascii) : ascii :=
  if ignoreCase then toUpperCase c else c.

Definition is_digit (c : ascii) : bool := in_range 48 57 c.

Definition is_letter (c : ascii) : bool := in_range 65 90 c || in_range 97 122 c.

Definition is_word_char (c : ascii) : bool :=
  is_letter c || is_digit c || (c == "_").

Definition is_line_terminator (c : ascii) : bool :=
  (code c =? 10)%N || (code c =? 13)%N.

Inductive ClassEscape := EscDigit | EscSpace | EscWord.

Inductive ClassAtom :=
| ClassRange (lo hi : ascii)
| ClassEsc (kind : ClassEscape) (negated : bool).

Inductive regex :=
| REmpty
| RChar (c : ascii)
| RDot
| RClass (invert : bool) (items : list ClassAtom)
| RSeq (r1 r2 : regex)
| RAlt (r1 r2 : regex)
| RGroup (index : nat) (r : regex)
| RQuant (r : regex) (min : nat) (max : option nat) (greedy : bool)
| RBol
| REol
| RWordB (negated : bool)
| RLook (negated : bool) (r : regex)
| RBackref (index : nat).

Definition class_escape_mem (kind : ClassEscape) (c : ascii) : bool :=
  match kind with
  | EscDigit => is_digit c
  | EscSpace => is_js_space c
  | EscWord => is_word_char c
  end.

Definition class_atom_mem (a : ClassAtom) (c : ascii) : bool :=
  match a with
  | ClassRange lo hi => in_range (code lo) (code hi) c
  | ClassEsc kind negated => xorb negated (class_escape_mem kind c)
  end.

Definition class_mem (items : list ClassAtom) (c : ascii) : bool :=
  existsb (fun a => class_atom_mem a c) items.

Definition all_chars : list ascii :=
  Eval vm_compute in map (fun n => chr (N.of_nat n)) (seq 0 256).

(** [CharacterSetMatcher]: some member of the set has the canonical form
    of the input character. *)
Definition char_set_found (ignoreCase : bool) (items : list ClassAtom)
    (ch : ascii) : bool :=
  if ignoreCase
  then existsb (fun a => class_mem items a &&
                         (canonicalize true a == canonicalize true ch))
               all_chars
  else class_mem items ch.

Definition char_matches (ignoreCase : bool) (c ch : ascii) : bool :=
  canonicalize ignoreCase c == canonicalize ignoreCase ch.

(** The final state of a successful match: the input before the end of
    the match (reversed), the input after it, and the captures. *)
Record MatchResult := {
  mr_prev : str;
  mr_rest : str;
  mr_caps : gmap nat str;
}.

Definition Cont : Type := str -> str -> gmap nat str -> option MatchResult.

Definition accept : Cont :=
  fun prev rest caps => Some {| mr_prev := prev; mr_rest := rest; mr_caps := caps |}.

Fixpoint groups_of (r : regex) : list nat :=
  match r with
  | RSeq r1 r2 | RAlt r1 r2 => groups_of r1 ++ groups_of r2
  | RGroup n r1 => n :: groups_of r1
  | RQuant r1 _ _ _ | RLook _ r1 => groups_of r1
  | _ => []
  end.

Definition clear_caps (ns : list nat) (caps : gmap nat str) : gmap nat str :=
  foldr (fun n c => delete n c) caps ns.

Definition pred_max (mx : option nat) : option nat :=
  match mx with Some n => Some (pred n) | None => None end.

(** [RepeatMatcher]. Every iteration past the minimum has to consume
    input, so [min] plus the length of the remaining input bounds the
    number of iterations. *)
Fixpoint repeat_matcher
    (body : str -> str -> gmap nat str -> Cont -> option MatchResult)
    (parens : list nat) (fuel : nat) (mn : nat) (mx : option nat)
    (greedy : bool) (prev rest : str) (caps : gmap nat str) (k : Cont)
    : option MatchResult :=
  match fuel with
  | O => None
  | S fuel' =>
      match mx with
      | Some O => k prev rest caps
      | _ =>
          let d : Cont := fun prev' rest' caps' =>
            if (mn =? 0)%nat && (length rest' =? length rest)%nat then None
            else repeat_matcher body parens fuel' (pred mn) (pred_max mx)
                   greedy prev' rest' caps' k in
          let cleared := clear_caps parens caps in
          if negb (mn =? 0)%nat then body prev rest cleared d
          else if greedy then
            match body prev rest cleared d with
            | Some z => Some z
            | None => k prev rest caps
            end
          else
            match k prev rest caps with
            | Some z => Some z
            | None => body prev rest cleared d
            end
      end
  end.

(** Does [s], compared through [Canonicalize], start [rest]? *)
Fixpoint starts_with (ignoreCase : bool) (s rest : str) : bool :=
  match s, rest with
  | [], _ => true
  | c :: s', ch :: rest' => char_matches ignoreCase c ch && starts_with ignoreCase s' rest'
  | _ :: _, [] => false
  end.

Definition head_is_word (s : str) : bool :=
  match s with c :: _ => is_word_char c | [] => false end.

(** The matcher of a pattern, in continuation-passing style as in the
    ECMAScript specification: [m ic r prev rest caps k] matches [r] at the
    position between [prev] (reversed) and [rest], and hands the state
    after the match to [k]. *)
Fixpoint m (ic : bool) (r : regex) (prev rest : str) (caps : gmap nat str)
    (k : Cont) {struct r} : option MatchResult :=
  match r with
  | REmpty => k prev rest caps
  | RChar c =>
      match rest with
      | ch :: t => if char_matches ic c ch then k (ch :: prev) t caps else None
      | [] => None
      end
  | RDot =>
      match rest with
      | ch :: t => if is_line_terminator ch then None else k (ch :: prev) t caps
      | [] => None
      end
  | RClass invert items =>
      match rest with
      | ch :: t =>
          if xorb invert (char_set_found ic items ch)
          then k (ch :: prev) t caps else None
      | [] => None
      end
  | RSeq r1 r2 =>
      m ic r1 prev rest caps (fun p s c => m ic r2 p s c k)
  | RAlt r1 r2 =>
      match m ic r1 prev rest caps k with
      | Some z => Some z
      | None => m ic r2 prev rest caps k
      end
  | RGroup n r1 =>
      m ic r1 prev rest caps
        (fun p s c => k p s (<[n := take (length rest - length s) rest]> c))
  | RQuant r1 mn mx greedy =>
      repeat_matcher (m ic r1) (groups_of r1) (S (mn + length rest)) mn mx
        greedy prev rest caps k
  | RBol => match prev with [] => k prev rest caps | _ => None end
  | REol => match rest with [] => k prev rest caps | _ => None end
  | RWordB negated =>
      if xorb negated (xorb (head_is_word prev) (head_is_word rest))
      then k prev rest caps else None
  | RLook negated r1 =>
      match m ic r1 prev rest caps accept with
      | Some y => if negated then None else k prev rest (mr_caps y)
      | None => if negated then k prev rest caps else None
      end
  | RBackref n =>
      match caps !! n with
      | None => k prev rest caps
      | Some s =>
          if starts_with ic s rest
          then k (rev (take (length s) rest) ++ prev) (drop (length s) rest) caps
          else None
      end
  end.

(** One attempt at one position, with no captures set. *)
Definition match_at (ic : bool) (r : regex) (prev rest : str) : option MatchResult :=
  m ic r prev rest ∅ accept.

(** A match found in a string: the text before it, the matched text, the
    text after it and the captures. *)
Record Match := {
  m_before : str;
  m_text : str;
  m_after : str;
  m_captures : gmap nat str;
}.

(** [RegExpBuiltinExec] from [lastIndex]: the first position at or after
    the current one where the pattern matches. *)
Fixpoint exec_from (ic : bool) (r : regex) (prev rest : str) : option Match :=
  match match_at ic r prev rest with
  | Some y =>
      let n := (length rest - length (mr_rest y))%nat in
      Some {| m_before := rev prev; m_text := take n rest;
              m_after := drop n rest; m_captures := mr_caps y |}
  | None =>
      match rest with
      | [] => None
      | c :: t => exec_from ic r (c :: prev) t
      end
  end.

Definition regex_exec (ic : bool) (r : regex) (s : str) : option Match :=
  exec_from ic r [] s.

Definition regex_test (ic : bool) (r : regex) (s : str) : bool :=
  match regex_exec ic r s with Some _ => true | None => false end.

Definition digit_value (c : ascii) : nat := N.to_nat (code c - 48).

Definition capture_text (caps : gmap nat str) (n : nat) : str :=
  match caps !! n with Some s => s | None => [] end.

(** [GetSubstitution] for a pattern without named groups: [ngroups] is
    the number of capturing groups of the pattern. *)
Fixpoint get_substitution (matched before after : str) (caps : gmap nat str)
    (ngroups : nat) (template : str) : str :=
  match template with
  | [] => []
  | c :: t =>
      if c == "$" then
        match t with
        | [] => [c]
        | d :: t' =>
            if d == "$" then "$"%char :: get_substitution matched before after caps ngroups t'
            else if d == "&" then matched ++ get_substitution matched before after caps ngroups t'
            else if d == "`" then before ++ get_substitution matched before after caps ngroups t'
            else if d == "'" then after ++ get_substitution matched before after caps ngroups t'
            else if is_digit d then
              let one :=
                if (1 <=? digit_value d)%nat && (digit_value d <=? ngroups)%nat
                then capture_text caps (digit_value d)
                       ++ get_substitution matched before after caps ngroups t'
                else c :: d :: get_substitution matched before after caps ngroups t' in
              match t' with
              | d2 :: t'' =>
                  if is_digit d2 then
                    let idx := (10 * digit_value d + digit_value d2)%nat in
                    if (ngroups <? idx)%nat then one
                    else if (1 <=? idx)%nat
                    then capture_text caps idx
                           ++ get_substitution matched before after caps ngroups t''
                    else c :: d :: d2 :: get_substitution matched before after caps ngroups t''
                  else one
              | [] => one
              end
            else c :: get_substitution matched before after caps ngroups t
        end
      else c :: get_substitution matched before after caps ngroups t
  end.

(** [String.prototype.replace] with a global pattern and a string
    replacement. [skip] counts the characters of the current match that
    are still to be passed over. After an empty match the search moves on
    by one character. *)
Fixpoint replace_from (ic : bool) (r : regex) (ngroups : nat) (template : str)
    (skip : nat) (prev rest : str) : str :=
  match skip with
  | S skip' =>
      match rest with
      | [] => []
      | c :: t => replace_from ic r ngroups template skip' (c :: prev) t
      end
  | O =>
      match match_at ic r prev rest with
      | Some y =>
          let n := (length rest - length (mr_rest y))%nat in
          get_substitution (take n rest) (rev prev) (drop n rest) (mr_caps y)
            ngroups template
          ++ match rest with
             | [] => []
             | c :: t =>
                 match n with
                 | O => c :: replace_from ic r ngroups template 0 (c :: prev) t
                 | S n' => replace_from ic r ngroups template n' (c :: prev) t
                 end
             end
      | None =>
          match rest with
          | [] => []
          | c :: t => c :: replace_from ic r ngroups template 0 (c :: prev) t
          end
      end
  end.

Definition regex_replace_all (ic : bool) (r : regex) (ngroups : nat)
    (s template : str) : str :=
  replace_from ic r ngroups template 0 [] s.

(* ------------------------------------------------------------------ *)
(** *** Patterns: [new RegExp(pattern, flags)] *)
(* ------------------------------------------------------------------ *)

(** Outcome of parsing: a result and the rest of the pattern, a
    [SyntaxError], or a construct that this embedding does not follow
    (named groups, lookbehind, modifiers, legacy octal escapes, code
    units above 255). *)
Inductive Parsed (A : Type) :=
| POk (a : A) (rest : str)
| PSyntaxError
| PUnsupported.
Arguments POk {A} a rest.
Arguments PSyntaxError {A}.
Arguments PUnsupported {A}.

Definition is_syntax_char (c : ascii) : bool :=
  existsb (fun x => c == x) "^$\.*+?()[]{}|".

Definition hex_value (c : ascii) : option N :=
  if is_digit c then Some (code c - 48)%N
  else if in_range 97 102 c then Some (code c - 87)%N
  else if in_range 65 70 c then Some (code c - 55)%N
  else None.

Fixpoint take_digits (s : str) (acc : N) : N * str :=
  match s with
  | c :: t => if is_digit c then take_digits t (10 * acc + (code c - 48))%N else (acc, s)
  | [] => (acc, s)
  end.

(** The text after an opening brace: [n}], [n,}] or [n,m}]. *)
Definition parse_braces (s : str) : option (nat * option nat * str) :=
  match s with
  | d :: _ =>
      if is_digit d then
        let '(mn, s1) := take_digits s 0 in
        match s1 with
        | c1 :: s2 =>
            if c1 == "}" then Some (N.to_nat mn, Some (N.to_nat mn), s2)
            else if c1 == "," then
              match s2 with
              | c2 :: s3 =>
                  if c2 == "}" then Some (N.to_nat mn, None, s3)
                  else if is_digit c2 then
                    let '(mx, s4) := take_digits s2 0 in
                    match s4 with
                    | c3 :: s5 =>
                        if c3 == "}" then Some (N.to_nat mn, Some (N.to_nat mx), s5)
                        else None
                    | [] => None
                    end
                  else None
              | [] => None
              end
            else None
        | [] => None
        end
      else None
  | [] => None
  end.

Definition class_escape_of (c : ascii) : option ClassAtom :=
  if c == "d" then Some (ClassEsc EscDigit false)
  else if c == "D" then Some (ClassEsc EscDigit true)
  else if c == "s" then Some (ClassEsc EscSpace false)
  else if c == "S" then Some (ClassEsc EscSpace true)
  else if c == "w" then Some (ClassEsc EscWord false)
  else if c == "W" then Some (ClassEsc EscWord true)
  else None.

Definition control_escape_of (c : ascii) : option ascii :=
  if c == "f" then Some (chr 12)
  else if c == "n" then Some (chr 10)
  else if c == "r" then Some (chr 13)
  else if c == "t" then Some (chr 9)
  else if c == "v" then Some (chr 11)
  else None.

(** The escapes that denote one character, in and out of a class, after
    the backslash: [\c], [\0], [\x], [\u], control escapes and the identity
    escape. Decimal escapes are left to the caller. *)
Definition parse_character_escape (c : ascii) (s : str) : Parsed ascii :=
  match control_escape_of c with
  | Some x => POk x s
  | None =>
      if c == "c" then
        match s with
        | l :: s' => if is_letter l then POk (chr (code l mod 32)) s' else PUnsupported
        | [] => PUnsupported
        end
      else if c == "0" then
        match s with
        | d :: _ => if is_digit d then PUnsupported else POk (chr 0) s
        | [] => POk (chr 0) s
        end
      else if c == "x" then
        match s with
        | h1 :: h2 :: s' =>
            match hex_value h1, hex_value h2 with
            | Some a, Some b => POk (chr (16 * a + b)) s'
            | _, _ => POk c s
            end
        | _ => POk c s
        end
      else if c == "u" then
        match s with
        | h1 :: h2 :: h3 :: h4 :: s' =>
            match hex_value h1, hex_value h2, hex_value h3, hex_value h4 with
            | Some a, Some b, Some c3, Some d =>
                if (a =? 0)%N && (b =? 0)%N then POk (chr (16 * c3 + d)) s'
                else PUnsupported
            | _, _, _, _ => POk c s
            end
        | _ => POk c s
        end
      else POk c s
  end.

Definition parse_class_atom (s : str) : Parsed ClassAtom :=
  match s with
  | [] => PSyntaxError
  | c :: s1 =>
      if c == "\" then
        match s1 with
        | [] => PSyntaxError
        | e :: s2 =>
            match class_escape_of e with
            | Some a => POk a s2
            | None =>
                if e == "b" then POk (ClassRange (chr 8) (chr 8)) s2
                else if is_digit e && negb (e == "0") then PUnsupported
                else match parse_character_escape e s2 with
                     | POk x s3 => POk (ClassRange x x) s3
                     | PSyntaxError => PSyntaxError
                     | PUnsupported => PUnsupported
                     end
            end
        end
      else POk (ClassRange c c) s1
  end.

(** The contents of a class up to the closing bracket. Every turn
    takes at least one character, so the length of the text bounds the
    number of turns. *)
Fixpoint parse_class_items (fuel : nat) (s : str) (acc : list ClassAtom)
    : Parsed (list ClassAtom) :=
  match fuel with
  | O => PUnsupported
  | S fuel' =>
      match s with
      | [] => PSyntaxError
      | c :: s0 =>
          if c == "]" then POk (rev acc) s0
          else
            match parse_class_atom s with
            | POk a s1 =>
                match s1 with
                | dash :: next :: _ =>
                    if (dash == "-") && negb (next == "]") then
                      match parse_class_atom (tl s1) with
                      | POk b s3 =>
                          match a, b with
                          | ClassRange lo _, ClassRange hi _ =>
                              if (code hi <? code lo)%N then PSyntaxError
                              else parse_class_items fuel' s3 (ClassRange lo hi :: acc)
                          | _, _ =>
                              parse_class_items fuel' s3
                                (b :: ClassRange "-" "-" :: a :: acc)
                          end
                      | PSyntaxError => PSyntaxError
                      | PUnsupported => PUnsupported
                      end
                    else parse_class_items fuel' s1 (a :: acc)
                | _ => parse_class_items fuel' s1 (a :: acc)
                end
            | PSyntaxError => PSyntaxError
            | PUnsupported => PUnsupported
            end
      end
  end.

Definition parse_class (s : str) : Parsed regex :=
  let '(invert, s1) :=
    match s with
    | c :: s' => if c == "^" then (true, s') else (false, s)
    | [] => (false, s)
    end in
  match parse_class_items (S (length s1)) s1 [] with
  | POk items s2 => POk (RClass invert items) s2
  | PSyntaxError => PSyntaxError
  | PUnsupported => PUnsupported
  end.

(** An atom escape after the backslash; [total] is the number of
    capturing groups of the whole pattern. *)
Definition parse_atom_escape (total : nat) (s : str) : Parsed regex :=
  match s with
  | [] => PSyntaxError
  | c :: s1 =>
      match class_escape_of c with
      | Some a => POk (RClass false [a]) s1
      | None =>
          if is_digit c && negb (c == "0") then
            let '(n, s2) := take_digits s 0 in
            if (N.to_nat n <=? total)%nat then POk (RBackref (N.to_nat n)) s2
            else PUnsupported
          else match parse_character_escape c s1 with
               | POk x s2 => POk (RChar x) s2
               | PSyntaxError => PSyntaxError
               | PUnsupported => PUnsupported
               end
      end
  end.

(** Atoms other than groups. *)
Definition parse_simple_atom (total : nat) (s : str) : Parsed regex :=
  match s with
  | [] => PSyntaxError
  | c :: s1 =>
      if c == "." then POk RDot s1
      else if c == "[" then parse_class s1
      else if c == "\" then parse_atom_escape total s1
      else if (c == "*") || (c == "+") || (c == "?") then PSyntaxError
      else if c == "{" then
        match parse_braces s1 with
        | Some _ => PSyntaxError
        | None => POk (RChar c) s1
        end
      else if (c == ")") || (c == "|") || (c == "(") then PSyntaxError
      else POk (RChar c) s1
  end.

Definition lazy_suffix (q : bool -> regex) (gi : nat) (s : str)
    : Parsed (regex * nat) :=
  match s with
  | c :: s' => if c == "?" then POk (q false, gi) s' else POk (q true, gi) s
  | [] => POk (q true, gi) s
  end.

(** The quantifier after an atom, if any. A brace that does not open a
    quantifier is left for the next atom. *)
Definition parse_quantifier (a : regex) (gi : nat) (s : str)
    : Parsed (regex * nat) :=
  match s with
  | c :: s1 =>
      if c == "*" then lazy_suffix (RQuant a 0 None) gi s1
      else if c == "+" then lazy_suffix (RQuant a 1 None) gi s1
      else if c == "?" then lazy_suffix (RQuant a 0 (Some 1)) gi s1
      else if c == "{" then
        match parse_braces s1 with
        | Some (mn, mx, s2) =>
            match mx with
            | Some x => if (x <? mn)%nat then PSyntaxError
                        else lazy_suffix (RQuant a mn mx) gi s2
            | None => lazy_suffix (RQuant a mn mx) gi s2
            end
        | None => POk (a, gi) s
        end
      else POk (a, gi) s
  | [] => POk (a, gi) s
  end.

Definition expect_close {A} (p : Parsed A) (wrap : A -> A) : Parsed A :=
  match p with
  | POk a (c :: s) => if c == ")" then POk (wrap a) s else PSyntaxError
  | POk _ [] => PSyntaxError
  | PSyntaxError => PSyntaxError
  | PUnsupported => PUnsupported
  end.

(** Disjunction, alternative, term and atom; [gi] is the number of
    capturing groups opened so far. *)
Fixpoint parse_disjunction (fuel total gi : nat) (s : str) : Parsed (regex * nat) :=
  match fuel with
  | O => PUnsupported
  | S fuel' =>
      match parse_alternative fuel' total gi s with
      | POk (r1, gi1) (c :: s1) =>
          if c == "|" then
            match parse_disjunction fuel' total gi1 s1 with
            | POk (r2, gi2) s2 => POk (RAlt r1 r2, gi2) s2
            | PSyntaxError => PSyntaxError
            | PUnsupported => PUnsupported
            end
          else POk (r1, gi1) (c :: s1)
      | other => other
      end
  end
with parse_alternative (fuel total gi : nat) (s : str) : Parsed (regex * nat) :=
  match fuel with
  | O => PUnsupported
  | S fuel' =>
      match s with
      | [] => POk (REmpty, gi) s
      | c :: _ =>
          if (c == "|") || (c == ")") then POk (REmpty, gi) s
          else
            match parse_term fuel' total gi s with
            | POk (t, gi1) s1 =>
                match parse_alternative fuel' total gi1 s1 with
                | POk (r, gi2) s2 => POk (RSeq t r, gi2) s2
                | PSyntaxError => PSyntaxError
                | PUnsupported => PUnsupported
                end
            | PSyntaxError => PSyntaxError
            | PUnsupported => PUnsupported
            end
      end
  end
with parse_term (fuel total gi : nat) (s : str) : Parsed (regex * nat) :=
  match fuel with
  | O => PUnsupported
  | S fuel' =>
      match s with
      | [] => PSyntaxError
      | c :: s1 =>
          if c == "^" then POk (RBol, gi) s1
          else if c == "$" then POk (REol, gi) s1
          else
            let atom :=
              match parse_atom fuel' total gi s with
              | POk (a, gi1) s2 => parse_quantifier a gi1 s2
              | PSyntaxError => PSyntaxError
              | PUnsupported => PUnsupported
              end in
            if c == "\" then
              match s1 with
              | e :: s2 =>
                  if e == "b" then POk (RWordB false, gi) s2
                  else if e == "B" then POk (RWordB true, gi) s2
                  else atom
              | [] => atom
              end
            else atom
      end
  end
with parse_atom (fuel total gi : nat) (s : str) : Parsed (regex * nat) :=
  match fuel with
  | O => PUnsupported
  | S fuel' =>
      match s with
      | [] => PSyntaxError
      | c :: s1 =>
          if c == "(" then
            match s1 with
            | q :: s2 =>
                if q == "?" then
                  match s2 with
                  | x :: s3 =>
                      if x == ":" then
                        expect_close (parse_disjunction fuel' total gi s3) (fun p => p)
                      else if x == "=" then
                        expect_close (parse_disjunction fuel' total gi s3)
                          (fun p => (RLook false (fst p), snd p))
                      else if x == "!" then
                        expect_close (parse_disjunction fuel' total gi s3)
                          (fun p => (RLook true (fst p), snd p))
                      else PUnsupported
                  | [] => PSyntaxError
                  end
                else
                  expect_close (parse_disjunction fuel' total (S gi) s1)
                    (fun p => (RGroup (S gi) (fst p), snd p))
            | [] => PSyntaxError
            end
          else
            match parse_simple_atom total s with
            | POk a s2 => POk (a, gi) s2
            | PSyntaxError => PSyntaxError
            | PUnsupported => PUnsupported
            end
      end
  end.

(** The number of left capturing parentheses of a pattern. *)
Fixpoint count_groups (in_class : bool) (s : str) : nat :=
  match s with
  | [] => 0
  | c :: t =>
      if c == "\" then
        match t with
        | _ :: t' => count_groups in_class t'
        | [] => 0
        end
      else if in_class then count_groups (negb (c == "]")) t
      else if c == "[" then count_groups true t
      else if c == "(" then
        match t with
        | q :: _ => if q == "?" then count_groups false t else S (count_groups false t)
        | [] => S (count_groups false t)
        end
      else count_groups false t
  end.

Inductive Compiled :=
| Pattern (r : regex) (ngroups : nat)
| SyntaxError
| Unsupported.

(** [new RegExp(pattern, 'g')] or [new RegExp(pattern, 'gi')]: both flag
    strings are valid, so only the pattern decides. *)
Definition compile (pattern : str) : Compiled :=
  let total := count_groups false pattern in
  match parse_disjunction (4 * length pattern + 4) total 0 pattern with
  | POk (r, _) [] => Pattern r total
  | POk _ (_ :: _) => SyntaxError
  | PSyntaxError => SyntaxError
  | PUnsupported => Unsupported
  end.

(** A compiled [RegExp] object with the [g] flag. *)
Record RegExp := {
  re_pattern : regex;
  re_ngroups : nat;
  re_ignoreCase : bool;
}.

(** [str.replace(re, template)] for a global [re]. *)
Definition String_replace (s : str) (re : RegExp) (template : str) : str :=
  regex_replace_all (re_ignoreCase re) (re_pattern re) (re_ngroups re) s template.

(** [str.match(re)] for a [re] without the [g] flag. *)
Definition String_match (s : str) (re : RegExp) : option Match :=
  regex_exec (re_ignoreCase re) (re_pattern re) s.

(** A regular expression literal of the source, from its text. *)
Definition regex_literal (pattern : str) (ignoreCase : bool) : RegExp :=
  match compile pattern with
  | Pattern r n => {| re_pattern := r; re_ngroups := n; re_ignoreCase := ignoreCase |}
  | _ => {| re_pattern := REmpty; re_ngroups := 0; re_ignoreCase := ignoreCase |}
  end.

(* ================================================================== *)
(** ** utils.ts: the markup codec *)
(* ================================================================== *)

(** The double quote and the line feed, which a literal cannot hold. *)
Definition dquote : str := [chr 34].
Definition newline : str := [chr 10].

Definition enmlDocType : str :=
  "<!DOCTYPE en-note SYSTEM " ++ dquote
    ++ "http://xml.evernote.com/pub/enml2.dtd" ++ dquote ++ ">".

Definition xmlProlog : str :=
  "<?xml version=" ++ dquote ++ "1.0" ++ dquote ++ " encoding=" ++ dquote
    ++ "UTF-8" ++ dquote ++ "?>" ++ newline.

(** The four global patterns of [escapeXml]: ampersand, less-than,
    greater-than and double quote. *)
Definition re_amp : RegExp := Eval vm_compute in regex_literal "&" false.
Definition re_lt : RegExp := Eval vm_compute in regex_literal "<" false.
Definition re_gt : RegExp := Eval vm_compute in regex_literal ">" false.
Definition re_quot : RegExp := Eval vm_compute in regex_literal dquote false.

Definition escapeXml (value : str) : str :=
  String_replace
    (String_replace
       (String_replace (String_replace value re_amp "&amp;") re_lt "&lt;")
       re_gt "&gt;")
    re_quot "&quot;".

Definition wrapEnmlBody (body : str) : str :=
  xmlProlog ++ enmlDocType ++ "<en-note>" ++ body ++ "</en-note>".

(** [/<en-note[^>]*>([\s\S]*?)<\/en-note>/i] *)
Definition re_en_note : RegExp :=
  Eval vm_compute in regex_literal "<en-note[^>]*>([\s\S]*?)<\/en-note>" true.

Definition extractEnmlBody (enml : str) : str :=
  match String_match enml re_en_note with
  | Some mt => capture_text (m_captures mt) 1
  | None => []
  end.

(** [/\r?\n/g] *)
Definition re_line_break : RegExp := Eval vm_compute in regex_literal "\r?\n" false.

Definition plainTextToEnml (text : str) : str :=
  let escaped := String_replace (escapeXml text) re_line_break "<br />" in
  let body := "<div>" ++ escaped ++ "</div>" in
  wrapEnmlBody body.

(** [sanitize-html] is a library of its own: the sanitizer, with the
    options of [sanitizerOptions] applied, is a parameter. *)
Definition sanitizeHtmlToEnml (sanitizeHtml : str -> str) (html : str) : str :=
  let sanitized := sanitizeHtml html in
  wrapEnmlBody sanitized.

(* ================================================================== *)
(** ** MD5 ([createHash('md5')]) and hexadecimal encoding *)
(* ================================================================== *)

Local Open Scope Z_scope.

Definition mask32 (x : Z) : Z := Z.land x 0xFFFFFFFF.

Definition add32 (a b : Z) : Z := mask32 (a + b).

Definition rotl32 (x : Z) (n : Z) : Z :=
  Z.lor (mask32 (Z.shiftl x n)) (Z.shiftr x (32 - n)).

Definition not32 (x : Z) : Z := Z.lxor x 0xFFFFFFFF.

Definition md5_K : list Z :=
  [ 0xd76aa478; 0xe8c7b756; 0x242070db; 0xc1bdceee;
    0xf57c0faf; 0x4787c62a; 0xa8304613; 0xfd469501;
    0x698098d8; 0x8b44f7af; 0xffff5bb1; 0x895cd7be;
    0x6b901122; 0xfd987193; 0xa679438e; 0x49b40821;
    0xf61e2562; 0xc040b340; 0x265e5a51; 0xe9b6c7aa;
    0xd62f105d; 0x02441453; 0xd8a1e681; 0xe7d3fbc8;
    0x21e1cde6; 0xc33707d6; 0xf4d50d87; 0x455a14ed;
    0xa9e3e905; 0xfcefa3f8; 0x676f02d9; 0x8d2a4c8a;
    0xfffa3942; 0x8771f681; 0x6d9d6122; 0xfde5380c;
    0xa4beea44; 0x4bdecfa9; 0xf6bb4b60; 0xbebfbc70;
    0x289b7ec6; 0xeaa127fa; 0xd4ef3085; 0x04881d05;
    0xd9d4d039; 0xe6db99e5; 0x1fa27cf8; 0xc4ac5665;
    0xf4292244; 0x432aff97; 0xab9423a7; 0xfc93a039;
    0x655b59c3; 0x8f0ccc92; 0xffeff47d; 0x85845dd1;
    0x6fa87e4f; 0xfe2ce6e0; 0xa3014314; 0x4e0811a1;
    0xf7537e82; 0xbd3af235; 0x2ad7d2bb; 0xeb86d391 ].

Definition md5_S : list Z :=
  [ 7; 12; 17; 22; 7; 12; 17; 22; 7; 12; 17; 22; 7; 12; 17; 22;
    5; 9; 14; 20; 5; 9; 14; 20; 5; 9; 14; 20; 5; 9; 14; 20;
    4; 11; 16; 23; 4; 11; 16; 23; 4; 11; 16; 23; 4; 11; 16; 23;
    6; 10; 15; 21; 6; 10; 15; 21; 6; 10; 15; 21; 6; 10; 15; 21 ].

Definition byte_to_Z (b : byte) : Z := Z.of_N (Byte.to_N b).

Definition byte_of_Z (z : Z) : byte :=
  match Byte.of_N (Z.to_N (Z.land z 0xFF)) with
  | Some b => b
  | None => x00
  end.

(** The message, one bit set, zeros up to 56 modulo 64, and the length
    in bits as a 64-bit little-endian number. *)
Definition le_bytes (count : nat) (x : Z) : list byte :=
  map (fun i => byte_of_Z (Z.shiftr x (8 * Z.of_nat i))) (seq 0 count).

Definition md5_pad (msg : list byte) : list byte :=
  let len := Z.of_nat (length msg) in
  let zeros := Z.to_nat ((55 - len) mod 64) in
  msg ++ [x80] ++ repeat x00 zeros ++ le_bytes 8 (Z.land (8 * len) 0xFFFFFFFFFFFFFFFF).

Fixpoint le_words (fuel : nat) (bs : list byte) : list Z :=
  match fuel, bs with
  | S fuel', b0 :: b1 :: b2 :: b3 :: t =>
      (byte_to_Z b0 + Z.shiftl (byte_to_Z b1) 8 + Z.shiftl (byte_to_Z b2) 16
       + Z.shiftl (byte_to_Z b3) 24) :: le_words fuel' t
  | _, _ => []
  end.

Definition md5_step (M : list Z) (st : Z * Z * Z * Z) (i : nat) : Z * Z * Z * Z :=
  let '(a, b, c, d) := st in
  let zi := Z.of_nat i in
  let '(f, g) :=
    if zi <? 16 then (Z.lor (Z.land b c) (Z.land (not32 b) d), zi)
    else if zi <? 32 then (Z.lor (Z.land d b) (Z.land (not32 d) c), (5 * zi + 1) mod 16)
    else if zi <? 48 then (Z.lxor (Z.lxor b c) d, (3 * zi + 5) mod 16)
    else (Z.lxor c (Z.lor b (not32 d)), (7 * zi) mod 16) in
  let f' := add32 (add32 (add32 f a) (nth i md5_K 0)) (nth (Z.to_nat g) M 0) in
  (d, add32 b (rotl32 f' (nth i md5_S 0)), b, c).

Definition md5_block (st : Z * Z * Z * Z) (block : list byte) : Z * Z * Z * Z :=
  let M := le_words 16 block in
  let '(a, b, c, d) := st in
  let '(a', b', c', d') := foldl (md5_step M) st (seq 0 64) in
  (add32 a a', add32 b b', add32 c c', add32 d d').

Fixpoint md5_blocks (fuel : nat) (st : Z * Z * Z * Z) (bs : list byte) : Z * Z * Z * Z :=
  match fuel, bs with
  | S fuel', _ :: _ => md5_blocks fuel' (md5_block st (take 64 bs)) (drop 64 bs)
  | _, _ => st
  end.

(** [createHash('md5').update(buffer).digest()] *)
Definition md5 (buffer : list byte) : list byte :=
  let padded := md5_pad buffer in
  let '(a, b, c, d) :=
    md5_blocks (length padded) (0x67452301, 0xefcdab89, 0x98badcfe, 0x10325476) padded in
  le_bytes 4 a ++ le_bytes 4 b ++ le_bytes 4 c ++ le_bytes 4 d.

Local Close Scope Z_scope.

Definition hex_digit (n : N) : ascii :=
  if (n <? 10)%N then chr (48 + n) else chr (87 + n).

(** [buffer.toString('hex')] *)
Definition to_hex (bs : list byte) : str :=
  flat_map (fun b => [hex_digit (Byte.to_N b / 16); hex_digit (Byte.to_N b mod 16)]) bs.

Definition bytes_of_str (s : str) : list byte := map byte_of_ascii s.

(* ================================================================== *)
(** ** Errors, outcomes and calls to the note store *)
(* ================================================================== *)

(** The errors an item can fail with: the [NodeOperationError]s the node
    throws, told apart by their message, the failure of
    [assertBinaryData], and a rejection by the note store. *)
Inductive NodeError :=
| MissingBinaryData (propertyName : str)
| SearchTextRequired
| InvalidRegularExpression
| InvalidJsonAttributes
| RemoteError (message : str).

(** [Uncovered]: the input uses a library construct outside this
    embedding. *)
Inductive Result (A : Type) :=
| Ok (a : A)
| Throw (e : NodeError)
| Uncovered.
Arguments Ok {A} a.
Arguments Throw {A} e.
Arguments Uncovered {A}.

Definition result_bind {A B} (r : Result A) (f : A -> Result B) : Result B :=
  match r with
  | Ok a => f a
  | Throw e => Throw e
  | Uncovered => Uncovered
  end.

(* ================================================================== *)
(** ** utils.ts: the resource builder *)
(* ================================================================== *)

(** One binary property of the input item: its bytes (what
    [getBinaryDataBuffer] returns) and the fields of its description that
    the code reads. *)
Record BinaryData := {
  bin_buffer : list byte;
  bin_mimeType : option str;
  bin_fileName : option str;
  bin_file : option str;
}.

Record Data := {
  body : list byte;
  size : nat;
  bodyHash : list byte;
}.

Record ResourceAttributes := {
  fileName : str;
}.

Record Resource := {
  data : Data;
  mime : str;
  attributes : ResourceAttributes;
}.

Record ResourceBuildResult := {
  resources : list Resource;
  mediaTags : list str;
}.

(** [a || b] on an optional string: [undefined] and the empty string are
    falsy. *)
Definition or_else (a : option str) (b : str) : str :=
  match a with
  | Some (c :: t) => c :: t
  | _ => b
  end.

Definition mediaTag (mimeType : str) (hash : list byte) : str :=
  "<en-media type=" ++ dquote ++ mimeType ++ dquote ++ " hash=" ++ dquote
    ++ to_hex hash ++ dquote ++ " />".

(** One turn of the loop of [buildResourcesFromBinary]: the buffer is
    hashed once, and that digest goes both into the resource and, in
    hexadecimal, into the media tag. The file name is [fileName] when it
    is a string, else [file], else the property name. *)
Definition buildResource (binary : gmap str BinaryData) (propertyName : str)
    : Result (Resource * str) :=
  match binary !! propertyName with
  | None => Throw (MissingBinaryData propertyName)
  | Some binaryData =>
      let buffer := bin_buffer binaryData in
      let bodyHash := md5 buffer in
      let mime := or_else (bin_mimeType binaryData) "application/octet-stream" in
      let data := {| body := buffer; size := length buffer; bodyHash := bodyHash |} in
      let fileNameValue :=
        match bin_fileName binaryData with
        | Some f => f
        | None => match bin_file binaryData with
                  | Some f => f
                  | None => propertyName
                  end
        end in
      let attributes := {| fileName := fileNameValue |} in
      let resource := {| data := data; mime := mime; attributes := attributes |} in
      Ok (resource, mediaTag mime bodyHash)
  end.

(** The loop, threading the two arrays that [push] extends. *)
Fixpoint buildResourcesLoop (binary : gmap str BinaryData) (propertyNames : list str)
    (resources : list Resource) (mediaTags : list str) : Result ResourceBuildResult :=
  match propertyNames with
  | [] => Ok {| resources := resources; mediaTags := mediaTags |}
  | propertyName :: rest =>
      match buildResource binary propertyName with
      | Ok (resource, tag) =>
          buildResourcesLoop binary rest (resources ++ [resource]) (mediaTags ++ [tag])
      | Throw e => Throw e
      | Uncovered => Uncovered
      end
  end.

Definition buildResourcesFromBinary (binary : gmap str BinaryData)
    (propertyNames : list str) : Result ResourceBuildResult :=
  buildResourcesLoop binary propertyNames [] [].

Definition parseBinaryPropertyNames (raw : str) : list str :=
  List.filter nonempty (map trim (split_on "," raw)).

(* ================================================================== *)
(** ** Evernote.node.ts: tags *)
(* ================================================================== *)

Definition splitTags (raw : str) : list str :=
  List.filter nonempty (map trim (split_on "," raw)).

(** [arr.includes(x)] on strings. *)
Definition includes (l : list str) (x : str) : bool :=
  existsb (fun y => str_eqb y x) l.

(** [[...new Set(l)]]: the elements in the order of their first
    occurrence. *)
Definition Set_spread (l : list str) : list str :=
  foldl (fun acc x => if includes acc x then acc else acc ++ [x]) [] l.

(* ================================================================== *)
(** ** [JSON.parse] and note attributes *)
(* ================================================================== *)

(** A number is kept as its text: no claim depends on its value. *)
#[warnings="-register-all"]
Inductive json :=
| JNull
| JBool (b : bool)
| JNumber (text : str)
| JString (s : str)
| JArray (items : list json)
| JObject (members : list (str * json)).

Fixpoint skip_ws (s : str) : str :=
  match s with
  | c :: t =>
      if (code c =? 32)%N || (code c =? 9)%N || (code c =? 10)%N || (code c =? 13)%N
      then skip_ws t else s
  | [] => []
  end.

(** The characters of a string after its opening quote. *)
Fixpoint json_string_body (s : str) : Parsed str :=
  match s with
  | [] => PSyntaxError
  | c :: t =>
      if (code c =? 34)%N then POk [] t
      else if c == "\" then
        match t with
        | [] => PSyntaxError
        | e :: t' =>
            let continue (x : ascii) (rest : Parsed str) : Parsed str :=
              match rest with
              | POk body r => POk (x :: body) r
              | other => other
              end in
            if (code e =? 34)%N || (e == "\") || (e == "/")
            then continue e (json_string_body t')
            else if e == "b" then continue (chr 8) (json_string_body t')
            else if e == "f" then continue (chr 12) (json_string_body t')
            else if e == "n" then continue (chr 10) (json_string_body t')
            else if e == "r" then continue (chr 13) (json_string_body t')
            else if e == "t" then continue (chr 9) (json_string_body t')
            else if e == "u" then
              match t' with
              | h1 :: h2 :: h3 :: h4 :: t'' =>
                  match hex_value h1, hex_value h2, hex_value h3, hex_value h4 with
                  | Some a, Some b, Some c3, Some d =>
                      if (a =? 0)%N && (b =? 0)%N
                      then continue (chr (16 * c3 + d)) (json_string_body t'')
                      else PUnsupported
                  | _, _, _, _ => PSyntaxError
                  end
              | _ => PSyntaxError
              end
            else PSyntaxError
        end
      else if (code c <? 32)%N then PSyntaxError
      else match json_string_body t with
           | POk body r => POk (c :: body) r
           | other => other
           end
  end.

Fixpoint span_digits (s : str) : str * str :=
  match s with
  | c :: t =>
      if is_digit c then let '(ds, r) := span_digits t in (c :: ds, r) else ([], s)
  | [] => ([], [])
  end.

(** A number: sign, integer part without leading zeros, fraction,
    exponent. *)
Definition json_number (s : str) : option (str * str) :=
  let '(sign, s1) :=
    match s with
    | c :: t => if c == "-" then ([c], t) else ([], s)
    | [] => ([], s)
    end in
  let '(int, s2) := span_digits s1 in
  match int with
  | [] => None
  | d :: more =>
      if (d == "0") && nonempty more then None
      else
        let frac :=
          match s2 with
          | c :: t =>
              if c == "." then
                match span_digits t with
                | ([], _) => None
                | (ds, r) => Some (c :: ds, r)
                end
              else Some ([], s2)
          | [] => Some ([], s2)
          end in
        match frac with
        | None => None
        | Some (fr, s3) =>
            match s3 with
            | e :: t =>
                if (e == "e") || (e == "E") then
                  let '(esign, t1) :=
                    match t with
                    | c :: t' => if (c == "+") || (c == "-") then ([c], t') else ([], t)
                    | [] => ([], t)
                    end in
                  match span_digits t1 with
                  | ([], _) => None
                  | (ds, r) => Some (sign ++ int ++ fr ++ [e] ++ esign ++ ds, r)
                  end
                else Some (sign ++ int ++ fr, s3)
            | [] => Some (sign ++ int ++ fr, s3)
            end
        end
  end.

Definition strip_prefix (p s : str) : option str :=
  if starts_with false p s then Some (drop (length p) s) else None.

(** A value, the elements of an array after the first, and the members
    of an object after the first. *)
Fixpoint json_value (fuel : nat) (s : str) : Parsed json :=
  match fuel with
  | O => PUnsupported
  | S fuel' =>
      match skip_ws s with
      | [] => PSyntaxError
      | c :: t =>
          if (code c =? 34)%N then
            match json_string_body t with
            | POk x r => POk (JString x) r
            | PSyntaxError => PSyntaxError
            | PUnsupported => PUnsupported
            end
          else if c == "[" then
            match skip_ws t with
            | c1 :: t1 =>
                if c1 == "]" then POk (JArray []) t1
                else
                  match json_value fuel' t with
                  | POk v r =>
                      match json_elements fuel' r with
                      | POk vs r' => POk (JArray (v :: vs)) r'
                      | PSyntaxError => PSyntaxError
                      | PUnsupported => PUnsupported
                      end
                  | PSyntaxError => PSyntaxError
                  | PUnsupported => PUnsupported
                  end
            | [] => PSyntaxError
            end
          else if c == "{" then
            match skip_ws t with
            | c1 :: t1 =>
                if c1 == "}" then POk (JObject []) t1
                else
                  match json_member fuel' t with
                  | POk kv r =>
                      match json_members fuel' r with
                      | POk kvs r' => POk (JObject (kv :: kvs)) r'
                      | PSyntaxError => PSyntaxError
                      | PUnsupported => PUnsupported
                      end
                  | PSyntaxError => PSyntaxError
                  | PUnsupported => PUnsupported
                  end
            | [] => PSyntaxError
            end
          else
            match strip_prefix "true" (c :: t), strip_prefix "false" (c :: t),
                  strip_prefix "null" (c :: t) with
            | Some r, _, _ => POk (JBool true) r
            | _, Some r, _ => POk (JBool false) r
            | _, _, Some r => POk JNull r
            | _, _, _ =>
                match json_number (c :: t) with
                | Some (text, r) => POk (JNumber text) r
                | None => PSyntaxError
                end
            end
      end
  end
with json_elements (fuel : nat) (s : str) : Parsed (list json) :=
  match fuel with
  | O => PUnsupported
  | S fuel' =>
      match skip_ws s with
      | c :: t =>
          if c == "]" then POk [] t
          else if c == "," then
            match json_value fuel' t with
            | POk v r =>
                match json_elements fuel' r with
                | POk vs r' => POk (v :: vs) r'
                | other => other
                end
            | PSyntaxError => PSyntaxError
            | PUnsupported => PUnsupported
            end
          else PSyntaxError
      | [] => PSyntaxError
      end
  end
with json_member (fuel : nat) (s : str) : Parsed (str * json) :=
  match fuel with
  | O => PUnsupported
  | S fuel' =>
      match skip_ws s with
      | q :: t =>
          if (code q =? 34)%N then
            match json_string_body t with
            | POk key r =>
                match skip_ws r with
                | colon :: r1 =>
                    if colon == ":" then
                      match json_value fuel' r1 with
                      | POk v r2 => POk (key, v) r2
                      | PSyntaxError => PSyntaxError
                      | PUnsupported => PUnsupported
                      end
                    else PSyntaxError
                | [] => PSyntaxError
                end
            | PSyntaxError => PSyntaxError
            | PUnsupported => PUnsupported
            end
          else PSyntaxError
      | [] => PSyntaxError
      end
  end
with json_members (fuel : nat) (s : str) : Parsed (list (str * json)) :=
  match fuel with
  | O => PUnsupported
  | S fuel' =>
      match skip_ws s with
      | c :: t =>
          if c == "}" then POk [] t
          else if c == "," then
            match json_member fuel' t with
            | POk kv r =>
                match json_members fuel' r with
                | POk kvs r' => POk (kv :: kvs) r'
                | other => other
                end
            | PSyntaxError => PSyntaxError
            | PUnsupported => PUnsupported
            end
          else PSyntaxError
      | [] => PSyntaxError
      end
  end.

(** [JSON.parse(text)]: one value, with white space around it. *)
Definition JSON_parse (text : str) : Parsed json :=
  match json_value (2 * length text + 2) text with
  | POk v r =>
      match skip_ws r with
      | [] => POk v []
      | _ :: _ => PSyntaxError
      end
  | other => other
  end.

(** The own enumerable properties of a parsed value, in the order
    [Object.assign] copies them. *)
Definition own_properties (v : json) : list (str * json) :=
  match v with
  | JObject members => members
  | JArray items => imap (fun i x => (string_of_index i, x)) items
  | JString s => imap (fun i c => (string_of_index i, JString [c])) s
  | _ => []
  end.

(** [target[key] = value] on a plain object: the key [__proto__] reaches
    the setter of [Object.prototype] and leaves the own properties
    alone. *)
Definition set_property (target : gmap str json) (kv : str * json) : gmap str json :=
  if str_eqb (fst kv) "__proto__" then target else <[fst kv := snd kv]> target.

(** [Object.assign(target, source)] *)
Definition Object_assign (target : gmap str json) (source : list (str * json))
    : gmap str json :=
  foldl set_property target source.

(** [Object.keys(o).length > 0] *)
Definition has_keys (o : gmap str json) : bool := negb (bool_decide (o = ∅)).

(** The attribute merge of the create and update operations. *)
Definition mergeAttributes (attributesJson : str) (noteAttributesUi : gmap str json)
    : Result (option (gmap str json)) :=
  let attributesObj : gmap str json := ∅ in
  result_bind
    (if nonempty attributesJson then
       match JSON_parse attributesJson with
       | POk parsed _ => Ok (Object_assign attributesObj (own_properties parsed))
       | PSyntaxError => Throw InvalidJsonAttributes
       | PUnsupported => Uncovered
       end
     else Ok attributesObj)
    (fun attributesObj =>
       let attributesObj :=
         if has_keys noteAttributesUi
         then Object_assign attributesObj (map_to_list noteAttributesUi)
         else attributesObj in
       Ok (if has_keys attributesObj then Some attributesObj else None)).

(* ================================================================== *)
(** ** Evernote.node.ts: the update and create operations *)
(* ================================================================== *)

(** The note returned by [noteStore.getNote], as far as the code reads
    it. *)
Record ExistingNote := {
  note_title : option str;
  note_content : option str;
}.

(** The object handed to [new EvernoteSDK.Types.Note]: a field that the
    code does not set is absent. *)
Record NoteData := {
  nd_guid : option str;
  nd_title : option str;
  nd_content : str;
  nd_tagNames : option (list str);
  nd_resources : option (list Resource);
  nd_notebookGuid : option str;
  nd_attributes : option (gmap str json);
}.

Inductive Call :=
| GetNote (guid : str) (withContent : bool)
| GetNoteTagNames (guid : str)
| UpdateNote (note : NoteData)
| CreateNote (note : NoteData).

(** What the node runs against: the sanitizer, the binary properties of
    the current item, and the answers of the note store, each either the
    message of a rejection or a value. *)
Record Host := {
  sanitizeHtml : str -> str;
  binary : gmap str BinaryData;
  getNote : str -> bool -> str + ExistingNote;
  getNoteTagNames : str -> str + list str;
  updateNote : NoteData -> str + NoteData;
  createNote : NoteData -> str + NoteData;
}.

(** Computations that call the note store: the calls made, in order, and
    the outcome. A failure keeps the calls made before it. *)
Definition M (A : Type) : Type := list Call * Result A.

Definition ret {A} (a : A) : M A := ([], Ok a).

Definition bind {A B} (x : M A) (f : A -> M B) : M B :=
  match x with
  | (calls, Ok a) => let '(calls', r) := f a in (calls ++ calls', r)
  | (calls, Throw e) => (calls, Throw e)
  | (calls, Uncovered) => (calls, Uncovered)
  end.

Definition lift {A} (r : Result A) : M A := ([], r).

Definition call {A} (c : Call) (answer : str + A) : M A :=
  match answer with
  | inl message => ([c], Throw (RemoteError message))
  | inr a => ([c], Ok a)
  end.

Notation "x <- c1 ;; c2" := (bind c1 (fun x => c2))
  (at level 100, c1 at next level, right associativity) : js_scope.

Record UpdateParams := {
  noteGuid : str;
  contentEditingMode : str;
  contentMode : str;
  plainContent : str;
  htmlContent : str;
  tagsRaw : str;
  tagsMode : str;
  titleUpdate : str;
  notebookGuidUpdate : str;
  attributesJson : str;
  noteAttributesUi : gmap str json;
  searchValue : str;
  useRegex : bool;
  caseSensitive : bool;
  addAttachments : bool;
  binaryPropertyNamesRaw : str;
}.

Definition encodeContent (h : Host) (contentMode plainContent htmlContent : str) : str :=
  if str_eqb contentMode "html"
  then sanitizeHtmlToEnml (sanitizeHtml h) htmlContent
  else plainTextToEnml plainContent.

(** The character class of the escaping step, every syntax character of
    a pattern: [/[.*+?^${}()|[\]\\]/g]. *)
Definition re_metachars : RegExp :=
  Eval vm_compute in regex_literal "[.*+?^${}()|[\]\\]" false.

(** The pattern searched for: the search value, escaped unless it is to
    be read as a regular expression. *)
Definition searchPattern (searchValue : str) (useRegex : bool) : str :=
  if useRegex then searchValue else String_replace searchValue re_metachars "\$&".

(** The [searchReplace] branch. *)
Definition searchReplaceContent (existingContent : option str)
    (searchValue : str) (useRegex caseSensitive : bool) (replaceValue : str)
    : Result str :=
  let existingBody := extractEnmlBody (or_else existingContent "") in
  if negb (nonempty searchValue) then Throw SearchTextRequired
  else
    let pattern := searchPattern searchValue useRegex in
    match compile pattern with
    | SyntaxError => Throw InvalidRegularExpression
    | Unsupported => Uncovered
    | Pattern r n =>
        let regex := {| re_pattern := r; re_ngroups := n;
                        re_ignoreCase := negb caseSensitive |} in
        let replacedBody := String_replace existingBody regex replaceValue in
        Ok (wrapEnmlBody replacedBody)
    end.

(** The content after the editing mode has been applied, before media
    tags are added. *)
Definition editContent (h : Host) (p : UpdateParams) (existingNote : ExistingNote)
    : Result str :=
  if str_eqb (contentEditingMode p) "keep" then
    Ok (or_else (note_content existingNote) (wrapEnmlBody ""))
  else if str_eqb (contentEditingMode p) "replace" then
    Ok (encodeContent h (contentMode p) (plainContent p) (htmlContent p))
  else if str_eqb (contentEditingMode p) "append" then
    let existingBody := extractEnmlBody (or_else (note_content existingNote) "") in
    let newPart := encodeContent h (contentMode p) (plainContent p) (htmlContent p) in
    let newBody := extractEnmlBody newPart in
    let combined := existingBody ++ newBody in
    Ok (wrapEnmlBody combined)
  else if str_eqb (contentEditingMode p) "searchReplace" then
    searchReplaceContent (note_content existingNote) (searchValue p) (useRegex p)
      (caseSensitive p)
      (if str_eqb (contentMode p) "html" then htmlContent p else plainContent p)
  else Ok "".

(** Media tags, when there are any, go after the body of the content. *)
Definition appendMediaTags (newContent : str) (attachmentResult : option ResourceBuildResult)
    : str :=
  match attachmentResult with
  | Some res =>
      match mediaTags res with
      | [] => newContent
      | _ :: _ =>
          let updatedBody := extractEnmlBody newContent in
          wrapEnmlBody (updatedBody ++ join_empty (mediaTags res))
      end
  | None => newContent
  end.

Definition buildAttachments (h : Host) (addAttachments : bool) (raw : str)
    : Result (option ResourceBuildResult) :=
  if addAttachments then
    result_bind (buildResourcesFromBinary (binary h) (parseBinaryPropertyNames raw))
      (fun res => Ok (Some res))
  else Ok None.

(** The tag names of an update, with the existing ones fetched for the
    modes that need them. *)
Definition reconcileTags (h : Host) (p : UpdateParams) : M (list str) :=
  let tagNames := if negb (str_eqb (tagsMode p) "ignore") then splitTags (tagsRaw p) else [] in
  if str_eqb (tagsMode p) "add" || str_eqb (tagsMode p) "remove" then
    existingTagNames <- call (GetNoteTagNames (noteGuid p)) (getNoteTagNames h (noteGuid p)) ;;
    if str_eqb (tagsMode p) "add" then
      ret (Set_spread (existingTagNames ++ tagNames))
    else
      ret (List.filter (fun tag => negb (includes tagNames tag)) existingTagNames)
  else ret tagNames.

Definition needsExistingContent (mode : str) : bool :=
  includes ["keep"; "append"; "searchReplace"] mode.

Definition optional (s : str) : option str :=
  if nonempty s then Some s else None.

Definition updateNoteData (p : UpdateParams) (existingNote : ExistingNote)
    (newContent : str) (tagNames : list str) (resources : option (list Resource))
    (attributes : option (gmap str json)) : NoteData :=
  {| nd_guid := Some (noteGuid p);
     nd_title := if nonempty (titleUpdate p) then Some (titleUpdate p)
                 else note_title existingNote;
     nd_content := newContent;
     nd_tagNames := if negb (str_eqb (tagsMode p) "ignore") then Some tagNames else None;
     nd_resources := resources;
     nd_notebookGuid := optional (notebookGuidUpdate p);
     nd_attributes := attributes |}.

(** The [update] operation on one item. *)
Definition update (h : Host) (p : UpdateParams) : M NoteData :=
  attachmentResult <- lift (buildAttachments h (addAttachments p) (binaryPropertyNamesRaw p)) ;;
  existingNote <- call
      (GetNote (noteGuid p)
         (needsExistingContent (contentEditingMode p) || negb (nonempty (titleUpdate p))))
      (getNote h (noteGuid p)
         (needsExistingContent (contentEditingMode p) || negb (nonempty (titleUpdate p)))) ;;
  newContent <- lift (editContent h p existingNote) ;;
  let newContent := appendMediaTags newContent attachmentResult in
  let resources := option_map resources attachmentResult in
  tagNames <- reconcileTags h p ;;
  attributes <- lift (mergeAttributes (attributesJson p) (noteAttributesUi p)) ;;
  let noteData := updateNoteData p existingNote newContent tagNames resources attributes in
  call (UpdateNote noteData) (updateNote h noteData).

Record CreateParams := {
  c_title : str;
  c_contentMode : str;
  c_plainContent : str;
  c_htmlContent : str;
  c_notebookGuid : str;
  c_tagsRaw : str;
  c_attributesJson : str;
  c_noteAttributesUi : gmap str json;
  c_addAttachments : bool;
  c_binaryPropertyNamesRaw : str;
}.

(** The [create] operation on one item. *)
Definition create (h : Host) (p : CreateParams) : M NoteData :=
  attachmentResult <- lift (buildAttachments h (c_addAttachments p) (c_binaryPropertyNamesRaw p)) ;;
  let baseContent := encodeContent h (c_contentMode p) (c_plainContent p) (c_htmlContent p) in
  let contentWithMedia := appendMediaTags baseContent attachmentResult in
  let tagNames := splitTags (c_tagsRaw p) in
  let resources := option_map resources attachmentResult in
  attributes <- lift (mergeAttributes (c_attributesJson p) (c_noteAttributesUi p)) ;;
  let noteData :=
    {| nd_guid := None;
       nd_title := Some (c_title p);
       nd_content := contentWithMedia;
       nd_tagNames := match tagNames with [] => None | _ => Some tagNames end;
       nd_resources := resources;
       nd_notebookGuid := optional (c_notebookGuid p);
       nd_attributes := attributes |} in
  call (CreateNote noteData) (createNote h noteData).

(* ================================================================== *)
(** ** utils.ts: reading a note back *)
(* ================================================================== *)

(** [str.replace(re, template)] for a [re] without the [g] flag: the
    first match only. *)
Definition String_replace_first (s : str) (re : RegExp) (template : str) : str :=
  match regex_exec (re_ignoreCase re) (re_pattern re) s with
  | Some mt =>
      m_before mt
      ++ get_substitution (m_text mt) (m_before mt) (m_after mt) (m_captures mt)
           (re_ngroups re) template
      ++ m_after mt
  | None => s
  end.

(** The patterns of [enmlToHtml], in the order of their use. *)
Definition re_xml_declaration : RegExp :=
  Eval vm_compute in regex_literal "<\?xml[^>]*>" true.
Definition re_doctype : RegExp :=
  Eval vm_compute in regex_literal "<!DOCTYPE[^>]*>" true.
Definition re_en_note_open : RegExp :=
  Eval vm_compute in regex_literal "<en-note([^>]*)>" true.
Definition re_en_note_close : RegExp :=
  Eval vm_compute in regex_literal "<\/en-note>" true.
Definition re_todo_checked : RegExp :=
  Eval vm_compute in
    regex_literal ("<en-todo checked=" ++ dquote ++ "true" ++ dquote ++ "\s*\/?>") true.
Definition re_todo_unchecked : RegExp :=
  Eval vm_compute in
    regex_literal ("<en-todo checked=" ++ dquote ++ "false" ++ dquote ++ "\s*\/?>") true.
Definition re_todo : RegExp :=
  Eval vm_compute in regex_literal "<en-todo\s*\/?>" true.

Definition checkbox_checked : str :=
  "<input type=" ++ dquote ++ "checkbox" ++ dquote ++ " checked disabled>".
Definition checkbox_unchecked : str :=
  "<input type=" ++ dquote ++ "checkbox" ++ dquote ++ " disabled>".

Definition enmlToHtml (enml : str) : str :=
  let withoutProlog :=
    trim (String_replace_first (String_replace_first enml re_xml_declaration "")
            re_doctype "") in
  String_replace
    (String_replace
       (String_replace
          (String_replace_first
             (String_replace_first withoutProlog re_en_note_open "<div$1>")
             re_en_note_close "</div>")
          re_todo_checked checkbox_checked)
       re_todo_unchecked checkbox_unchecked)
    re_todo checkbox_unchecked.

(** The note returned by [noteStore.getNote] with its content, as far as
    [transformNote] and the read operation look at it. *)
Record FullNote := {
  fn_title : option str;
  fn_content : option str;
  fn_contentHash : option (list byte);
}.

(** The object the node returns for a note. *)
Record NoteOutput := {
  out_title : option str;
  out_content : option str;
  out_contentHash : option str;
}.

(** A digest, when the note has one, becomes its hexadecimal text. *)
Definition transformNote (note : FullNote) : NoteOutput :=
  {| out_title := fn_title note;
     out_content := fn_content note;
     out_contentHash := option_map to_hex (fn_contentHash note) |}.

(** The read operation after the fetch: the content converted, dropped
    or left as it is. An absent and an empty content are both falsy. *)
Definition readOutput (returnContent : str) (note : FullNote) : NoteOutput :=
  let output := transformNote note in
  match fn_content note with
  | Some (c :: t) =>
      if str_eqb returnContent "html"
      then {| out_title := out_title output;
              out_content := Some (enmlToHtml (c :: t));
              out_contentHash := out_contentHash output |}
      else if str_eqb returnContent "none"
      then {| out_title := out_title output;
              out_content := None;
              out_contentHash := out_contentHash output |}
      else output
  | _ =>
      if str_eqb returnContent "none"
      then {| out_title := out_title output;
              out_content := None;
              out_contentHash := out_contentHash output |}
      else output
  end.

(* ================================================================== *)
(** ** Definitions used to state and prove the properties *)
(* ================================================================== *)

(** The pattern of a text without syntax characters: one [RChar] per
    character. *)
Definition lit_chain (s : str) (r : regex) : regex :=
  foldr (fun c acc => RSeq (RChar c) acc) r s.

Definition no_dollar (template : str) : Prop := ~ In "$"%char template.

(** [r] matches exactly the single characters that satisfy [p]. *)
Definition one_char (ic : bool) (r : regex) (p : ascii -> bool) : Prop :=
  forall prev rest,
    match_at ic r prev rest =
    match rest with
    | ch :: t => if p ch then Some {| mr_prev := ch :: prev; mr_rest := t; mr_caps := ∅ |}
                 else None
    | [] => None
    end.

(** What [escapeXml] does to one character. *)
Definition escape_char (c : ascii) : str :=
  if c == "&" then "&amp;"
  else if c == "<" then "&lt;"
  else if c == ">" then "&gt;"
  else if (code c =? 34)%N then "&quot;"
  else [c].

Definition CR : ascii := chr 13.
Definition LF : ascii := chr 10.

(** A line feed, with the carriage return before it if there is one,
    becomes one break element; everything else stays. *)
Fixpoint break_lines (s : str) : str :=
  match s with
  | [] => []
  | c :: t =>
      if c == CR then
        match t with
        | d :: t' => if d == LF then "<br />" ++ break_lines t' else c :: break_lines t
        | [] => [c]
        end
      else if c == LF then "<br />" ++ break_lines t
      else c :: break_lines t
  end.

(** The encoding of plain text, character by character. *)
Fixpoint encode_text (s : str) : str :=
  match s with
  | [] => []
  | c :: t =>
      if c == CR then
        match t with
        | d :: t' => if d == LF then "<br />" ++ encode_text t' else c :: encode_text t
        | [] => [c]
        end
      else if c == LF then "<br />" ++ encode_text t
      else escape_char c ++ encode_text t
  end.

(** Text in which the markup characters occur only inside an entity or a
    break element. *)
Inductive EscapedText : str -> Prop :=
| escaped_nil : EscapedText []
| escaped_entity e t :
    In e ["&amp;"; "&lt;"; "&gt;"; "&quot;"] -> EscapedText t -> EscapedText (e ++ t)
| escaped_break t : EscapedText t -> EscapedText ("<br />" ++ t)
| escaped_plain c t :
    ~ In c ["<"; ">"; "&"; chr 34; LF]%char -> EscapedText t -> EscapedText (c :: t).

Definition open_prefix : str := "<en-note".
Definition close_tag : str := "</en-note>".

Definition class_not_gt : regex := RClass true [ClassRange ">" ">"].
Definition class_any : regex := RClass false [ClassEsc EscSpace false; ClassEsc EscSpace true].

(** The pattern of [extractEnmlBody], piece by piece. *)
Definition en_note_tail : regex :=
  RSeq (RQuant class_not_gt 0 None true)
    (RSeq (RChar ">")
       (RSeq (RGroup 1 (RSeq (RQuant class_any 0 None false) REmpty))
          (lit_chain close_tag REmpty))).

(** The opening and the closing tag of the root element alone, as
    patterns. *)
Definition re_open_tag : RegExp := Eval vm_compute in regex_literal "<en-note[^>]*>" true.
Definition re_close_tag : RegExp := Eval vm_compute in regex_literal "<\/en-note>" true.

(** No occurrence of [s] (compared as the pattern compares) at any
    position of [l]. *)
Definition no_occurrence (ic : bool) (s l : str) : Prop :=
  forall u1 u2, l = u1 ++ u2 -> starts_with ic s u2 = false.

(** Positions where the pattern cannot start: the character is not [<],
    or the next one is not [e]. *)
Fixpoint cannot_start (l : str) : bool :=
  match l with
  | [] => true
  | c :: t =>
      (negb (char_matches true "<" c)
       || match t with
          | d :: _ => negb (char_matches true "e" d)
          | [] => false
          end)
      && cannot_start t
  end.

(** The escaping step, character by character. *)
Definition escape_meta (c : ascii) : str :=
  if is_syntax_char c then ["\"%char; c] else [c].

(** The text after an atom of an escaped search value does not start
    with a quantifier. *)
Definition no_quantifier_ahead (s : str) : Prop :=
  match s with
  | c :: _ => is_syntax_char c = false \/ c = "\"%char
  | [] => True
  end.



Definition fetchWithContent (p : UpdateParams) : bool :=
  needsExistingContent (contentEditingMode p) || negb (nonempty (titleUpdate p)).

(** The part of [update] that follows the editing of the content. *)
Definition finishUpdate (h : Host) (p : UpdateParams)
    (attachmentResult : option ResourceBuildResult) (existingNote : ExistingNote)
    (newContent : str) : M NoteData :=
  tagNames <- reconcileTags h p ;;
  attributes <- lift (mergeAttributes (attributesJson p) (noteAttributesUi p)) ;;
  let noteData := updateNoteData p existingNote
                    (appendMediaTags newContent attachmentResult) tagNames
                    (option_map resources attachmentResult) attributes in
  call (UpdateNote noteData) (updateNote h noteData).

(** A string without white space at either end. *)
Definition trimmed (s : str) : Prop :=
  match s with c :: _ => is_js_space c = false | [] => True end /\
  match rev s with c :: _ => is_js_space c = false | [] => True end.

(** [split_on] cuts at every separator and nowhere else. *)
Fixpoint join_with (sep : ascii) (l : list str) : str :=
  match l with
  | [] => []
  | [s] => s
  | s :: rest => s ++ sep :: join_with sep rest
  end.

Definition proto_key : str := "__proto__".

(** The merged attribute object: the properties of the parsed JSON, then
    the structured fields over them. *)
Definition mergedAttributes (parsed : option json) (ui : gmap str json) : gmap str json :=
  Object_assign
    (Object_assign ∅ (match parsed with Some v => own_properties v | None => [] end))
    (map_to_list ui).

(** No position of [l] starts a closing tag of any element whose name
    begins with [e]: a check on three characters that rules out the
    closing tag of the root element. *)
Fixpoint closing_free (l : str) : bool :=
  match l with
  | [] => true
  | _ :: t => negb (starts_with true "</e" l) && closing_free t
  end.

(** A piece of text in which no such closing tag can start, whatever
    follows the piece. *)
Fixpoint piece_ok (piece : str) : bool :=
  match piece with
  | [] => true
  | c :: t =>
      (negb (c == "<")
       || match t with
          | d :: t' =>
              negb (d == "/")
              || match t' with
                 | e :: _ => negb (char_matches true "e" e)
                 | [] => false
                 end
          | [] => false
          end)
      && piece_ok t
  end.

(** Two continuations that agree on every position with at most [n]
    characters left. *)
Definition agree_below (n : nat) (k k' : Cont) : Prop :=
  forall p s c, length s <= n -> k p s c = k' p s c.

(** A matcher that uses its continuation only at positions at or after
    its own. *)
Definition local (body : str -> str -> gmap nat str -> Cont -> option MatchResult) : Prop :=
  forall prev rest caps k k',
    agree_below (length rest) k k' ->
    body prev rest caps k = body prev rest caps k'.

(** [re.test(s)] *)
Definition RegExp_test (re : RegExp) (s : str) : bool :=
  regex_test (re_ignoreCase re) (re_pattern re) s.

(* ------------------------------------------------------------------ *)
(** *** Sample inputs *)
(* ------------------------------------------------------------------ *)

Definition sample_binary : gmap str BinaryData :=
  {[ "data" := {| bin_buffer := bytes_of_str "abc";
                  bin_mimeType := Some "text/plain";
                  bin_fileName := Some "abc.txt";
                  bin_file := None |} ]}.

Definition sample_note : ExistingNote :=
  {| note_title := Some "Groceries";
     note_content := Some (wrapEnmlBody "price: $5.00") |}.

(** A host with one binary property, a sanitizer that returns its input
    and a note store that holds [sample_note] with tags [a] and [b] and
    accepts every note. *)
Definition sample_host : Host :=
  {| sanitizeHtml := fun html => html;
     binary := sample_binary;
     getNote := fun _ _ => inr sample_note;
     getNoteTagNames := fun _ => inr ["a"; "b"];
     updateNote := fun note => inr note;
     createNote := fun note => inr note |}.

Definition sample_update (editingMode tagsMode tags search replacement title json : str)
    (attachments : bool) : UpdateParams :=
  {| noteGuid := "note-1";
     contentEditingMode := editingMode;
     contentMode := "plainText";
     plainContent := replacement;
     htmlContent := "";
     tagsRaw := tags;
     tagsMode := tagsMode;
     titleUpdate := title;
     notebookGuidUpdate := "";
     attributesJson := json;
     noteAttributesUi := ∅;
     searchValue := search;
     useRegex := false;
     caseSensitive := false;
     addAttachments := attachments;
     binaryPropertyNamesRaw := "data" |}.

Definition sample_create (json : str) : CreateParams :=
  {| c_title := "New note";
     c_contentMode := "plainText";
     c_plainContent := "hello";
     c_htmlContent := "";
     c_notebookGuid := "";
     c_tagsRaw := "";
     c_attributesJson := json;
     c_noteAttributesUi := ∅;
     c_addAttachments := false;
     c_binaryPropertyNamesRaw := "data" |}.


(** A replace update with attachments, tags [b] and [c] to add, and no
    new title. *)
Definition sample_replace : UpdateParams :=
  sample_update "replace" "add" "b, c" "" "hello" "" "" true.

(** A keep update with a new title and the tag [a] twice. *)
Definition sample_keep : UpdateParams :=
  sample_update "keep" "replace" "a,a" "" "" "Renamed" "" false.

(** The JSON text and the structured fields of the attribute example. *)
Definition sample_attributes_json : str :=
  "{" ++ dquote ++ "author" ++ dquote ++ ":" ++ dquote ++ "X" ++ dquote ++ ","
      ++ dquote ++ "source" ++ dquote ++ ":" ++ dquote ++ "json" ++ dquote ++ "}".

Definition sample_attributes_ui : gmap str json := {[ "source" := JString "ui" ]}.

(* ------------------------------------------------------------------ *)
(** *** Proof tools *)
(* ------------------------------------------------------------------ *)

(** A statement about every character is checked on the 256 of them. *)
Ltac each_char c := destruct c as [[] [] [] [] [] [] [] []].

#[global] Arguments char_eqb : simpl never.
#[global] Arguments char_matches : simpl never.
#[global] Arguments canonicalize : simpl never.
#[global] Arguments char_set_found : simpl never.
#[global] Arguments in_range : simpl never.
#[global] Arguments is_digit : simpl never.
#[global] Arguments is_letter : simpl never.
#[global] Arguments is_word_char : simpl never.
#[global] Arguments is_js_space : simpl never.
#[global] Arguments is_line_terminator : simpl never.
#[global] Arguments is_syntax_char : simpl never.

(** One step of the matcher at a time, leaving tests on characters
    alone. *)
Ltac matcher_steps :=
  cbn [m repeat_matcher clear_caps groups_of foldr app pred pred_max Nat.eqb
       negb andb orb xorb length Nat.add accept].

Ltac no_dollar := unfold no_dollar; simpl; intros H; repeat destruct H as [H|H]; discriminate || contradiction.

(** Comparisons of the mode parameters with the constants of the code. *)
Ltac eval_str_eqb :=
  repeat match goal with
    | |- context [str_eqb ?a ?b] =>
        let v := eval vm_compute in (str_eqb a b) in
        match v with
        | true => change (str_eqb a b) with true
        | false => change (str_eqb a b) with false
        end
    end;
  cbn [negb orb andb]; cbv iota.

(* ------------------------------------------------------------------ *)
(** *** Occurrences of a word, decided *)
(* ------------------------------------------------------------------ *)

(** No position of [l] starts the word [w], compared without regard to
    case: [no_occurrence] as a test. *)
Fixpoint free_of (w l : str) : bool :=
  negb (starts_with true w l)
  && match l with
     | [] => true
     | _ :: t => free_of w t
     end.

(** [w] and [l] differ at a position that both have: [w] does not start
    [l], whatever follows [l]. *)
Fixpoint mismatch_within (w l : str) : bool :=
  match w, l with
  | c :: w', x :: l' => negb (char_matches true c x) || mismatch_within w' l'
  | _, _ => false
  end.

(** A piece of text no position of which can start [w], whatever
    follows the piece. *)
Fixpoint piece_safe (w piece : str) : bool :=
  match piece with
  | [] => true
  | _ :: t => mismatch_within w piece && piece_safe w t
  end.

(** No character of [w] is a [<], compared as the pattern compares. *)
Definition no_lt (w : str) : bool :=
  forallb (fun c => negb (char_matches true c "<")) w.

(** The name of the checklist element, with its opening bracket. *)
Definition todo_prefix : str := "<en-todo".

(* ------------------------------------------------------------------ *)
(** *** Continuations *)
(* ------------------------------------------------------------------ *)

(** A continuation that fails at every position of [rest] from the
    current one on. *)
Definition fails_after (rest : str) (k : Cont) : Prop :=
  forall p s c, s `suffix_of` rest -> k p s c = None.

(** A matcher that fails when its continuation fails from the current
    position on. *)
Definition needs_continuation
    (body : str -> str -> gmap nat str -> Cont -> option MatchResult) : Prop :=
  forall prev rest caps k, fails_after rest k -> body prev rest caps k = None.

(* ------------------------------------------------------------------ *)
(** *** Further sample inputs *)
(* ------------------------------------------------------------------ *)

(** A note as the store returns it after this node has created it from
    the plain text [a < b]. *)
Definition sample_full_note : FullNote :=
  {| fn_title := Some "Groceries";
     fn_content := Some (plainTextToEnml "a < b");
     fn_contentHash := Some (md5 (bytes_of_str (plainTextToEnml "a < b"))) |}.

(** An append of plain text. *)
Definition sample_append (text : str) : UpdateParams :=
  sample_update "append" "ignore" "" "" text "" "" false.

(** A note whose root element carries an attribute and is followed by a
    comment. *)
Definition sample_styled_note : ExistingNote :=
  {| note_title := Some "Groceries";
     note_content := Some (xmlProlog ++ enmlDocType ++ "<en-note" ++ " lang=en" ++ ">"
                             ++ "milk" ++ "</en-note>" ++ "<!-- end -->") |}.

(** A note whose content was cut off before the closing root tag. *)
Definition sample_truncated_note : ExistingNote :=
  {| note_title := Some "Groceries";
     note_content := Some (xmlProlog ++ enmlDocType ++ "<en-note>milk") |}.

(** A search for a text that [sample_note] does not hold. *)
Definition sample_search_absent : UpdateParams :=
  sample_update "searchReplace" "ignore" "" "EUR" "USD" "" "" false.

(** An update that adds the tags [b] and [c], and one that removes
    them. *)
Definition sample_add : UpdateParams :=
  sample_update "keep" "add" "b, c" "" "" "" "" false.

Definition sample_remove : UpdateParams :=
  sample_update "keep" "remove" "b, c" "" "" "" "" false.

(** The sample host with other tag names on the note. *)
Definition host_with_tags (tags : list str) : Host :=
  {| sanitizeHtml := sanitizeHtml sample_host;
     binary := binary sample_host;
     getNote := getNote sample_host;
     getNoteTagNames := fun _ => inr tags;
     updateNote := updateNote sample_host;
     createNote := createNote sample_host |}.

(** The property names that [buildResourcesFromBinary] finds, up to the
    first one that the input item does not have. *)
Definition first_missing (binary : gmap str BinaryData) (names present : list str)
    (name : str) : Prop :=
  exists rest,
    names = present ++ name :: rest /\
    Forall (fun n => is_Some (binary !! n)) present /\
    binary !! name = None.

(** The media tags of the attachments, none when there are no
    attachments. *)
Definition mediaTagsOf (attachmentResult : option ResourceBuildResult) : list str :=
  match attachmentResult with
  | Some res => mediaTags res
  | None => []
  end.

(** An update with attachments switched on and no property name. *)
Definition sample_no_names : UpdateParams :=
  {| noteGuid := "note-1";
     contentEditingMode := "keep";
     contentMode := "plainText";
     plainContent := "";
     htmlContent := "";
     tagsRaw := "";
     tagsMode := "ignore";
     titleUpdate := "";
     notebookGuidUpdate := "";
     attributesJson := "";
     noteAttributesUi := ∅;
     searchValue := "";
     useRegex := false;
     caseSensitive := false;
     addAttachments := true;
     binaryPropertyNamesRaw := " , " |}.

(** The note that [sample_no_names] sends to [sample_host]. *)
Definition sample_no_names_sent : NoteData :=
  {| nd_guid := Some "note-1";
     nd_title := Some "Groceries";
     nd_content := wrapEnmlBody "price: $5.00";
     nd_tagNames := None;
     nd_resources := Some [];
     nd_notebookGuid := None;
     nd_attributes := None |}.

(** A creation with an attachment and tags. *)
Definition sample_create_attached : CreateParams :=
  {| c_title := "New note";
     c_contentMode := "plainText";
     c_plainContent := "hello";
     c_htmlContent := "";
     c_notebookGuid := "";
     c_tagsRaw := " , ";
     c_attributesJson := "";
     c_noteAttributesUi := ∅;
     c_addAttachments := true;
     c_binaryPropertyNamesRaw := "data" |}.

(* ------------------------------------------------------------------ *)
(** *** Hexadecimal text *)
(* ------------------------------------------------------------------ *)

(** A digit of lower-case hexadecimal. *)
Definition lower_hex_digit (c : ascii) : bool := is_digit c || in_range 97 102 c.

(** The byte that two hexadecimal digits stand for. *)
Definition byte_of_hex (hi lo : ascii) : option byte :=
  match hex_value hi, hex_value lo with
  | Some h, Some l => Byte.of_N (16 * h + l)
  | _, _ => None
  end.

(** The bytes that a hexadecimal text stands for, as far as it can be
    read. *)
Fixpoint from_hex (s : str) : list byte :=
  match s with
  | hi :: lo :: t =>
      match byte_of_hex hi lo with
      | Some b => b :: from_hex t
      | None => []
      end
  | _ => []
  end.

(** A JSON value that is not an object, an array or a string. *)
Definition json_scalar (v : json) : bool :=
  match v with
  | JNull | JBool _ | JNumber _ => true
  | _ => false
  end.

(* ------------------------------------------------------------------ *)
(** *** Checklist items *)
(* ------------------------------------------------------------------ *)

(** The three forms of a checklist item that [enmlToHtml] looks for. *)
Inductive TodoState := TodoPlain | TodoChecked | TodoUnchecked.

Definition todo_attribute (state : TodoState) : str :=
  match state with
  | TodoPlain => []
  | TodoChecked => " checked=" ++ dquote ++ "true" ++ dquote
  | TodoUnchecked => " checked=" ++ dquote ++ "false" ++ dquote
  end.

(** A checklist item: the name, the attribute, white space, and the end
    of the tag with or without a slash. *)
Definition todo_item (state : TodoState) (space slash : str) : str :=
  todo_prefix ++ todo_attribute state ++ space ++ slash ++ ">".

(** The check box that takes its place. *)
Definition todo_html (state : TodoState) : str :=
  match state with
  | TodoChecked => checkbox_checked
  | _ => checkbox_unchecked
  end.

(** The end of the three patterns: white space, an optional slash and
    the closing bracket. *)
Definition todo_tail : regex :=
  RSeq (RQuant (RClass false [ClassEsc EscSpace false]) 0 None true)
    (RSeq (RQuant (RChar "/") 0 (Some 1) true) (RSeq (RChar ">") REmpty)).

(** The pattern for the items of one form. *)
Definition todo_pattern (state : TodoState) : RegExp :=
  match state with
  | TodoPlain => re_todo
  | TodoChecked => re_todo_checked
  | TodoUnchecked => re_todo_unchecked
  end.

(** A checklist item after its opening bracket. *)
Definition todo_item_tail (state : TodoState) (space slash : str) : str :=
  "en-todo" ++ todo_attribute state ++ space ++ slash ++ ">".

(** An append of HTML. *)
Definition sample_append_html (html : str) : UpdateParams :=
  {| noteGuid := "note-1";
     contentEditingMode := "append";
     contentMode := "html";
     plainContent := "";
     htmlContent := html;
     tagsRaw := "";
     tagsMode := "ignore";
     titleUpdate := "";
     notebookGuidUpdate := "";
     attributesJson := "";
     noteAttributesUi := ∅;
     searchValue := "";
     useRegex := false;
     caseSensitive := false;
     addAttachments := false;
     binaryPropertyNamesRaw := "data" |}.

(** A keep update with an attachment. *)
Definition sample_keep_attached : UpdateParams :=
  sample_update "keep" "ignore" "" "" "" "" "" true.

(** The sample host with a note whose content was cut off. *)
Definition host_with_truncated_note : Host :=
  {| sanitizeHtml := sanitizeHtml sample_host;
     binary := binary sample_host;
     getNote := fun _ _ => inr sample_truncated_note;
     getNoteTagNames := getNoteTagNames sample_host;
     updateNote := updateNote sample_host;
     createNote := createNote sample_host |}.

(* ================================================================== *)
(** * Properties *)
(* ================================================================== *)

(** ** Characters *)

Lemma char_eqb_eq (a b : ascii) : (a == b) = true <-> a = b.
Proof. apply Ascii.eqb_eq. Qed.

Lemma char_eqb_refl (a : ascii) : (a == a) = true.
Proof. apply Ascii.eqb_refl. Qed.

Lemma char_eqb_neq (a b : ascii) : (a == b) = false <-> a <> b.
Proof. apply Ascii.eqb_neq. Qed.

Lemma str_eqb_eq (a b : str) : str_eqb a b = true <-> a = b.
Proof.
  revert b. induction a as [|x a IH]; intros [|y b]; simpl; try (split; congruence).
  rewrite andb_true_iff, char_eqb_eq, IH. split.
  - intros [-> ->]. reflexivity.
  - intros [= -> ->]. auto.
Qed.

Lemma str_eqb_refl (a : str) : str_eqb a a = true.
Proof. apply str_eqb_eq. reflexivity. Qed.

Lemma str_eqb_neq (a b : str) : str_eqb a b = false <-> a <> b.
Proof.
  destruct (str_eqb a b) eqn:E.
  - apply str_eqb_eq in E. split; [discriminate | contradiction].
  - split; [| reflexivity]. intros _ H. apply str_eqb_eq in H. congruence.
Qed.

Lemma nonempty_true (s : str) : nonempty s = true <-> s <> [].
Proof. destruct s; simpl; split; congruence. Qed.

Lemma nonempty_false (s : str) : nonempty s = false <-> s = [].
Proof. destruct s; simpl; split; congruence. Qed.

Lemma length_neq_succ {A} (l : list A) : (length l =? S (length l)) = false.
Proof. apply Nat.eqb_neq. lia. Qed.

(** ** The patterns of the source *)

(** Every regular expression literal of the source compiles, to the
    pattern that the definitions above record for it. *)
Lemma source_patterns_compile :
  compile "&" = Pattern (re_pattern re_amp) 0 /\
  compile "<" = Pattern (re_pattern re_lt) 0 /\
  compile ">" = Pattern (re_pattern re_gt) 0 /\
  compile dquote = Pattern (re_pattern re_quot) 0 /\
  compile "\r?\n" = Pattern (re_pattern re_line_break) 0 /\
  compile "<en-note[^>]*>([\s\S]*?)<\/en-note>" = Pattern (re_pattern re_en_note) 1 /\
  compile "[.*+?^${}()|[\]\\]" = Pattern (re_pattern re_metachars) 0.
Proof. repeat split; vm_compute; reflexivity. Qed.

(** ** The matcher on literal text *)


Lemma starts_with_app ic s a b :
  length s <= length a -> starts_with ic s (a ++ b) = starts_with ic s a.
Proof.
  revert a. induction s as [|c s IH]; intros [|x a] H; simpl in *; try reflexivity; try lia.
  rewrite IH by lia. reflexivity.
Qed.

Lemma m_lit_chain ic s r prev rest caps k :
  m ic (lit_chain s r) prev rest caps k =
  if starts_with ic s rest
  then m ic r (rev (take (length s) rest) ++ prev) (drop (length s) rest) caps k
  else None.
Proof.
  revert prev rest. induction s as [|c s IH]; intros prev rest; simpl.
  - reflexivity.
  - destruct rest as [|ch t]; [reflexivity|].
    destruct (char_matches ic c ch); simpl; [|reflexivity].
    rewrite IH. rewrite <- app_assoc. reflexivity.
Qed.

Lemma match_at_lit_chain ic s prev rest :
  match_at ic (lit_chain s REmpty) prev rest =
  if starts_with ic s rest
  then Some {| mr_prev := rev (take (length s) rest) ++ prev;
               mr_rest := drop (length s) rest; mr_caps := ∅ |}
  else None.
Proof. unfold match_at. rewrite m_lit_chain. reflexivity. Qed.

(** ** Substitution templates *)

Lemma get_substitution_plain matched before after caps n template :
  no_dollar template ->
  get_substitution matched before after caps n template = template.
Proof.
  unfold no_dollar. induction template as [|c t IH]; simpl; intros H; [reflexivity|].
  destruct (c == "$") eqn:E.
  - apply char_eqb_eq in E. subst c. exfalso. apply H. left. reflexivity.
  - rewrite IH; [reflexivity|]. intros Hin. apply H. right. exact Hin.
Qed.

(** ** Global replacement by a pattern that matches one character *)

Lemma length_cons_sub {A} (x : A) (l : list A) : length (x :: l) - length l = 1.
Proof. simpl. lia. Qed.

Lemma replace_one_char ic r p n template sub prev rest :
  one_char ic r p ->
  (forall ch before after,
      get_substitution [ch] before after ∅ n template = sub ch) ->
  replace_from ic r n template 0 prev rest =
  flat_map (fun ch => if p ch then sub ch else [ch]) rest.
Proof.
  intros Hr Hsub. revert prev. induction rest as [|ch t IH]; intros prev; simpl.
  - rewrite Hr. reflexivity.
  - rewrite Hr. destruct (p ch); simpl mr_rest; simpl mr_caps.
    + replace (S (length t) - length t) with 1 by lia.
      simpl take. simpl drop. rewrite Hsub, IH. reflexivity.
    + rewrite IH. reflexivity.
Qed.

Lemma one_char_literal c :
  one_char false (RSeq (RChar c) REmpty) (fun ch => c == ch).
Proof. intros prev [|ch t]; reflexivity. Qed.

Lemma flat_map_flat_map {A B C} (f : A -> list B) (g : B -> list C) (l : list A) :
  flat_map g (flat_map f l) = flat_map (fun x => flat_map g (f x)) l.
Proof.
  induction l as [|x l IH]; simpl; [reflexivity|].
  rewrite flat_map_app, IH. reflexivity.
Qed.

(** ** [escapeXml] *)

Lemma replace_char_plain c template s :
  no_dollar template ->
  regex_replace_all false (RSeq (RChar c) REmpty) 0 s template =
  flat_map (fun ch => if c == ch then template else [ch]) s.
Proof.
  intros H. unfold regex_replace_all.
  apply (replace_one_char false _ (fun ch => c == ch) 0 template (fun _ => template)).
  - apply one_char_literal.
  - intros. apply get_substitution_plain. exact H.
Qed.

Lemma escapeXml_chars (value : str) : escapeXml value = flat_map escape_char value.
Proof.
  unfold escapeXml, String_replace, re_quot, re_gt, re_lt, re_amp; simpl.
  rewrite !replace_char_plain by no_dollar.
  rewrite !flat_map_flat_map. apply flat_map_ext. intros c.
  each_char c; reflexivity.
Qed.

(** ** Line breaks *)

Lemma match_line_break prev rest :
  match_at false (re_pattern re_line_break) prev rest =
  match rest with
  | [] => None
  | c :: t =>
      if c == CR then
        match t with
        | d :: t' =>
            if d == LF
            then Some {| mr_prev := d :: c :: prev; mr_rest := t'; mr_caps := ∅ |}
            else None
        | [] => None
        end
      else if c == LF
      then Some {| mr_prev := c :: prev; mr_rest := t; mr_caps := ∅ |}
      else None
  end.
Proof.
  destruct rest as [|c t]; [reflexivity|].
  unfold match_at, re_line_break, re_pattern. matcher_steps.
  unfold CR, LF, char_matches, canonicalize, char_eqb.
  change (chr 13) with "013"%char. change (chr 10) with "010"%char.
  rewrite (Ascii.eqb_sym "013" c), (Ascii.eqb_sym "010" c).
  destruct (Ascii.eqb c "013") eqn:Ec.
  - apply Ascii.eqb_eq in Ec. subst c.
    destruct t as [|d t']; [reflexivity|]. matcher_steps.
    unfold char_matches, canonicalize, char_eqb.
    rewrite (Ascii.eqb_sym "010" d), length_neq_succ.
    destruct (Ascii.eqb d "010"); reflexivity.
  - destruct (Ascii.eqb c "010"); reflexivity.
Qed.

Lemma replace_line_breaks_le (n : nat) :
  forall rest prev, length rest <= n ->
    replace_from false (re_pattern re_line_break) 0 "<br />" 0 prev rest =
    break_lines rest.
Proof.
  induction n as [|n IH]; intros rest prev Hlen.
  - destruct rest; [|simpl in Hlen; lia]. reflexivity.
  - destruct rest as [|c t]; [reflexivity|].
    cbn [replace_from break_lines]. rewrite match_line_break.
    simpl in Hlen.
    destruct (c == CR).
    + destruct t as [|d t'].
      * reflexivity.
      * destruct (d == LF).
        -- cbn [mr_rest mr_caps length].
           replace (S (S (length t')) - length t') with 2 by lia.
           cbn [replace_from]. rewrite IH by (simpl in Hlen; lia). reflexivity.
        -- rewrite IH by lia. reflexivity.
    + destruct (c == LF).
      * cbn [mr_rest mr_caps length].
        replace (S (length t) - length t) with 1 by lia.
        rewrite IH by lia. reflexivity.
      * rewrite IH by lia. reflexivity.
Qed.

Lemma replace_line_breaks (s : str) :
  String_replace s re_line_break "<br />" = break_lines s.
Proof. apply (replace_line_breaks_le (length s)). lia. Qed.

(** ** [plainTextToEnml] in one pass *)

Lemma break_lines_escape_char c rest :
  (c == CR) = false -> (c == LF) = false ->
  break_lines (escape_char c ++ rest) = escape_char c ++ break_lines rest.
Proof. each_char c; intros H1 H2; try discriminate; reflexivity. Qed.

Lemma break_lines_escaped_le (n : nat) :
  forall s, length s <= n -> break_lines (flat_map escape_char s) = encode_text s.
Proof.
  induction n as [|n IH]; intros s Hlen.
  - destruct s; [reflexivity | simpl in Hlen; lia].
  - destruct s as [|c t]; [reflexivity|]. simpl in Hlen.
    cbn [flat_map encode_text].
    destruct (c == CR) eqn:Ec.
    + apply char_eqb_eq in Ec. subst c.
      destruct t as [|d t']; [reflexivity|].
      destruct (d == LF) eqn:Ed.
      * apply char_eqb_eq in Ed. subst d.
        cbn [flat_map]. change (escape_char CR) with [CR]. change (escape_char LF) with [LF].
        cbn [app break_lines]. change (CR == CR) with true. change (LF == LF) with true.
        cbn iota. rewrite IH by (simpl in Hlen; lia). reflexivity.
      * change (escape_char CR) with [CR]. cbn [app].
        change (break_lines (CR :: flat_map escape_char (d :: t')))
          with (if CR == CR then
                  match flat_map escape_char (d :: t') with
                  | d0 :: t0 => if d0 == LF then "<br />" ++ break_lines t0
                                else CR :: break_lines (flat_map escape_char (d :: t'))
                  | [] => [CR]
                  end
                else CR :: break_lines (flat_map escape_char (d :: t'))).
        change (CR == CR) with true. cbn iota.
        rewrite IH by lia.
        assert (Hhd : exists x xs, flat_map escape_char (d :: t') = x :: xs /\ (x == LF) = false).
        { cbn [flat_map]. clear -Ed. each_char d; try discriminate; eexists _, _; split; reflexivity. }
        destruct Hhd as (x & xs & Hx & Hx'). rewrite Hx, Hx'. reflexivity.
    + destruct (c == LF) eqn:El.
      * apply char_eqb_eq in El. subst c. change (escape_char LF) with [LF].
        cbn [app break_lines]. change (LF == CR) with false. change (LF == LF) with true.
        cbn iota. rewrite IH by lia. reflexivity.
      * rewrite break_lines_escape_char by assumption. rewrite IH by lia. reflexivity.
Qed.

Lemma plainTextToEnml_encode (text : str) :
  plainTextToEnml text = wrapEnmlBody ("<div>" ++ encode_text text ++ "</div>").
Proof.
  unfold plainTextToEnml. rewrite escapeXml_chars, replace_line_breaks.
  rewrite (break_lines_escaped_le (length text)) by lia. reflexivity.
Qed.

Lemma escape_char_cases c :
  (c == LF) = false ->
  (In (escape_char c) ["&amp;"; "&lt;"; "&gt;"; "&quot;"]) \/
  (escape_char c = [c] /\ ~ In c ["<"; ">"; "&"; chr 34; LF]%char).
Proof.
  intros H. each_char c; try discriminate H;
    first [ left; simpl; tauto
          | right; split; [reflexivity|];
            simpl; intros Hin; repeat destruct Hin as [Hin|Hin]; discriminate || contradiction ].
Qed.

Lemma encode_text_escaped_le (n : nat) :
  forall s, length s <= n -> EscapedText (encode_text s).
Proof.
  induction n as [|n IH]; intros s Hlen.
  - destruct s; [constructor | simpl in Hlen; lia].
  - destruct s as [|c t]; [constructor|]. simpl in Hlen. cbn [encode_text].
    destruct (c == CR) eqn:Ec.
    + apply char_eqb_eq in Ec. subst c.
      assert (Hcr : ~ In CR ["<"; ">"; "&"; chr 34; LF]%char).
      { simpl. intros Hin. repeat destruct Hin as [Hin|Hin]; discriminate || contradiction. }
      destruct t as [|d t'].
      * apply escaped_plain; [exact Hcr | constructor].
      * destruct (d == LF).
        -- apply escaped_break. apply IH. simpl in Hlen. lia.
        -- apply escaped_plain; [exact Hcr |]. apply IH. lia.
    + destruct (c == LF) eqn:El.
      * apply escaped_break. apply IH. lia.
      * destruct (escape_char_cases c El) as [Hent | [Heq Hplain]].
        -- apply escaped_entity; [exact Hent |]. apply IH. lia.
        -- rewrite Heq. apply escaped_plain; [exact Hplain |]. apply IH. lia.
Qed.

(** ** [extractEnmlBody] after [wrapEnmlBody] *)

Lemma re_en_note_pieces :
  re_pattern re_en_note = lit_chain open_prefix en_note_tail.
Proof. reflexivity. Qed.

Lemma re_close_tag_pieces : re_pattern re_close_tag = lit_chain close_tag REmpty.
Proof. reflexivity. Qed.

Lemma char_matches_refl ic c : char_matches ic c c = true.
Proof. unfold char_matches. apply char_eqb_refl. Qed.

Lemma starts_with_self ic s t : starts_with ic s (s ++ t) = true.
Proof.
  induction s as [|c s IH]; simpl; [reflexivity|].
  rewrite char_matches_refl, IH. reflexivity.
Qed.

Lemma not_gt_found ch :
  xorb true (char_set_found true [ClassRange ">" ">"] ch) = negb (ch == ">").
Proof. each_char ch; reflexivity. Qed.

Lemma any_found ch :
  xorb false (char_set_found true [ClassEsc EscSpace false; ClassEsc EscSpace true] ch) = true.
Proof. each_char ch; reflexivity. Qed.

(** The equations of the matcher, for rewriting one step at a time. *)
Lemma m_empty ic prev rest caps k : m ic REmpty prev rest caps k = k prev rest caps.
Proof. reflexivity. Qed.

Lemma m_seq ic r1 r2 prev rest caps k :
  m ic (RSeq r1 r2) prev rest caps k =
  m ic r1 prev rest caps (fun p s c => m ic r2 p s c k).
Proof. reflexivity. Qed.

Lemma m_char ic c ch t prev caps k :
  m ic (RChar c) prev (ch :: t) caps k =
  if char_matches ic c ch then k (ch :: prev) t caps else None.
Proof. reflexivity. Qed.

Lemma m_group ic n r prev rest caps k :
  m ic (RGroup n r) prev rest caps k =
  m ic r prev rest caps
    (fun p s c => k p s (<[n := take (length rest - length s) rest]> c)).
Proof. reflexivity. Qed.

(** A greedy star over a class stops in front of a character outside
    the class. *)
Lemma greedy_class_stop ic invert items ch t prev caps k :
  xorb invert (char_set_found ic items ch) = false ->
  m ic (RQuant (RClass invert items) 0 None true) prev (ch :: t) caps k =
  k prev (ch :: t) caps.
Proof. intros H. matcher_steps. rewrite H. reflexivity. Qed.

(** A lazy star over a class that admits every character stops at the
    first position where the rest of the pattern matches. *)
Lemma lazy_any_first ic invert items u :
  (forall ch, xorb invert (char_set_found ic items ch) = true) ->
  forall prev rest caps (k : Cont) z,
    (forall u1 u2, u = u1 ++ u2 -> u2 <> [] ->
       k (rev u1 ++ prev) (u2 ++ rest) caps = None) ->
    k (rev u ++ prev) rest caps = Some z ->
    m ic (RQuant (RClass invert items) 0 None false) prev (u ++ rest) caps k = Some z.
Proof.
  intros Hany. induction u as [|c u IH]; intros prev rest caps k z Hfail Hend.
  - simpl in *. matcher_steps. rewrite Hend. reflexivity.
  - cbn [app]. matcher_steps.
    pose proof (Hfail [] (c :: u) eq_refl ltac:(discriminate)) as H0.
    cbn [rev app] in H0. rewrite H0.
    rewrite Hany. rewrite length_neq_succ.
    apply (IH (c :: prev) rest caps k z).
    + intros u1 u2 Hu Hne. specialize (Hfail (c :: u1) u2).
      cbn [rev app] in Hfail. rewrite <- app_assoc in Hfail. apply Hfail; [|exact Hne].
      rewrite Hu. reflexivity.
    + cbn [rev] in Hend. rewrite <- app_assoc in Hend. exact Hend.
Qed.

(** An occurrence of the closing tag that starts before a closing tag
    lies before it altogether: the tag ends in the only [>] it has. *)
Lemma close_tag_no_overlap u tail :
  starts_with true close_tag (u ++ close_tag ++ tail) = true ->
  u = [] \/ starts_with true close_tag u = true.
Proof.
  intros H.
  destruct u as [|c1 [|c2 [|c3 [|c4 [|c5 [|c6 [|c7 [|c8 [|c9 [|c10 u]]]]]]]]]];
    [left; reflexivity | .. | right; exact H];
    exfalso; cbn [app close_tag starts_with] in H;
    repeat match type of H with
      | (_ && _) = true => apply andb_true_iff in H; destruct H as [? H]
      end;
    repeat match goal with
      | Hx : char_matches true _ _ = true |- _ =>
          first [ discriminate Hx | clear Hx ]
      end.
Qed.

Lemma exec_from_literal_none ic s prev l :
  exec_from ic (lit_chain s REmpty) prev l = None -> no_occurrence ic s l.
Proof.
  revert prev. induction l as [|c l IH]; intros prev H u1 u2 Hu.
  - symmetry in Hu. apply app_eq_nil in Hu as [-> ->].
    cbn [exec_from] in H. rewrite match_at_lit_chain in H.
    destruct (starts_with ic s []); [discriminate | reflexivity].
  - cbn [exec_from] in H. rewrite match_at_lit_chain in H.
    destruct (starts_with ic s (c :: l)) eqn:E; [discriminate|].
    destruct u1 as [|x u1]; simpl in Hu.
    + subst u2. exact E.
    + injection Hu as -> Hu. apply (IH _ H u1 u2 Hu).
Qed.

Lemma no_closing_tag (body : str) :
  regex_test true (re_pattern re_close_tag) body = false ->
  no_occurrence true close_tag body.
Proof.
  unfold regex_test, regex_exec. rewrite re_close_tag_pieces.
  destruct (exec_from true (lit_chain close_tag REmpty) [] body) eqn:E; [discriminate|].
  intros _. eapply exec_from_literal_none. exact E.
Qed.

(** The match of the whole pattern at an opening tag without
    attributes. *)
Lemma match_en_note_here prev body tail :
  no_occurrence true close_tag body ->
  match_at true (re_pattern re_en_note) prev
    (open_prefix ++ ">" ++ body ++ close_tag ++ tail) =
  Some {| mr_prev := rev close_tag ++ rev body ++ ">"%char :: rev open_prefix ++ prev;
          mr_rest := tail;
          mr_caps := {[ 1 := body ]} |}.
Proof.
  intros Hno. unfold match_at. rewrite re_en_note_pieces, m_lit_chain.
  rewrite starts_with_self, take_app_length, drop_app_length.
  unfold en_note_tail, class_not_gt, class_any. cbn [app].
  rewrite m_seq, greedy_class_stop by (rewrite not_gt_found; reflexivity).
  rewrite m_seq, m_char, char_matches_refl, m_seq, m_group, m_seq.
  apply lazy_any_first.
  - apply any_found.
  - intros u1 u2 Hu Hne. rewrite m_empty, m_lit_chain.
    destruct (starts_with true close_tag (u2 ++ close_tag ++ tail)) eqn:E; [|reflexivity].
    apply close_tag_no_overlap in E as [E|E]; [contradiction|].
    rewrite (Hno u1 u2 Hu) in E. discriminate.
  - rewrite m_empty, m_lit_chain.
    rewrite starts_with_self, take_app_length, drop_app_length.
    rewrite m_empty. unfold accept. f_equal. f_equal.
    rewrite insert_empty. f_equal. rewrite !length_app.
    replace (length body + (length close_tag + length tail)
             - (length close_tag + length tail)) with (length body) by lia.
    apply take_app_length.
Qed.

Lemma exec_from_skip l : 
  cannot_start l = true ->
  forall prev rest,
    exec_from true (re_pattern re_en_note) prev (l ++ rest) =
    exec_from true (re_pattern re_en_note) (rev l ++ prev) rest.
Proof.
  induction l as [|c t IH]; intros Hl prev rest; [reflexivity|].
  cbn [cannot_start] in Hl. apply andb_true_iff in Hl as [Hc Ht].
  cbn [app rev]. rewrite <- app_assoc. cbn [app].
  rewrite <- (IH Ht). 
  assert (Hnone : match_at true (re_pattern re_en_note) prev (c :: t ++ rest) = None).
  { unfold match_at. rewrite re_en_note_pieces, m_lit_chain.
    cbn [open_prefix starts_with].
    destruct (char_matches true "<" c); [|reflexivity].
    destruct t as [|d t']; [discriminate Hc|].
    cbn [app]. simpl in Hc. destruct (char_matches true "e" d); [discriminate Hc | reflexivity]. }
  destruct rest as [|r rest']; destruct t as [|d t'];
    cbn [exec_from app] in *; rewrite Hnone; reflexivity.
Qed.

Lemma prolog_cannot_start : cannot_start (xmlProlog ++ enmlDocType) = true.
Proof. vm_compute. reflexivity. Qed.

Lemma exec_from_here ic r prev rest y :
  match_at ic r prev rest = Some y ->
  exec_from ic r prev rest =
  Some {| m_before := rev prev;
          m_text := take (length rest - length (mr_rest y)) rest;
          m_after := drop (length rest - length (mr_rest y)) rest;
          m_captures := mr_caps y |}.
Proof. intros H. destruct rest; cbn [exec_from]; rewrite H; reflexivity. Qed.

Lemma extract_wrap (body : str) :
  no_occurrence true close_tag body ->
  extractEnmlBody (wrapEnmlBody body) = body.
Proof.
  intros Hno. unfold extractEnmlBody, String_match, regex_exec, wrapEnmlBody.
  change (re_ignoreCase re_en_note) with true.
  rewrite app_assoc, (exec_from_skip _ prolog_cannot_start).
  change ("<en-note>" ++ body ++ "</en-note>")
    with (open_prefix ++ ">" ++ body ++ close_tag ++ []).
  rewrite (exec_from_here _ _ _ _ _ (match_en_note_here _ body [] Hno)).
  cbn [m_captures mr_caps]. unfold capture_text.
  rewrite lookup_singleton_eq. reflexivity.
Qed.

(** ** The body of encoded plain text *)

Lemma lt_matches c : char_matches true "<" c = (c == "<").
Proof. each_char c; reflexivity. Qed.

Lemma slash_matches c : char_matches true "/" c = (c == "/").
Proof. each_char c; reflexivity. Qed.

Lemma closing_free_app piece rest :
  piece_ok piece = true -> closing_free (piece ++ rest) = closing_free rest.
Proof.
  induction piece as [|c t IH]; intros Hok; [reflexivity|].
  cbn [piece_ok] in Hok. apply andb_true_iff in Hok as [Hc Ht].
  cbn [app closing_free]. rewrite (IH Ht).
  replace (starts_with true "</e" (c :: t ++ rest)) with false; [reflexivity|].
  symmetry. cbn [starts_with]. rewrite lt_matches.
  destruct (c == "<"); [|reflexivity]. cbn [negb orb andb] in *.
  destruct t as [|d t']; [discriminate Hc|]. cbn [app]. rewrite slash_matches.
  destruct (d == "/"); [|reflexivity]. cbn [negb orb andb] in *.
  destruct t' as [|e t'']; [discriminate Hc|]. cbn [app].
  destruct (char_matches true "e" e); [discriminate Hc | reflexivity].
Qed.

Lemma closing_free_no_occurrence l :
  closing_free l = true -> no_occurrence true close_tag l.
Proof.
  induction l as [|c l IH]; intros H u1 u2 Hu.
  - symmetry in Hu. apply app_eq_nil in Hu as [_ ->]. reflexivity.
  - cbn [closing_free] in H. apply andb_true_iff in H as [Hc Hl].
    destruct u1 as [|x u1]; cbn [app] in Hu.
    + subst u2. apply negb_true_iff in Hc.
      destruct (starts_with true close_tag (c :: l)) eqn:E; [|reflexivity].
      rewrite <- Hc. clear -E. unfold close_tag in E.
      destruct l as [|d [|e l']]; cbn [starts_with] in *;
        repeat (apply andb_true_iff in E as [? E]); try discriminate.
      rewrite H, H0, H1. reflexivity.
    + injection Hu as -> Hu. apply (IH Hl u1 u2 Hu).
Qed.

Lemma piece_ok_escape_char c : piece_ok (escape_char c) = true.
Proof. each_char c; reflexivity. Qed.

Lemma closing_free_encode_le (n : nat) :
  forall s rest, length s <= n ->
    closing_free (encode_text s ++ rest) = closing_free rest.
Proof.
  induction n as [|n IH]; intros s rest Hlen.
  - destruct s; [reflexivity | simpl in Hlen; lia].
  - destruct s as [|c t]; [reflexivity|]. simpl in Hlen. cbn [encode_text].
    destruct (c == CR) eqn:Ec.
    + apply char_eqb_eq in Ec. subst c.
      destruct t as [|d t']; [reflexivity|].
      destruct (d == LF).
      * rewrite <- app_assoc, closing_free_app by reflexivity.
        apply IH. simpl in Hlen. lia.
      * change (CR :: encode_text (d :: t')) with ([CR] ++ encode_text (d :: t')).
        rewrite <- app_assoc, closing_free_app by reflexivity. apply IH. lia.
    + destruct (c == LF).
      * rewrite <- app_assoc, closing_free_app by reflexivity. apply IH. lia.
      * rewrite <- app_assoc, closing_free_app by apply piece_ok_escape_char.
        apply IH. lia.
Qed.

(** The body of a plain-text document comes back whole. *)
Lemma extract_plainTextToEnml (text : str) :
  extractEnmlBody (plainTextToEnml text) = "<div>" ++ encode_text text ++ "</div>".
Proof.
  rewrite plainTextToEnml_encode. apply extract_wrap, closing_free_no_occurrence.
  rewrite closing_free_app by reflexivity.
  rewrite (closing_free_encode_le (length text)) by lia. reflexivity.
Qed.

(** ** Escaping a search value *)

Lemma metachars_class ch :
  xorb false (char_set_found false
                (match re_pattern re_metachars with
                 | RSeq (RClass _ items) _ => items
                 | _ => []
                 end) ch) = is_syntax_char ch.
Proof. each_char ch; reflexivity. Qed.

Lemma one_char_metachars : one_char false (re_pattern re_metachars) is_syntax_char.
Proof.
  intros prev [|ch t]; [reflexivity|].
  unfold match_at, re_metachars, re_pattern. rewrite m_seq.
  cbn [m]. rewrite <- metachars_class. cbn [re_metachars re_pattern].
  destruct (xorb false _); reflexivity.
Qed.

Lemma searchPattern_literal (searchValue : str) :
  searchPattern searchValue false = flat_map escape_meta searchValue.
Proof.
  unfold searchPattern, String_replace, regex_replace_all.
  apply (replace_one_char false _ is_syntax_char _ _ (fun ch => ["\"%char; ch])).
  - apply one_char_metachars.
  - reflexivity.
Qed.


(** ** Parsing an escaped search value *)

Lemma count_groups_escaped (s : str) :
  count_groups false (flat_map escape_meta s) = 0.
Proof.
  induction s as [|c s IH]; [reflexivity|].
  cbn [flat_map]. unfold escape_meta at 1.
  destruct (is_syntax_char c) eqn:E.
  - cbn [app count_groups]. change ("\" == "\") with true. cbn iota. exact IH.
  - cbn [app count_groups].
    replace (c == "\") with false by (revert E; each_char c; intros E; reflexivity || discriminate E).
    replace (c == "[") with false by (revert E; each_char c; intros E; reflexivity || discriminate E).
    replace (c == "(") with false by (revert E; each_char c; intros E; reflexivity || discriminate E).
    exact IH.
Qed.

Lemma escaped_no_quantifier (s : str) : no_quantifier_ahead (flat_map escape_meta s).
Proof.
  destruct s as [|c s]; [exact I|].
  cbn [flat_map]. unfold escape_meta at 1.
  destruct (is_syntax_char c) eqn:E; cbn [app no_quantifier_ahead]; auto.
Qed.

Lemma parse_quantifier_none a gi s :
  no_quantifier_ahead s -> parse_quantifier a gi s = POk (a, gi) s.
Proof.
  destruct s as [|c s]; [reflexivity|]. cbn [no_quantifier_ahead].
  intros [H | ->]; [|reflexivity].
  unfold parse_quantifier.
  revert H; each_char c; intros H; reflexivity || discriminate H.
Qed.

Lemma parse_term_plain fuel total gi c s :
  is_syntax_char c = false ->
  parse_term (S (S fuel)) total gi (c :: s) = parse_quantifier (RChar c) gi s.
Proof.
  intros H. revert H; each_char c; intros H; reflexivity || discriminate H.
Qed.

Lemma parse_term_escaped fuel total gi c s :
  is_syntax_char c = true ->
  parse_term (S (S fuel)) total gi ("\"%char :: c :: s) = parse_quantifier (RChar c) gi s.
Proof.
  intros H. revert H; each_char c; intros H; reflexivity || discriminate H.
Qed.

Lemma parse_alternative_step fuel total gi c s :
  parse_alternative (S fuel) total gi (c :: s) =
  if (c == "|") || (c == ")") then POk (REmpty, gi) (c :: s)
  else
    match parse_term fuel total gi (c :: s) with
    | POk (t, gi1) s1 =>
        match parse_alternative fuel total gi1 s1 with
        | POk (r, gi2) s2 => POk (RSeq t r, gi2) s2
        | PSyntaxError => PSyntaxError
        | PUnsupported => PUnsupported
        end
    | PSyntaxError => PSyntaxError
    | PUnsupported => PUnsupported
    end.
Proof. reflexivity. Qed.

Lemma parse_alternative_escaped (s : str) :
  forall fuel total gi, length s + 3 <= fuel ->
    parse_alternative fuel total gi (flat_map escape_meta s) =
    POk (lit_chain s REmpty, gi) [].
Proof.
  induction s as [|c s IH]; intros fuel total gi Hfuel.
  - destruct fuel; [lia|]. reflexivity.
  - cbn [length] in Hfuel.
    destruct fuel as [|[|[|fuel]]]; try lia.
    cbn [flat_map]. unfold escape_meta at 1.
    destruct (is_syntax_char c) eqn:E.
    + cbn [app]. rewrite parse_alternative_step.
      change (("\" == "|") || ("\" == ")")) with false. cbv iota.
      rewrite parse_term_escaped by exact E.
      rewrite parse_quantifier_none by apply escaped_no_quantifier.
      rewrite IH by lia. reflexivity.
    + cbn [app]. rewrite parse_alternative_step.
      replace ((c == "|") || (c == ")")) with false
        by (revert E; each_char c; intros E; reflexivity || discriminate E).
      rewrite parse_term_plain by exact E.
      rewrite parse_quantifier_none by apply escaped_no_quantifier.
      rewrite IH by lia. reflexivity.
Qed.

(** An escaped search value always compiles, to the pattern that matches
    its characters one by one. *)
Lemma compile_escaped (s : str) :
  compile (flat_map escape_meta s) = Pattern (lit_chain s REmpty) 0.
Proof.
  unfold compile. rewrite count_groups_escaped.
  assert (Hlen : length s <= length (flat_map escape_meta s)).
  { induction s as [|c s IH]; [reflexivity|].
    cbn [flat_map]. rewrite length_app. unfold escape_meta at 1.
    destruct (is_syntax_char c); simpl; lia. }
  replace (4 * length (flat_map escape_meta s) + 4)
    with (S (4 * length (flat_map escape_meta s) + 3)) by lia.
  cbn [parse_disjunction]. rewrite parse_alternative_escaped by lia.
  reflexivity.
Qed.

(** ** Replacing the occurrences of a text *)






(** ** The matcher never runs out of fuel *)

Section RepeatMatcher.
Variable body : str -> str -> gmap nat str -> Cont -> option MatchResult.
Variable parens : list nat.
Hypothesis body_local : local body.

Lemma agree_below_le n n' k k' : n' <= n -> agree_below n k k' -> agree_below n' k k'.
Proof. intros Hle H p s c Hs. apply H. lia. Qed.

Lemma repeat_matcher_local fuel :
  forall mn mx greedy prev rest caps k k',
    agree_below (length rest) k k' ->
    repeat_matcher body parens fuel mn mx greedy prev rest caps k =
    repeat_matcher body parens fuel mn mx greedy prev rest caps k'.
Proof using body_local.
  induction fuel as [|fuel IH]; intros mn mx greedy prev rest caps k k' Hk; [reflexivity|].
  cbn [repeat_matcher].
  assert (Hhere : k prev rest caps = k' prev rest caps) by (apply Hk; lia).
  assert (Hbody : forall mx',
    body prev rest (clear_caps parens caps)
      (fun prev' rest' caps' =>
         if (mn =? 0) && (length rest' =? length rest) then None
         else repeat_matcher body parens fuel (pred mn) mx' greedy prev' rest' caps' k) =
    body prev rest (clear_caps parens caps)
      (fun prev' rest' caps' =>
         if (mn =? 0) && (length rest' =? length rest) then None
         else repeat_matcher body parens fuel (pred mn) mx' greedy prev' rest' caps' k')).
  { intros mx'. apply body_local. intros p s c Hs.
    destruct ((mn =? 0) && (length s =? length rest)); [reflexivity|].
    apply IH. eapply agree_below_le; [exact Hs | exact Hk]. }
  destruct mx as [[|n]|]; [exact Hhere | |];
    rewrite Hbody, Hhere; reflexivity.
Qed.

(** Any fuel above [min] plus the length of the remaining input gives
    the same result. *)
Lemma repeat_matcher_fuel fuel1 :
  forall fuel2 mn mx greedy prev rest caps k,
    mn + length rest < fuel1 -> mn + length rest < fuel2 ->
    repeat_matcher body parens fuel1 mn mx greedy prev rest caps k =
    repeat_matcher body parens fuel2 mn mx greedy prev rest caps k.
Proof using body_local.
  induction fuel1 as [|fuel1 IH]; intros fuel2 mn mx greedy prev rest caps k H1 H2; [lia|].
  destruct fuel2 as [|fuel2]; [lia|]. cbn [repeat_matcher].
  assert (Hbody : forall mx',
    body prev rest (clear_caps parens caps)
      (fun prev' rest' caps' =>
         if (mn =? 0) && (length rest' =? length rest) then None
         else repeat_matcher body parens fuel1 (pred mn) mx' greedy prev' rest' caps' k) =
    body prev rest (clear_caps parens caps)
      (fun prev' rest' caps' =>
         if (mn =? 0) && (length rest' =? length rest) then None
         else repeat_matcher body parens fuel2 (pred mn) mx' greedy prev' rest' caps' k)).
  { intros mx'. apply body_local. intros p s c Hs.
    destruct (mn =? 0) eqn:Em; cbn [andb].
    - apply Nat.eqb_eq in Em. subst mn.
      destruct (length s =? length rest) eqn:El; [reflexivity|].
      apply Nat.eqb_neq in El. apply IH; cbn; lia.
    - apply Nat.eqb_neq in Em. apply IH; lia. }
  destruct mx as [[|n]|]; [reflexivity | |]; rewrite Hbody; reflexivity.
Qed.
End RepeatMatcher.

(** The matcher hands to its continuation only positions at or after the
    one it started from. *)
Lemma m_local ic r : local (m ic r).
Proof.
  induction r as [ | c | | invert items | r1 IH1 r2 IH2 | r1 IH1 r2 IH2 | n r1 IH1
                 | r1 IH1 mn mx greedy | | | negated | negated r1 IH1 | n ];
    intros prev rest caps k k' Hk; cbn [m].
  - apply Hk. lia.
  - destruct rest as [|ch t]; [reflexivity|].
    destruct (char_matches ic c ch); [|reflexivity]. apply Hk. cbn. lia.
  - destruct rest as [|ch t]; [reflexivity|].
    destruct (is_line_terminator ch); [reflexivity|]. apply Hk. cbn. lia.
  - destruct rest as [|ch t]; [reflexivity|].
    destruct (xorb invert (char_set_found ic items ch)); [|reflexivity]. apply Hk. cbn. lia.
  - apply IH1. intros p s c Hs. apply IH2.
    eapply agree_below_le; [exact Hs | exact Hk].
  - rewrite (IH1 prev rest caps k k' Hk), (IH2 prev rest caps k k' Hk). reflexivity.
  - apply IH1. intros p s c Hs. apply Hk. exact Hs.
  - apply repeat_matcher_local; [exact IH1 | exact Hk].
  - destruct prev; [apply Hk; lia | reflexivity].
  - destruct rest; [apply Hk; cbn; lia | reflexivity].
  - destruct (xorb negated _); [apply Hk; lia | reflexivity].
  - destruct (m ic r1 prev rest caps accept); destruct negated; try reflexivity; apply Hk; lia.
  - destruct (caps !! n) as [s|]; [|apply Hk; lia].
    destruct (starts_with ic s rest); [|reflexivity].
    apply Hk. rewrite length_drop. lia.
Qed.

(** The fuel that [m] gives to a quantifier is enough: more fuel does not
    change the result. *)
Theorem quantifier_fuel_enough ic r mn mx greedy prev rest caps k fuel :
  mn + length rest < fuel ->
  m ic (RQuant r mn mx greedy) prev rest caps k =
  repeat_matcher (m ic r) (groups_of r) fuel mn mx greedy prev rest caps k.
Proof.
  intros H. cbn [m]. apply repeat_matcher_fuel; [apply m_local | lia | exact H].
Qed.

(** ** The resource builder *)

Lemma buildResourcesLoop_built binary names :
  forall rs ts res,
    buildResourcesLoop binary names rs ts = Ok res ->
    exists built,
      Forall2 (fun name rt => buildResource binary name = Ok rt) names built /\
      resources res = rs ++ map fst built /\
      mediaTags res = ts ++ map snd built.
Proof.
  induction names as [|name names IH]; intros rs ts res H; cbn [buildResourcesLoop] in H.
  - injection H as <-. exists []. cbn. rewrite !app_nil_r. split; [constructor | auto].
  - destruct (buildResource binary name) as [[r tag]| |] eqn:E; try discriminate.
    apply IH in H as (built & Hall & Hr & Ht).
    exists ((r, tag) :: built). split; [constructor; assumption|].
    rewrite Hr, Ht, <- !app_assoc. auto.
Qed.

Lemma buildResourcesLoop_total binary names :
  Forall (fun name => is_Some (binary !! name)) names ->
  forall rs ts, exists res, buildResourcesLoop binary names rs ts = Ok res.
Proof.
  induction 1 as [|name names [input Hin] _ IH]; intros rs ts; cbn [buildResourcesLoop].
  - eexists. reflexivity.
  - unfold buildResource. rewrite Hin. apply IH.
Qed.

Lemma buildResourcesLoop_missing binary names :
  forall rs ts res, buildResourcesLoop binary names rs ts = Ok res ->
    Forall (fun name => is_Some (binary !! name)) names.
Proof.
  induction names as [|name names IH]; intros rs ts res H; [constructor|].
  cbn [buildResourcesLoop] in H. unfold buildResource in H.
  destruct (binary !! name) as [input|] eqn:E; [|discriminate].
  constructor; [exists input; exact E|]. eapply IH. exact H.
Qed.

Lemma buildResource_ok binary name r tag :
  buildResource binary name = Ok (r, tag) ->
  exists input,
    binary !! name = Some input /\
    body (data r) = bin_buffer input /\
    size (data r) = length (bin_buffer input) /\
    bodyHash (data r) = md5 (bin_buffer input) /\
    mime r = or_else (bin_mimeType input) "application/octet-stream" /\
    tag = mediaTag (mime r) (bodyHash (data r)).
Proof.
  unfold buildResource. destruct (binary !! name) as [input|]; [|discriminate].
  intros [= <- <-]. exists input. cbn. auto 10.
Qed.

(** ** The trace-and-error monad *)

Lemma bind_lift_ok {A B} (a : A) (f : A -> M B) : bind (lift (Ok a)) f = f a.
Proof. unfold bind, lift. destruct (f a). reflexivity. Qed.

Lemma bind_lift_throw {A B} e (f : A -> M B) : bind (lift (Throw e)) f = ([], Throw e).
Proof. reflexivity. Qed.

Lemma bind_lift_uncovered {A B} (f : A -> M B) : bind (lift Uncovered) f = ([], Uncovered).
Proof. reflexivity. Qed.

Lemma bind_call_ok {A B} c (a : A) (f : A -> M B) :
  bind (call c (inr a)) f = (c :: fst (f a), snd (f a)).
Proof. unfold bind, call. destruct (f a). reflexivity. Qed.

Lemma bind_call_fail {A B} c message (f : A -> M B) :
  bind (call c (inl message)) f = ([c], Throw (RemoteError message)).
Proof. reflexivity. Qed.

Lemma bind_fst_snd {A B} (x : M A) (f : A -> M B) :
  bind x f =
  match snd x with
  | Ok a => (fst x ++ fst (f a), snd (f a))
  | Throw e => (fst x, Throw e)
  | Uncovered => (fst x, Uncovered)
  end.
Proof. destruct x as [calls [a|e|]]; cbn; [destruct (f a)|..]; reflexivity. Qed.

(** ** The update operation, step by step *)

Lemma update_steps h p :
  update h p =
  match buildAttachments h (addAttachments p) (binaryPropertyNamesRaw p) with
  | Ok att =>
      match getNote h (noteGuid p) (fetchWithContent p) with
      | inr note =>
          match editContent h p note with
          | Ok content =>
              (GetNote (noteGuid p) (fetchWithContent p)
                 :: fst (finishUpdate h p att note content),
               snd (finishUpdate h p att note content))
          | Throw e => ([GetNote (noteGuid p) (fetchWithContent p)], Throw e)
          | Uncovered => ([GetNote (noteGuid p) (fetchWithContent p)], Uncovered)
          end
      | inl message =>
          ([GetNote (noteGuid p) (fetchWithContent p)], Throw (RemoteError message))
      end
  | Throw e => ([], Throw e)
  | Uncovered => ([], Uncovered)
  end.
Proof.
  unfold update. fold (fetchWithContent p).
  destruct (buildAttachments h (addAttachments p) (binaryPropertyNamesRaw p)) as [att|e|];
    [rewrite bind_lift_ok | reflexivity | reflexivity].
  destruct (getNote h (noteGuid p) (fetchWithContent p)) as [message|note];
    [reflexivity | rewrite bind_call_ok].
  destruct (editContent h p note) as [content|e|];
    [rewrite bind_lift_ok | reflexivity | reflexivity].
  reflexivity.
Qed.

Lemma reconcileTags_trace h p :
  fst (reconcileTags h p) =
  if str_eqb (tagsMode p) "add" || str_eqb (tagsMode p) "remove"
  then [GetNoteTagNames (noteGuid p)] else [].
Proof.
  unfold reconcileTags.
  destruct (str_eqb (tagsMode p) "add" || str_eqb (tagsMode p) "remove"); [|reflexivity].
  destruct (getNoteTagNames h (noteGuid p)); [reflexivity|].
  rewrite bind_call_ok. destruct (str_eqb (tagsMode p) "add"); reflexivity.
Qed.

Lemma reconcileTags_error h p e :
  snd (reconcileTags h p) = Throw e -> exists message, e = RemoteError message.
Proof.
  unfold reconcileTags.
  destruct (str_eqb (tagsMode p) "add" || str_eqb (tagsMode p) "remove"); [|discriminate].
  destruct (getNoteTagNames h (noteGuid p)) as [message|existing].
  - cbn. intros [= <-]. eauto.
  - rewrite bind_call_ok. destruct (str_eqb (tagsMode p) "add"); discriminate.
Qed.

Lemma mergeAttributes_error text ui e :
  mergeAttributes text ui = Throw e -> e = InvalidJsonAttributes.
Proof.
  unfold mergeAttributes. destruct (nonempty text); [|discriminate].
  destruct (JSON_parse text); cbn; congruence.
Qed.

(** What [finishUpdate] sends, and how it can fail. *)
Lemma finishUpdate_sent h p att note content nd :
  In (UpdateNote nd) (fst (finishUpdate h p att note content)) ->
  exists tags attrs,
    snd (reconcileTags h p) = Ok tags /\
    mergeAttributes (attributesJson p) (noteAttributesUi p) = Ok attrs /\
    nd = updateNoteData p note (appendMediaTags content att) tags
           (option_map resources att) attrs.
Proof.
  unfold finishUpdate. rewrite bind_fst_snd.
  pose proof (reconcileTags_trace h p) as Htr.
  destruct (snd (reconcileTags h p)) as [tags|e|] eqn:Et; cbn [fst].
  - destruct (mergeAttributes (attributesJson p) (noteAttributesUi p)) as [attrs|e|] eqn:Ea.
    + rewrite bind_lift_ok. rewrite in_app_iff. intros [Hin|Hin].
      * rewrite Htr in Hin. destruct (_ || _); cbn in Hin; intuition discriminate.
      * exists tags, attrs. split; [reflexivity|]. split; [reflexivity|].
        destruct (updateNote h _); cbn in Hin; destruct Hin as [Hin|[]]; congruence.
    + cbn. rewrite app_nil_r, Htr. destruct (_ || _); cbn; intuition discriminate.
    + cbn. rewrite app_nil_r, Htr. destruct (_ || _); cbn; intuition discriminate.
  - rewrite Htr. destruct (_ || _); cbn; intuition discriminate.
  - rewrite Htr. destruct (_ || _); cbn; intuition discriminate.
Qed.

Lemma finishUpdate_error h p att note content e :
  snd (finishUpdate h p att note content) = Throw e ->
  e = InvalidJsonAttributes \/ exists message, e = RemoteError message.
Proof.
  unfold finishUpdate. rewrite bind_fst_snd.
  destruct (snd (reconcileTags h p)) as [tags|e'|] eqn:Et; cbn [snd].
  - destruct (mergeAttributes (attributesJson p) (noteAttributesUi p)) as [attrs|e'|] eqn:Ea.
    + rewrite bind_lift_ok. destruct (updateNote h _); cbn; [|discriminate].
      intros [= <-]. right. eauto.
    + cbn. intros [= <-]. left. eapply mergeAttributes_error. exact Ea.
    + discriminate.
  - intros [= <-]. right. eapply reconcileTags_error. exact Et.
  - discriminate.
Qed.

Lemma update_sent h p nd :
  In (UpdateNote nd) (fst (update h p)) ->
  exists att note content tags attrs,
    buildAttachments h (addAttachments p) (binaryPropertyNamesRaw p) = Ok att /\
    getNote h (noteGuid p) (fetchWithContent p) = inr note /\
    editContent h p note = Ok content /\
    snd (reconcileTags h p) = Ok tags /\
    mergeAttributes (attributesJson p) (noteAttributesUi p) = Ok attrs /\
    nd = updateNoteData p note (appendMediaTags content att) tags
           (option_map resources att) attrs.
Proof.
  rewrite update_steps.
  destruct (buildAttachments h (addAttachments p) (binaryPropertyNamesRaw p)) as [att|e|].
  2, 3: intros [].
  destruct (getNote h (noteGuid p) (fetchWithContent p)) as [message|note] eqn:En.
  { cbn. intros [H|[]]. discriminate. }
  destruct (editContent h p note) as [content|e|] eqn:Ee.
  2, 3: cbn; intros [H|[]]; discriminate.
  cbn [fst]. intros [Hin|Hin]; [discriminate|].
  apply finishUpdate_sent in Hin as (tags & attrs & H1 & H2 & H3).
  exists att, note, content, tags, attrs. repeat split; auto.
Qed.

(** When every step succeeds the note is sent, last. *)
Lemma update_reaches h p att note content tags attrs :
  buildAttachments h (addAttachments p) (binaryPropertyNamesRaw p) = Ok att ->
  getNote h (noteGuid p) (fetchWithContent p) = inr note ->
  editContent h p note = Ok content ->
  snd (reconcileTags h p) = Ok tags ->
  mergeAttributes (attributesJson p) (noteAttributesUi p) = Ok attrs ->
  In (UpdateNote (updateNoteData p note (appendMediaTags content att) tags
                    (option_map resources att) attrs))
     (fst (update h p)).
Proof.
  intros H1 H2 H3 H4 H5. rewrite update_steps, H1, H2, H3. cbn [fst]. right.
  unfold finishUpdate. rewrite bind_fst_snd, H4. cbn [fst]. rewrite H5, bind_lift_ok.
  apply in_app_iff. right. destruct (updateNote h _); left; reflexivity.
Qed.

(** ** Tags *)

Lemma includes_In (l : list str) (x : str) : includes l x = true <-> In x l.
Proof.
  unfold includes. rewrite existsb_exists. split.
  - intros (y & Hy & E). apply str_eqb_eq in E. subst. exact Hy.
  - intros H. exists x. split; [exact H | apply str_eqb_refl].
Qed.

Lemma includes_not_In (l : list str) (x : str) : includes l x = false <-> ~ In x l.
Proof.
  rewrite <- includes_In. destruct (includes l x); split; congruence.
Qed.

Lemma Set_spread_acc (l : list str) :
  forall acc,
    List.NoDup acc ->
    List.NoDup (foldl (fun acc x => if includes acc x then acc else acc ++ [x]) acc l) /\
    forall t, In t (foldl (fun acc x => if includes acc x then acc else acc ++ [x]) acc l)
              <-> In t acc \/ In t l.
Proof.
  induction l as [|x l IH]; intros acc Hnd; cbn [foldl].
  - split; [exact Hnd|]. intros t. cbn. tauto.
  - destruct (includes acc x) eqn:E.
    + destruct (IH acc Hnd) as [H1 H2]. split; [exact H1|].
      intros t. rewrite H2. cbn. apply includes_In in E.
      split; [tauto|]. intros [H|[<-|H]]; auto.
    + apply includes_not_In in E.
      assert (Hnd' : List.NoDup (acc ++ [x])).
      { apply List.NoDup_app.
        - exact Hnd.
        - constructor; [intros [] | constructor].
        - intros y Hy [->|[]]. contradiction. }
      destruct (IH _ Hnd') as [H1 H2]. split; [exact H1|].
      intros t. rewrite H2, in_app_iff. cbn. tauto.
Qed.

Lemma Set_spread_NoDup (l : list str) : List.NoDup (Set_spread l).
Proof. apply Set_spread_acc. constructor. Qed.

Lemma Set_spread_In (l : list str) (t : str) : In t (Set_spread l) <-> In t l.
Proof.
  unfold Set_spread. destruct (Set_spread_acc l [] (List.NoDup_nil _)) as [_ H].
  rewrite H. cbn. tauto.
Qed.

Lemma trim_start_head s c t : trim_start s = c :: t -> is_js_space c = false.
Proof.
  induction s as [|x s IH]; cbn [trim_start]; [discriminate|].
  destruct (is_js_space x) eqn:E; [exact IH|].
  intros [= <- <-]. exact E.
Qed.

Lemma trim_start_suffix s : exists ws, s = ws ++ trim_start s.
Proof.
  induction s as [|x s [ws IH]]; cbn [trim_start]; [exists []; reflexivity|].
  destruct (is_js_space x).
  - exists (x :: ws). cbn. rewrite <- IH. reflexivity.
  - exists []. reflexivity.
Qed.

Lemma trim_trimmed (s : str) : trimmed (trim s).
Proof.
  unfold trimmed, trim. rewrite rev_involutive.
  set (a := trim_start s). set (b := trim_start (rev a)). split.
  - destruct (rev b) as [|c t] eqn:Eb; [exact I|].
    destruct (trim_start_suffix (rev a)) as [ws Hws]. fold b in Hws.
    apply (f_equal (@rev ascii)) in Hws. rewrite rev_involutive, rev_app_distr, Eb in Hws.
    cbn in Hws. eapply (trim_start_head s). fold a. exact Hws.
  - destruct b as [|c t] eqn:Eb; [exact I|].
    eapply trim_start_head. exact Eb.
Qed.

Lemma splitTags_In (raw t : str) :
  In t (splitTags raw) <->
  t <> [] /\ exists segment, In segment (split_on "," raw) /\ t = trim segment.
Proof.
  unfold splitTags. rewrite filter_In, in_map_iff, nonempty_true.
  split.
  - intros [(seg & <- & Hseg) Hne]. split; [exact Hne|]. exists seg. auto.
  - intros [Hne (seg & Hseg & ->)]. split; [|exact Hne]. exists seg. auto.
Qed.

Lemma splitTags_trimmed (raw t : str) : In t (splitTags raw) -> t <> [] /\ trimmed t.
Proof.
  intros H. apply splitTags_In in H as [Hne (seg & _ & ->)].
  split; [exact Hne | apply trim_trimmed].
Qed.

Lemma split_on_nonempty sep s : split_on sep s <> [].
Proof.
  induction s as [|c s IH]; cbn [split_on]; [discriminate|].
  destruct (c == sep); [discriminate|]. destruct (split_on sep s); [contradiction | discriminate].
Qed.

Lemma split_on_join sep s :
  join_with sep (split_on sep s) = s /\
  Forall (fun segment => ~ In sep segment) (split_on sep s).
Proof.
  induction s as [|c s [IH1 IH2]]; cbn [split_on].
  - split; [reflexivity|]. constructor; [intros [] | constructor].
  - pose proof (split_on_nonempty sep s) as Hne.
    destruct (c == sep) eqn:E.
    + apply char_eqb_eq in E. subst c. split.
      * cbn [join_with]. destruct (split_on sep s) eqn:Es; [contradiction|].
        cbn [app]. rewrite IH1. reflexivity.
      * constructor; [intros [] | exact IH2].
    + apply char_eqb_neq in E.
      destruct (split_on sep s) as [|seg segs] eqn:Es; [contradiction|]. split.
      * cbn [join_with] in *. destruct segs; cbn [app]; rewrite <- IH1; reflexivity.
      * inversion IH2; subst. constructor; [|assumption].
        intros [->|H]; [congruence | contradiction].
Qed.

(** ** Attributes *)

Lemma set_property_lookup target kv k :
  set_property target kv !! k =
  if str_eqb (fst kv) proto_key then target !! k
  else if decide (fst kv = k) then Some (snd kv) else target !! k.
Proof.
  unfold set_property, proto_key. destruct (str_eqb (fst kv) "__proto__"); [reflexivity|].
  apply lookup_insert.
Qed.

Lemma Object_assign_proto source : forall target,
  Object_assign target source !! proto_key = target !! proto_key.
Proof.
  unfold Object_assign. induction source as [|kv source IH]; intros target; [reflexivity|].
  cbn [foldl]. rewrite IH, set_property_lookup.
  destruct (str_eqb (fst kv) proto_key) eqn:E; [reflexivity|].
  destruct (decide (fst kv = proto_key)) as [Heq|]; [|reflexivity].
  rewrite Heq, str_eqb_refl in E. discriminate.
Qed.

Lemma Object_assign_absent source k : forall target,
  ~ In k (map fst source) -> Object_assign target source !! k = target !! k.
Proof.
  unfold Object_assign. induction source as [|kv source IH]; intros target Hk; [reflexivity|].
  cbn [foldl]. cbn in Hk. rewrite IH by tauto. rewrite set_property_lookup.
  destruct (str_eqb (fst kv) proto_key); [reflexivity|].
  destruct (decide (fst kv = k)); [tauto | reflexivity].
Qed.

Lemma Object_assign_present source k v : forall target,
  List.NoDup (map fst source) -> In (k, v) source -> k <> proto_key ->
  Object_assign target source !! k = Some v.
Proof.
  unfold Object_assign. induction source as [|kv source IH]; intros target Hnd Hin Hk; [destruct Hin|].
  cbn [foldl]. cbn in Hnd. inversion Hnd as [|? ? Hnotin Hnd']; subst.
  destruct Hin as [->|Hin].
  - fold (Object_assign (set_property target (k, v)) source).
    rewrite Object_assign_absent by exact Hnotin.
    rewrite set_property_lookup. cbn [fst snd].
    destruct (str_eqb k proto_key) eqn:E; [apply str_eqb_eq in E; contradiction|].
    destruct (decide (k = k)); [reflexivity | contradiction].
  - apply IH; assumption.
Qed.

(** Overlaying a map: its keys win, the others are kept. *)
Lemma Object_assign_map (target source : gmap str json) (k : str) :
  k <> proto_key ->
  Object_assign target (map_to_list source) !! k =
  match source !! k with
  | Some v => Some v
  | None => target !! k
  end.
Proof.
  intros Hk. destruct (source !! k) as [v|] eqn:E.
  - apply Object_assign_present; [| |exact Hk].
    + apply NoDup_ListNoDup, NoDup_fst_map_to_list.
    + apply list_elem_of_In, elem_of_map_to_list. exact E.
  - apply Object_assign_absent. intros Hin. apply in_map_iff in Hin as ([k' v] & Hk' & Hin).
    cbn in Hk'. subst k'. apply list_elem_of_In, elem_of_map_to_list in Hin. congruence.
Qed.

Lemma has_keys_false (o : gmap str json) : has_keys o = false <-> o = ∅.
Proof.
  unfold has_keys. rewrite negb_false_iff, bool_decide_eq_true. reflexivity.
Qed.

Lemma has_keys_true (o : gmap str json) : has_keys o = true <-> o <> ∅.
Proof.
  unfold has_keys. rewrite negb_true_iff, bool_decide_eq_false. reflexivity.
Qed.

Lemma Object_assign_empty_map (target : gmap str json) :
  Object_assign target (map_to_list (∅ : gmap str json)) = target.
Proof. rewrite map_to_list_empty. reflexivity. Qed.

Lemma mergeAttributes_ok text ui :
  (text = [] \/ exists v, JSON_parse text = POk v []) ->
  mergeAttributes text ui =
  Ok (let merged := mergedAttributes
                      (if nonempty text
                       then match JSON_parse text with POk v _ => Some v | _ => None end
                       else None) ui in
      if has_keys merged then Some merged else None).
Proof.
  intros H. unfold mergeAttributes, mergedAttributes.
  assert (Hui : forall t : gmap str json,
             (if has_keys ui then Object_assign t (map_to_list ui) else t)
             = Object_assign t (map_to_list ui)).
  { intros t. destruct (has_keys ui) eqn:E; [reflexivity|].
    apply has_keys_false in E. subst ui. symmetry. apply Object_assign_empty_map. }
  destruct (nonempty text) eqn:En.
  - destruct H as [->|(v & Hv)]; [discriminate|]. rewrite Hv. cbn [result_bind].
    rewrite Hui. reflexivity.
  - cbn [result_bind]. rewrite Hui. reflexivity.
Qed.

Lemma JSON_parse_rest text v rest : JSON_parse text = POk v rest -> rest = [].
Proof.
  unfold JSON_parse. destruct (json_value _ text) as [v' r| |]; try discriminate.
  destruct (skip_ws r); [|discriminate]. intros [= _ <-]. reflexivity.
Qed.

Lemma mergeAttributes_malformed text ui :
  text <> [] -> JSON_parse text = PSyntaxError ->
  mergeAttributes text ui = Throw InvalidJsonAttributes.
Proof.
  intros Hne Hp. unfold mergeAttributes.
  apply nonempty_true in Hne. rewrite Hne, Hp. reflexivity.
Qed.

(** ** The claims *)

(** *** Resource builder *)

(** C1. When every referenced binary input is present,
    [buildResourcesFromBinary] returns resources and media tags of the
    same length as the list of inputs, in input order; the resource at
    each index carries the bytes of its input and their MD5 digest as
    [bodyHash], and the media tag at that index carries the hexadecimal
    form of that same [bodyHash]. *)
Theorem C1_hash_binding (binary : gmap str BinaryData) (propertyNames : list str) :
  Forall (fun name => is_Some (binary !! name)) propertyNames ->
  exists res,
    buildResourcesFromBinary binary propertyNames = Ok res /\
    length (resources res) = length propertyNames /\
    length (mediaTags res) = length propertyNames /\
    forall i name, propertyNames !! i = Some name ->
      exists input r tag,
        binary !! name = Some input /\
        resources res !! i = Some r /\
        mediaTags res !! i = Some tag /\
        body (data r) = bin_buffer input /\
        bodyHash (data r) = md5 (bin_buffer input) /\
        tag = "<en-media type=" ++ dquote ++ mime r ++ dquote ++ " hash=" ++ dquote
                ++ to_hex (bodyHash (data r)) ++ dquote ++ " />".
Proof.
  intros Hall.
  destruct (buildResourcesLoop_total binary propertyNames Hall [] []) as [res Hres].
  exists res. split; [exact Hres|].
  destruct (buildResourcesLoop_built _ _ _ _ _ Hres) as (built & Hbuilt & Hr & Ht).
  cbn [app] in Hr, Ht. pose proof (Forall2_length _ _ _ Hbuilt) as Hlen.
  rewrite Hr, Ht, !length_map.
  split; [congruence|]. split; [congruence|].
  intros i name Hi.
  destruct (Forall2_lookup_l _ _ _ _ _ Hbuilt Hi) as ([r tag] & Hbi & Hok).
  destruct (buildResource_ok _ _ _ _ Hok) as (input & Hin & Hbody & _ & Hhash & _ & Htag).
  exists input, r, tag. rewrite !list_lookup_fmap, Hbi. cbn.
  repeat split; assumption.
Qed.

Lemma C1_hash_binding_witness :
  Forall (fun name => is_Some (sample_binary !! name)) ["data"] /\
  exists res, buildResourcesFromBinary sample_binary ["data"] = Ok res /\
              length (resources res) = 1 /\ length (mediaTags res) = 1.
Proof.
  assert (H : Forall (fun name => is_Some (sample_binary !! name)) ["data"]).
  { constructor; [|constructor]. eexists. reflexivity. }
  split; [exact H|].
  destruct (C1_hash_binding sample_binary ["data"] H) as (res & H1 & H2 & H3 & _).
  exists res. auto.
Defined.

(** The embedded MD5 on the test vectors of RFC 1321. *)
Example md5_test_vectors :
  to_hex (md5 []) = "d41d8cd98f00b204e9800998ecf8427e" /\
  to_hex (md5 (bytes_of_str "abc")) = "900150983cd24fb0d6963f7d28e17f72" /\
  to_hex (md5 (bytes_of_str "message digest")) = "f96b697d7cb7938d525a2f31aaf161d0" /\
  to_hex (md5 (bytes_of_str
     "12345678901234567890123456789012345678901234567890123456789012345678901234567890"))
    = "57edf4a22be3c955ac49da2e2107b67a".
Proof. repeat split; vm_compute; reflexivity. Qed.

(** The builder fails exactly when an input is missing. *)
Lemma buildResourcesFromBinary_ok_iff binary propertyNames :
  (exists res, buildResourcesFromBinary binary propertyNames = Ok res) <->
  Forall (fun name => is_Some (binary !! name)) propertyNames.
Proof.
  split.
  - intros [res H]. eapply buildResourcesLoop_missing. exact H.
  - intros H. apply buildResourcesLoop_total. exact H.
Qed.

Example media_tag_abc :
  option_map mediaTags
    (match buildResourcesFromBinary sample_binary ["data"] with
     | Ok res => Some res | _ => None end) =
  Some ["<en-media type=" ++ dquote ++ "text/plain" ++ dquote ++ " hash=" ++ dquote
          ++ "900150983cd24fb0d6963f7d28e17f72" ++ dquote ++ " />"].
Proof. vm_compute. reflexivity. Qed.

(** *** Markup codec *)

(** C2. For a body in which neither the opening-tag pattern nor the
    closing-tag pattern of the root element matches anywhere,
    [extractEnmlBody (wrapEnmlBody body)] is [body]. *)
Theorem C2_extract_wrap_roundtrip (body : str) :
  RegExp_test re_open_tag body = false ->
  RegExp_test re_close_tag body = false ->
  extractEnmlBody (wrapEnmlBody body) = body.
Proof.
  intros _ Hclose. apply extract_wrap, no_closing_tag. exact Hclose.
Qed.

Lemma C2_extract_wrap_roundtrip_witness :
  RegExp_test re_open_tag "<div>hi</div>" = false /\
  RegExp_test re_close_tag "<div>hi</div>" = false /\
  extractEnmlBody (wrapEnmlBody "<div>hi</div>") = "<div>hi</div>".
Proof.
  split; [vm_compute; reflexivity|]. split; [vm_compute; reflexivity|].
  apply C2_extract_wrap_roundtrip; vm_compute; reflexivity.
Defined.

(** A closing tag in the body does break the round trip, so the
    closing-tag condition cannot be dropped. *)
Example extract_wrap_closing_tag :
  extractEnmlBody (wrapEnmlBody "a</en-note>b") = "a".
Proof. vm_compute. reflexivity. Qed.

(** C8, as stated, fails: the apostrophe, the fifth XML metacharacter,
    is not escaped. *)
Lemma C8_counterexample :
  escapeXml "'" = "'" /\ plainTextToEnml "'" = wrapEnmlBody "<div>'</div>".
Proof. split; vm_compute; reflexivity. Qed.

(** C8, amended. [fromPlainText] escapes the four characters ampersand,
    less-than, greater-than and double quote, turns each line feed, with
    the carriage return before it if any, into one break element, and
    wraps the result in one [div] and the document shell; the encoded
    text has its markup characters only inside entities and break
    elements; and the example of the specification holds. *)
Theorem C8_plain_text (text : str) :
  escapeXml text = flat_map escape_char text /\
  plainTextToEnml text = wrapEnmlBody ("<div>" ++ encode_text text ++ "</div>") /\
  EscapedText (encode_text text) /\
  plainTextToEnml ("<a & b>" ++ newline ++ "line2")
    = wrapEnmlBody "<div>&lt;a &amp; b&gt;<br />line2</div>".
Proof.
  split; [apply escapeXml_chars|]. split; [apply plainTextToEnml_encode|].
  split; [apply (encode_text_escaped_le (length text)); lia|].
  vm_compute. reflexivity.
Qed.

(** *** Search and replace *)




(** Case is taken into account when [caseSensitive] is set, and the
    replacement stays global. *)
Example search_replace_case_sensitive :
  searchReplaceContent (Some (wrapEnmlBody "hello, HELLO, hello")) "hello" false true "bye"
    = Ok (wrapEnmlBody "bye, HELLO, bye").
Proof. vm_compute. reflexivity. Qed.

(** With regular expressions disabled the search value never fails to
    compile. *)
Lemma literal_pattern_compiles (searchValue : str) :
  compile (searchPattern searchValue false) = Pattern (lit_chain searchValue REmpty) 0.
Proof. rewrite searchPattern_literal. apply compile_escaped. Qed.




(** What an update can fail with before and after the editing of the
    content: never one of the two errors of the [searchReplace] branch. *)
Lemma update_edit_errors h p e :
  snd (update h p) = Throw e ->
  e = SearchTextRequired \/ e = InvalidRegularExpression ->
  exists att note,
    buildAttachments h (addAttachments p) (binaryPropertyNamesRaw p) = Ok att /\
    getNote h (noteGuid p) (fetchWithContent p) = inr note /\
    editContent h p note = Throw e /\
    fst (update h p) = [GetNote (noteGuid p) (fetchWithContent p)].
Proof.
  rewrite update_steps. intros H He.
  destruct (buildAttachments h (addAttachments p) (binaryPropertyNamesRaw p))
    as [att|e0|] eqn:Ea.
  - destruct (getNote h (noteGuid p) (fetchWithContent p)) as [message|note] eqn:En.
    + cbn in H. injection H as <-. destruct He; discriminate.
    + destruct (editContent h p note) as [content|e1|] eqn:Ee; cbn [fst snd] in *.
      * apply finishUpdate_error in H as [->|[message ->]]; destruct He; discriminate.
      * injection H as ->. exists att, note. auto.
      * discriminate.
  - cbn in H. injection H as ->. exfalso. revert Ea. unfold buildAttachments.
    destruct (addAttachments p); [|discriminate].
    unfold buildResourcesFromBinary. generalize (@nil Resource) (@nil str).
    induction (parseBinaryPropertyNames (binaryPropertyNamesRaw p)) as [|name names IH];
      intros rs ts; cbn [buildResourcesLoop result_bind]; [discriminate|].
    unfold buildResource. destruct (binary h !! name).
    + apply IH.
    + cbn. intros [= <-]. destruct He; discriminate.
  - discriminate.
Qed.



(** An invalid pattern: an unterminated group. *)
Example invalid_pattern_example :
  snd (update sample_host
         {| noteGuid := "note-1"; contentEditingMode := "searchReplace";
            contentMode := "plainText"; plainContent := "x"; htmlContent := "";
            tagsRaw := ""; tagsMode := "ignore"; titleUpdate := "";
            notebookGuidUpdate := ""; attributesJson := ""; noteAttributesUi := ∅;
            searchValue := "(a"; useRegex := true; caseSensitive := false;
            addAttachments := false; binaryPropertyNamesRaw := "data" |})
  = Throw InvalidRegularExpression.
Proof. vm_compute. reflexivity. Qed.

(** *** Tags *)

Lemma reconcileTags_replace h p :
  tagsMode p = "replace" -> reconcileTags h p = ([], Ok (splitTags (tagsRaw p))).
Proof. intros Hm. unfold reconcileTags. rewrite Hm. eval_str_eqb. reflexivity. Qed.

Lemma reconcileTags_ignore h p :
  tagsMode p = "ignore" -> reconcileTags h p = ([], Ok []).
Proof. intros Hm. unfold reconcileTags. rewrite Hm. eval_str_eqb. reflexivity. Qed.

Lemma reconcileTags_add h p tags :
  tagsMode p = "add" -> snd (reconcileTags h p) = Ok tags ->
  exists existing,
    getNoteTagNames h (noteGuid p) = inr existing /\
    tags = Set_spread (existing ++ splitTags (tagsRaw p)).
Proof.
  intros Hm. unfold reconcileTags. rewrite Hm. eval_str_eqb.
  destruct (getNoteTagNames h (noteGuid p)) as [message|existing]; [discriminate|].
  rewrite bind_call_ok. cbn. intros [= <-]. exists existing. auto.
Qed.

Lemma reconcileTags_remove h p tags :
  tagsMode p = "remove" -> snd (reconcileTags h p) = Ok tags ->
  exists existing,
    getNoteTagNames h (noteGuid p) = inr existing /\
    tags = List.filter (fun tag => negb (includes (splitTags (tagsRaw p)) tag)) existing.
Proof.
  intros Hm. unfold reconcileTags. rewrite Hm. eval_str_eqb.
  destruct (getNoteTagNames h (noteGuid p)) as [message|existing]; [discriminate|].
  rewrite bind_call_ok. cbn. intros [= <-]. exists existing. auto.
Qed.

Lemma sent_tagNames p note content tags res attrs :
  nd_tagNames (updateNoteData p note content tags res attrs) =
  if negb (str_eqb (tagsMode p) "ignore") then Some tags else None.
Proof. reflexivity. Qed.

(** C4, as stated, fails: in Replace mode a tag given twice is sent
    twice. *)
Lemma C4_counterexample :
  exists nd,
    In (UpdateNote nd) (fst (update sample_host sample_keep)) /\
    tagsMode sample_keep = "replace" /\
    nd_tagNames nd = Some ["a"; "a"] /\
    ~ List.NoDup ["a"; "a"].
Proof.
  eexists. split; [vm_compute; right; left; reflexivity|].
  split; [reflexivity|]. split; [reflexivity|].
  intros H. inversion H as [|? ? Hin _]. apply Hin. left. reflexivity.
Qed.

(** C4, amended. In the note that an update sends: in Replace mode the
    tag names are the requested list, each name trimmed and the empty
    ones dropped, in order and with repetitions kept; in Add mode they
    are, without repetition, the existing tag names and the requested
    ones; in Remove mode they are the existing tag names that are not
    requested; in Ignore mode the note has no tag names field. *)
Theorem C4_tag_modes (h : Host) (p : UpdateParams) (nd : NoteData) :
  In (UpdateNote nd) (fst (update h p)) ->
  (tagsMode p = "replace" -> nd_tagNames nd = Some (splitTags (tagsRaw p))) /\
  (tagsMode p = "add" ->
   exists existing tags,
     getNoteTagNames h (noteGuid p) = inr existing /\
     nd_tagNames nd = Some tags /\
     List.NoDup tags /\
     forall t, In t tags <-> In t existing \/ In t (splitTags (tagsRaw p))) /\
  (tagsMode p = "remove" ->
   exists existing tags,
     getNoteTagNames h (noteGuid p) = inr existing /\
     nd_tagNames nd = Some tags /\
     forall t, In t tags <-> In t existing /\ ~ In t (splitTags (tagsRaw p))) /\
  (tagsMode p = "ignore" -> nd_tagNames nd = None) /\
  (forall t, In t (splitTags (tagsRaw p)) <->
             t <> [] /\
             exists segment, In segment (split_on "," (tagsRaw p)) /\ t = trim segment) /\
  (forall t, In t (splitTags (tagsRaw p)) -> trimmed t).
Proof.
  intros Hsent.
  apply update_sent in Hsent as (att & note & content & tags & attrs & _ & _ & _ & Ht & _ & ->).
  rewrite sent_tagNames.
  split; [|split; [|split; [|split; [|split]]]].
  - intros Hm. rewrite reconcileTags_replace in Ht by exact Hm. injection Ht as <-.
    rewrite Hm. reflexivity.
  - intros Hm. destruct (reconcileTags_add h p tags Hm Ht) as (existing & He & ->).
    exists existing, (Set_spread (existing ++ splitTags (tagsRaw p))).
    split; [exact He|]. split; [rewrite Hm; reflexivity|].
    split; [apply Set_spread_NoDup|].
    intros t. rewrite Set_spread_In, in_app_iff. reflexivity.
  - intros Hm. destruct (reconcileTags_remove h p tags Hm Ht) as (existing & He & ->).
    eexists existing, _. split; [exact He|]. split; [rewrite Hm; reflexivity|].
    intros t. rewrite filter_In, negb_true_iff, includes_not_In. reflexivity.
  - intros Hm. rewrite Hm. reflexivity.
  - intros t. apply splitTags_In.
  - intros t Hin. apply splitTags_trimmed in Hin. tauto.
Qed.

Lemma C4_tag_modes_witness :
  In (UpdateNote
        (updateNoteData sample_keep sample_note
           (or_else (note_content sample_note) (wrapEnmlBody "")) ["a"; "a"] None None))
     (fst (update sample_host sample_keep)) /\
  nd_tagNames
    (updateNoteData sample_keep sample_note
       (or_else (note_content sample_note) (wrapEnmlBody "")) ["a"; "a"] None None)
  = Some (splitTags (tagsRaw sample_keep)).
Proof.
  assert (H : In (UpdateNote
                    (updateNoteData sample_keep sample_note
                       (or_else (note_content sample_note) (wrapEnmlBody ""))
                       ["a"; "a"] None None))
                 (fst (update sample_host sample_keep))).
  { vm_compute. right. left. reflexivity. }
  split; [exact H|].
  apply (C4_tag_modes sample_host sample_keep _ H). reflexivity.
Defined.

(** The example of the specification: existing tags [a] and [b],
    requested [b] and [c]. *)
Example tag_modes_example :
  Set_spread (["a"; "b"] ++ splitTags "b,c") = ["a"; "b"; "c"] /\
  List.filter (fun tag => negb (includes (splitTags "b,c") tag)) ["a"; "b"] = ["a"] /\
  splitTags "b,c" = ["b"; "c"].
Proof. repeat split; vm_compute; reflexivity. Qed.

(** *** Media tags *)


Lemma buildAttachments_none h raw att :
  buildAttachments h false raw = Ok att -> att = None.
Proof. cbn. congruence. Qed.

Lemma buildAttachments_some h raw att :
  buildAttachments h true raw = Ok att -> exists res, att = Some res.
Proof.
  unfold buildAttachments.
  destruct (buildResourcesFromBinary _ _) as [res| |]; cbn; try discriminate.
  intros [= <-]. eauto.
Qed.

Lemma editContent_keep h p note :
  contentEditingMode p = "keep" ->
  editContent h p note = Ok (or_else (note_content note) (wrapEnmlBody "")).
Proof. intros Hm. unfold editContent. rewrite Hm. reflexivity. Qed.

Lemma editContent_replace h p note :
  contentEditingMode p = "replace" ->
  editContent h p note = Ok (encodeContent h (contentMode p) (plainContent p) (htmlContent p)).
Proof. intros Hm. unfold editContent. rewrite Hm. reflexivity. Qed.



(** A replace update with one attachment: the tag follows the new body. *)
Example media_tag_after_body :
  exists nd,
    In (UpdateNote nd) (fst (update sample_host sample_replace)) /\
    nd_content nd =
    wrapEnmlBody ("<div>hello</div>"
                  ++ "<en-media type=" ++ dquote ++ "text/plain" ++ dquote ++ " hash="
                  ++ dquote ++ "900150983cd24fb0d6963f7d28e17f72" ++ dquote ++ " />").
Proof.
  eexists. split; [vm_compute; right; right; left; reflexivity|].
  vm_compute. reflexivity.
Qed.

(** *** Replace mode and the title *)

Lemma update_trace h p nd :
  In (UpdateNote nd) (fst (update h p)) ->
  fst (update h p) =
  GetNote (noteGuid p) (fetchWithContent p) :: fst (reconcileTags h p) ++ [UpdateNote nd].
Proof.
  intros Hsent.
  destruct (update_sent _ _ _ Hsent)
    as (att & note & content & tags & attrs & Hatt & Hnote & Hedit & Ht & Ha & ->).
  rewrite update_steps, Hatt, Hnote, Hedit. cbn [fst]. f_equal.
  unfold finishUpdate. rewrite bind_fst_snd, Ht. cbn [fst]. f_equal.
  rewrite Ha, bind_lift_ok. destruct (updateNote h _); reflexivity.
Qed.

(** C9. In Replace mode the existing content is not needed: the content
    that a replace update sends is the newly encoded input, with the media
    tags added when there are attachments, whatever note the store
    returns; two hosts with the same sanitizer and binary inputs send the
    same content. *)
Theorem C9_replace_ignores_existing (h : Host) (p : UpdateParams) (nd : NoteData) :
  contentEditingMode p = "replace" ->
  In (UpdateNote nd) (fst (update h p)) ->
  needsExistingContent (contentEditingMode p) = false /\
  (exists att,
     buildAttachments h (addAttachments p) (binaryPropertyNamesRaw p) = Ok att /\
     nd_content nd =
     appendMediaTags (encodeContent h (contentMode p) (plainContent p) (htmlContent p)) att) /\
  (addAttachments p = false ->
   nd_content nd = encodeContent h (contentMode p) (plainContent p) (htmlContent p)) /\
  (forall h' nd',
     sanitizeHtml h' = sanitizeHtml h -> binary h' = binary h ->
     In (UpdateNote nd') (fst (update h' p)) ->
     nd_content nd' = nd_content nd).
Proof.
  intros Hm Hsent.
  assert (Hcontent : forall h0 nd0,
             In (UpdateNote nd0) (fst (update h0 p)) ->
             exists att,
               buildAttachments h0 (addAttachments p) (binaryPropertyNamesRaw p) = Ok att /\
               nd_content nd0 =
               appendMediaTags
                 (encodeContent h0 (contentMode p) (plainContent p) (htmlContent p)) att).
  { intros h0 nd0 H0.
    apply update_sent in H0
      as (att & note & content & tags & attrs & Hatt & _ & Hedit & _ & _ & ->).
    rewrite editContent_replace in Hedit by exact Hm. injection Hedit as <-.
    exists att. auto. }
  split; [rewrite Hm; reflexivity|].
  destruct (Hcontent h nd Hsent) as (att & Hatt & Hnd).
  split; [exists att; auto|]. split.
  - intros Hno. rewrite Hno in Hatt. apply buildAttachments_none in Hatt.
    rewrite Hnd, Hatt. reflexivity.
  - intros h' nd' Hs Hb Hsent'.
    destruct (Hcontent h' nd' Hsent') as (att' & Hatt' & Hnd').
    assert (Hsame : buildAttachments h' (addAttachments p) (binaryPropertyNamesRaw p)
                    = buildAttachments h (addAttachments p) (binaryPropertyNamesRaw p)).
    { unfold buildAttachments. rewrite Hb. reflexivity. }
    rewrite Hsame, Hatt in Hatt'. injection Hatt' as <-.
    rewrite Hnd, Hnd'. unfold encodeContent. rewrite Hs. reflexivity.
Qed.

Lemma C9_replace_ignores_existing_witness :
  contentEditingMode sample_replace = "replace" /\
  (exists nd, In (UpdateNote nd) (fst (update sample_host sample_replace)) /\
              needsExistingContent (contentEditingMode sample_replace) = false).
Proof.
  assert (H1 : contentEditingMode sample_replace = "replace") by reflexivity.
  split; [exact H1|].
  eexists. 
  assert (H2 : In (UpdateNote
                     (updateNoteData sample_replace sample_note
                        (appendMediaTags
                           (encodeContent sample_host (contentMode sample_replace)
                              (plainContent sample_replace) (htmlContent sample_replace))
                           (match buildAttachments sample_host true "data" with
                            | Ok att => att | _ => None end))
                        ["a"; "b"; "c"]
                        (option_map resources
                           (match buildAttachments sample_host true "data" with
                            | Ok att => att | _ => None end))
                        None))
                  (fst (update sample_host sample_replace))).
  { vm_compute. right. right. left. reflexivity. }
  split; [exact H2|].
  apply (C9_replace_ignores_existing sample_host sample_replace _ H1 H2).
Defined.

(** In plain-text Replace mode nothing of the new body is lost when
    media tags are added. *)
Lemma replace_plain_text_with_media h p nd res :
  contentEditingMode p = "replace" ->
  str_eqb (contentMode p) "html" = false ->
  buildAttachments h (addAttachments p) (binaryPropertyNamesRaw p) = Ok (Some res) ->
  mediaTags res <> [] ->
  In (UpdateNote nd) (fst (update h p)) ->
  nd_content nd =
  wrapEnmlBody (("<div>" ++ encode_text (plainContent p) ++ "</div>")
                ++ concat (mediaTags res)).
Proof.
  intros Hm Hplain Hatt Htags Hsent.
  apply update_sent in Hsent
    as (att & note & content & tags & attrs & Hatt' & _ & Hedit & _ & _ & ->).
  rewrite Hatt in Hatt'. injection Hatt' as <-.
  rewrite editContent_replace in Hedit by exact Hm. injection Hedit as <-.
  cbn [nd_content updateNoteData appendMediaTags].
  destruct (mediaTags res) as [|tag more] eqn:Et; [contradiction|].
  unfold encodeContent. rewrite Hplain, extract_plainTextToEnml. reflexivity.
Qed.

(** What the fetch asks for in Replace mode: the content is requested
    only when no new title is given. *)
Lemma replace_fetch_flag (p : UpdateParams) :
  contentEditingMode p = "replace" ->
  fetchWithContent p = negb (nonempty (titleUpdate p)).
Proof. intros Hm. unfold fetchWithContent. rewrite Hm. reflexivity. Qed.

(** C10. An update sends the new title when the New Title parameter is
    not empty and otherwise the title of the note it fetched first, so an
    empty parameter leaves the title as it is; the title sent is present
    and not empty whenever the fetched one is. *)
Theorem C10_title (h : Host) (p : UpdateParams) (nd : NoteData) :
  In (UpdateNote nd) (fst (update h p)) ->
  exists note,
    getNote h (noteGuid p) (fetchWithContent p) = inr note /\
    fst (update h p) =
      GetNote (noteGuid p) (fetchWithContent p)
        :: fst (reconcileTags h p) ++ [UpdateNote nd] /\
    (titleUpdate p <> [] -> nd_title nd = Some (titleUpdate p)) /\
    (titleUpdate p = [] -> nd_title nd = note_title note) /\
    (forall t, note_title note = Some t -> t <> [] ->
               exists t', nd_title nd = Some t' /\ t' <> []).
Proof.
  intros Hsent. pose proof (update_trace _ _ _ Hsent) as Htrace.
  apply update_sent in Hsent
    as (att & note & content & tags & attrs & _ & Hnote & _ & _ & _ & ->).
  exists note. split; [exact Hnote|]. split; [exact Htrace|].
  cbn [nd_title updateNoteData].
  destruct (titleUpdate p) as [|c s] eqn:Et; cbn [nonempty].
  - split; [congruence|]. split; [reflexivity|]. intros t Ht Hne. eauto.
  - split; [reflexivity|]. split; [discriminate|]. intros t _ _.
    exists (c :: s). split; [reflexivity | discriminate].
Qed.

Lemma C10_title_witness :
  In (UpdateNote
        (updateNoteData sample_keep sample_note
           (or_else (note_content sample_note) (wrapEnmlBody "")) ["a"; "a"] None None))
     (fst (update sample_host sample_keep)) /\
  exists note,
    getNote sample_host (noteGuid sample_keep) (fetchWithContent sample_keep) = inr note.
Proof.
  assert (H : In (UpdateNote
                    (updateNoteData sample_keep sample_note
                       (or_else (note_content sample_note) (wrapEnmlBody ""))
                       ["a"; "a"] None None))
                 (fst (update sample_host sample_keep))).
  { vm_compute. right. left. reflexivity. }
  split; [exact H|].
  destruct (C10_title sample_host sample_keep _ H) as (note & Hn & _).
  exists note. exact Hn.
Defined.

Example title_kept_when_empty :
  exists nd,
    In (UpdateNote nd) (fst (update sample_host sample_replace)) /\
    nd_title nd = Some "Groceries".
Proof.
  eexists. split; [vm_compute; right; right; left; reflexivity|]. reflexivity.
Qed.

(** *** Attributes *)

Lemma create_steps h p :
  create h p =
  match buildAttachments h (c_addAttachments p) (c_binaryPropertyNamesRaw p) with
  | Ok att =>
      match mergeAttributes (c_attributesJson p) (c_noteAttributesUi p) with
      | Ok attrs =>
          let noteData :=
            {| nd_guid := None;
               nd_title := Some (c_title p);
               nd_content :=
                 appendMediaTags
                   (encodeContent h (c_contentMode p) (c_plainContent p) (c_htmlContent p))
                   att;
               nd_tagNames := match splitTags (c_tagsRaw p) with
                              | [] => None
                              | _ => Some (splitTags (c_tagsRaw p))
                              end;
               nd_resources := option_map resources att;
               nd_notebookGuid := optional (c_notebookGuid p);
               nd_attributes := attrs |} in
          call (CreateNote noteData) (createNote h noteData)
      | Throw e => ([], Throw e)
      | Uncovered => ([], Uncovered)
      end
  | Throw e => ([], Throw e)
  | Uncovered => ([], Uncovered)
  end.
Proof.
  unfold create.
  destruct (buildAttachments h (c_addAttachments p) (c_binaryPropertyNamesRaw p)) as [att|e|];
    [rewrite bind_lift_ok | reflexivity | reflexivity].
  destruct (mergeAttributes (c_attributesJson p) (c_noteAttributesUi p)) as [attrs|e|];
    [rewrite bind_lift_ok | reflexivity | reflexivity].
  reflexivity.
Qed.

Lemma create_sent h p nd :
  In (CreateNote nd) (fst (create h p)) ->
  exists attrs,
    mergeAttributes (c_attributesJson p) (c_noteAttributesUi p) = Ok attrs /\
    nd_attributes nd = attrs.
Proof.
  rewrite create_steps.
  destruct (buildAttachments h (c_addAttachments p) (c_binaryPropertyNamesRaw p)) as [att|e|].
  2, 3: intros [].
  destruct (mergeAttributes (c_attributesJson p) (c_noteAttributesUi p)) as [attrs|e|] eqn:Ea.
  2, 3: intros [].
  cbv zeta. destruct (createNote h _); cbn; intros [H|[]]; injection H as <-; eauto.
Qed.

Lemma create_ok_sent h p n :
  snd (create h p) = Ok n -> exists nd, In (CreateNote nd) (fst (create h p)).
Proof.
  rewrite create_steps.
  destruct (buildAttachments h (c_addAttachments p) (c_binaryPropertyNamesRaw p)) as [att|e|];
    try discriminate.
  destruct (mergeAttributes (c_attributesJson p) (c_noteAttributesUi p)) as [attrs|e|];
    try discriminate.
  cbv zeta. destruct (createNote h _); cbn; [discriminate|]. intros _. eauto.
Qed.

Lemma finishUpdate_ok_sent h p att note content n :
  snd (finishUpdate h p att note content) = Ok n ->
  exists nd, In (UpdateNote nd) (fst (finishUpdate h p att note content)).
Proof.
  unfold finishUpdate. rewrite bind_fst_snd.
  destruct (snd (reconcileTags h p)) as [tags|e|]; cbn [fst snd]; try discriminate.
  destruct (mergeAttributes (attributesJson p) (noteAttributesUi p)) as [attrs|e|];
    try discriminate.
  rewrite bind_lift_ok. destruct (updateNote h _); cbn; [discriminate|].
  intros _. eexists. apply in_app_iff. right. left. reflexivity.
Qed.

Lemma update_ok_sent h p n :
  snd (update h p) = Ok n -> exists nd, In (UpdateNote nd) (fst (update h p)).
Proof.
  rewrite update_steps.
  destruct (buildAttachments h (addAttachments p) (binaryPropertyNamesRaw p)) as [att|e|];
    try discriminate.
  destruct (getNote h (noteGuid p) (fetchWithContent p)) as [message|note]; try discriminate.
  destruct (editContent h p note) as [content|e|]; try discriminate.
  cbn [fst snd]. intros H. apply finishUpdate_ok_sent in H as [nd H].
  exists nd. right. exact H.
Qed.

(** With malformed attributes an update that gets as far as the
    attributes fails with the JSON error. *)
Lemma update_malformed_attributes h p att note content tags :
  buildAttachments h (addAttachments p) (binaryPropertyNamesRaw p) = Ok att ->
  getNote h (noteGuid p) (fetchWithContent p) = inr note ->
  editContent h p note = Ok content ->
  snd (reconcileTags h p) = Ok tags ->
  mergeAttributes (attributesJson p) (noteAttributesUi p) = Throw InvalidJsonAttributes ->
  snd (update h p) = Throw InvalidJsonAttributes.
Proof.
  intros H1 H2 H3 H4 H5. rewrite update_steps, H1, H2, H3. cbn [snd].
  unfold finishUpdate. rewrite bind_fst_snd, H4. cbn [snd]. rewrite H5. reflexivity.
Qed.

Lemma mergedAttributes_ui_wins (parsed : option json) (ui : gmap str json) (k : str) (v : json) :
  k <> proto_key -> ui !! k = Some v -> mergedAttributes parsed ui !! k = Some v.
Proof.
  intros Hk Hv. unfold mergedAttributes. rewrite Object_assign_map by exact Hk.
  rewrite Hv. reflexivity.
Qed.

Lemma mergedAttributes_json_kept (parsed : option json) (ui : gmap str json) (k : str) :
  ui !! k = None ->
  mergedAttributes parsed ui !! k =
  Object_assign ∅ (match parsed with Some v => own_properties v | None => [] end) !! k.
Proof.
  intros Hk. unfold mergedAttributes. apply Object_assign_absent.
  intros Hin. apply in_map_iff in Hin as ([k' v] & Hk' & Hin). cbn in Hk'. subst k'.
  apply list_elem_of_In, elem_of_map_to_list in Hin. congruence.
Qed.

(** C6. Malformed JSON in the attributes makes [mergeAttributes] throw
    the JSON error, so that neither an update nor a create with it sends
    a note or succeeds. Otherwise the attributes are the properties of the
    parsed JSON with the structured fields laid over them: a structured
    field wins over the JSON on its key, a key without a structured field
    keeps its JSON value, and when the merged object is empty there is no
    attributes field at all, in [mergeAttributes] and in the note an
    update or a create sends. The example of the specification holds. *)
Theorem C6_attribute_merge (text : str) (ui : gmap str json) :
  (text <> [] -> JSON_parse text = PSyntaxError ->
   mergeAttributes text ui = Throw InvalidJsonAttributes /\
   (forall h p, attributesJson p = text -> noteAttributesUi p = ui ->
      (forall n, snd (update h p) <> Ok n) /\
      (forall nd, ~ In (UpdateNote nd) (fst (update h p)))) /\
   (forall h p, c_attributesJson p = text -> c_noteAttributesUi p = ui ->
      (forall n, snd (create h p) <> Ok n) /\
      (forall nd, ~ In (CreateNote nd) (fst (create h p))))) /\
  (forall parsed,
     (text = [] /\ parsed = None) \/
     (text <> [] /\ exists v, JSON_parse text = POk v [] /\ parsed = Some v) ->
     mergeAttributes text ui =
       Ok (if has_keys (mergedAttributes parsed ui)
           then Some (mergedAttributes parsed ui) else None) /\
     (forall k v, k <> proto_key -> ui !! k = Some v ->
                  mergedAttributes parsed ui !! k = Some v) /\
     (forall k, ui !! k = None ->
                mergedAttributes parsed ui !! k =
                Object_assign ∅ (match parsed with
                                 | Some v => own_properties v
                                 | None => []
                                 end) !! k) /\
     (mergedAttributes parsed ui = ∅ -> mergeAttributes text ui = Ok None) /\
     (forall h p nd, attributesJson p = text -> noteAttributesUi p = ui ->
        In (UpdateNote nd) (fst (update h p)) ->
        nd_attributes nd = if has_keys (mergedAttributes parsed ui)
                           then Some (mergedAttributes parsed ui) else None) /\
     (forall h p nd, c_attributesJson p = text -> c_noteAttributesUi p = ui ->
        In (CreateNote nd) (fst (create h p)) ->
        nd_attributes nd = if has_keys (mergedAttributes parsed ui)
                           then Some (mergedAttributes parsed ui) else None)) /\
  mergeAttributes sample_attributes_json sample_attributes_ui =
    Ok (Some {[ "author" := JString "X"; "source" := JString "ui" ]}).
Proof.
  split; [|split].
  - intros Hne Hbad.
    pose proof (mergeAttributes_malformed text ui Hne Hbad) as Hm.
    split; [exact Hm|]. split.
    + intros h p <- <-.
      assert (Hnone : forall nd, ~ In (UpdateNote nd) (fst (update h p))).
      { intros nd Hsent.
        apply update_sent in Hsent as (? & ? & ? & ? & attrs & _ & _ & _ & _ & Ha & _).
        congruence. }
      split; [|exact Hnone].
      intros n Hok. apply update_ok_sent in Hok as [nd Hnd]. exact (Hnone nd Hnd).
    + intros h p <- <-.
      assert (Hnone : forall nd, ~ In (CreateNote nd) (fst (create h p))).
      { intros nd Hsent. apply create_sent in Hsent as (attrs & Ha & _). congruence. }
      split; [|exact Hnone].
      intros n Hok. apply create_ok_sent in Hok as [nd Hnd]. exact (Hnone nd Hnd).
  - intros parsed Hparsed.
    assert (Hmerge : mergeAttributes text ui =
                     Ok (if has_keys (mergedAttributes parsed ui)
                         then Some (mergedAttributes parsed ui) else None)).
    { destruct Hparsed as [[-> ->] | (Hne & v & Hv & ->)].
      - rewrite mergeAttributes_ok by (left; reflexivity). reflexivity.
      - rewrite mergeAttributes_ok by (right; eauto).
        apply nonempty_true in Hne. rewrite Hne, Hv. reflexivity. }
    split; [exact Hmerge|].
    split; [intros k v; apply mergedAttributes_ui_wins|].
    split; [intros k; apply mergedAttributes_json_kept|].
    split.
    { intros Hempty. rewrite Hmerge.
      apply has_keys_false in Hempty. rewrite Hempty. reflexivity. }
    split.
    + intros h p nd <- <- Hsent.
      apply update_sent in Hsent as (? & ? & ? & ? & attrs & _ & _ & _ & _ & Ha & ->).
      cbn [nd_attributes updateNoteData]. congruence.
    + intros h p nd <- <- Hsent.
      apply create_sent in Hsent as (attrs & Ha & ->). congruence.
  - vm_compute. reflexivity.
Qed.

Lemma C6_attribute_merge_witness :
  "{" <> [] /\ JSON_parse "{" = PSyntaxError /\
  mergeAttributes "{" sample_attributes_ui = Throw InvalidJsonAttributes /\
  (forall nd, ~ In (UpdateNote nd)
                   (fst (update sample_host
                           (sample_update "keep" "ignore" "" "" "" "" "{" false)))).
Proof.
  assert (H1 : "{" <> []) by discriminate.
  assert (H2 : JSON_parse "{" = PSyntaxError) by reflexivity.
  destruct (C6_attribute_merge "{" sample_attributes_ui) as [Hbad _].
  destruct (Hbad H1 H2) as (Hm & _ & _).
  destruct (C6_attribute_merge "{" ∅) as [Hbad' _].
  destruct (Hbad' H1 H2) as (_ & Hu & _).
  split; [exact H1|]. split; [exact H2|]. split; [exact Hm|].
  apply (Hu sample_host (sample_update "keep" "ignore" "" "" "" "" "{" false));
    reflexivity.
Defined.

(** The key [__proto__] of the JSON text does not become an attribute. *)
Example proto_key_is_dropped :
  mergeAttributes ("{" ++ dquote ++ "__proto__" ++ dquote ++ ":1}") ∅ = Ok None.
Proof. vm_compute. reflexivity. Qed.

(* ================================================================== *)
(** * Further properties of the code *)
(* ================================================================== *)

(** ** Occurrences of a word *)

Lemma no_occurrence_cons ic w c t :
  no_occurrence ic w (c :: t) <->
  starts_with ic w (c :: t) = false /\ no_occurrence ic w t.
Proof.
  split.
  - intros H. split; [apply (H [] (c :: t) eq_refl)|].
    intros u1 u2 Hu. apply (H (c :: u1) u2). rewrite Hu. reflexivity.
  - intros [H0 H] u1 u2 Hu. destruct u1 as [|x u1]; cbn [app] in Hu.
    + subst u2. exact H0.
    + injection Hu as -> Hu. apply (H u1 u2 Hu).
Qed.

Lemma no_occurrence_nil ic w :
  no_occurrence ic w [] <-> starts_with ic w [] = false.
Proof.
  split.
  - intros H. apply (H [] [] eq_refl).
  - intros H u1 u2 Hu. symmetry in Hu. apply app_eq_nil in Hu as [_ ->]. exact H.
Qed.

Lemma free_of_cons w c t :
  free_of w (c :: t) = negb (starts_with true w (c :: t)) && free_of w t.
Proof. reflexivity. Qed.

Lemma free_of_no_occurrence w l : free_of w l = true <-> no_occurrence true w l.
Proof.
  induction l as [|c t IH].
  - rewrite no_occurrence_nil. cbn [free_of]. rewrite andb_true_r. apply negb_true_iff.
  - rewrite free_of_cons, no_occurrence_cons, andb_true_iff, negb_true_iff, IH. tauto.
Qed.

Lemma mismatch_within_starts w : forall l rest,
  mismatch_within w l = true -> starts_with true w (l ++ rest) = false.
Proof.
  induction w as [|c w IH]; intros [|x l] rest H; cbn [mismatch_within] in H;
    try discriminate.
  cbn [app starts_with]. destruct (char_matches true c x); [|reflexivity].
  cbn [negb orb andb] in *. apply IH. exact H.
Qed.

Lemma free_of_app_piece w piece l :
  piece_safe w piece = true -> free_of w (piece ++ l) = free_of w l.
Proof.
  induction piece as [|c t IH]; intros H; [reflexivity|].
  cbn [piece_safe] in H. apply andb_true_iff in H as [Hc Ht].
  cbn [app]. rewrite free_of_cons, (IH Ht).
  change (c :: t ++ l) with ((c :: t) ++ l).
  rewrite (mismatch_within_starts _ _ _ Hc). reflexivity.
Qed.

(** A word without [<] that starts a text up to some [<] and beyond
    would have to contain that [<]. *)
Lemma starts_with_before_lt w : forall l rest,
  no_lt w = true ->
  starts_with true w (l ++ "<"%char :: rest) = true -> starts_with true w l = true.
Proof.
  induction w as [|c w IH]; intros l rest Hw H; [reflexivity|].
  cbn [no_lt forallb] in Hw. apply andb_true_iff in Hw as [Hc Hw].
  destruct l as [|x l]; cbn [app starts_with] in *.
  - apply negb_true_iff in Hc. rewrite Hc in H. discriminate.
  - apply andb_true_iff in H as [Hx H]. rewrite Hx. apply (IH l rest Hw H).
Qed.

(** In front of a [<], a text free of the word stays free of it, when
    the word has no [<] after its first character. *)
Lemma free_of_app_lt w l rest :
  no_lt (tl w) = true -> free_of w l = true ->
  free_of w (l ++ "<"%char :: rest) = free_of w ("<"%char :: rest).
Proof.
  intros Hw. induction l as [|c t IH]; intros H; [reflexivity|].
  rewrite free_of_cons in H. apply andb_true_iff in H as [Hc Ht].
  cbn [app]. rewrite free_of_cons, (IH Ht).
  replace (starts_with true w (c :: t ++ "<"%char :: rest)) with false; [reflexivity|].
  symmetry. apply negb_true_iff in Hc.
  destruct w as [|c0 w]; [discriminate Hc|]. cbn [tl] in Hw.
  cbn [starts_with] in *. destruct (char_matches true c0 c); [|reflexivity].
  cbn [andb] in *. destruct (starts_with true w (t ++ "<"%char :: rest)) eqn:E; [|reflexivity].
  rewrite (starts_with_before_lt _ _ _ Hw E) in Hc. discriminate.
Qed.

(** ** Searching with a pattern *)

Lemma exec_from_none ic r l : forall prev,
  (forall u1 u2, l = u1 ++ u2 -> match_at ic r (rev u1 ++ prev) u2 = None) ->
  exec_from ic r prev l = None.
Proof.
  induction l as [|c t IH]; intros prev H.
  - pose proof (H [] [] eq_refl) as H0. cbn [rev app] in H0.
    cbn [exec_from]. rewrite H0. reflexivity.
  - pose proof (H [] (c :: t) eq_refl) as H0. cbn [rev app] in H0.
    cbn [exec_from]. rewrite H0. apply IH.
    intros u1 u2 Hu. specialize (H (c :: u1) u2). cbn [rev] in H.
    rewrite <- app_assoc in H. apply H. rewrite Hu. reflexivity.
Qed.

Lemma exec_from_none_inv ic r l : forall prev,
  exec_from ic r prev l = None ->
  forall u1 u2, l = u1 ++ u2 -> match_at ic r (rev u1 ++ prev) u2 = None.
Proof.
  induction l as [|c t IH]; intros prev H u1 u2 Hu.
  - symmetry in Hu. apply app_eq_nil in Hu as [-> ->]. cbn [exec_from] in H.
    cbn [rev app]. destruct (match_at ic r prev []); [discriminate | reflexivity].
  - cbn [exec_from] in H.
    destruct (match_at ic r prev (c :: t)) eqn:E; [discriminate|].
    destruct u1 as [|x u1]; cbn [app] in Hu.
    + subst u2. exact E.
    + injection Hu as -> Hu. cbn [rev]. rewrite <- app_assoc. apply (IH _ H u1 u2 Hu).
Qed.

(** Where the pattern matches nowhere, the global replacement changes
    nothing. *)
Lemma replace_from_none ic r n template l : forall prev,
  (forall u1 u2, l = u1 ++ u2 -> match_at ic r (rev u1 ++ prev) u2 = None) ->
  replace_from ic r n template 0 prev l = l.
Proof.
  induction l as [|c t IH]; intros prev H.
  - pose proof (H [] [] eq_refl) as H0. cbn [rev app] in H0.
    cbn [replace_from]. rewrite H0. reflexivity.
  - pose proof (H [] (c :: t) eq_refl) as H0. cbn [rev app] in H0.
    cbn [replace_from]. rewrite H0. f_equal. apply IH.
    intros u1 u2 Hu. specialize (H (c :: u1) u2). cbn [rev] in H.
    rewrite <- app_assoc in H. apply H. rewrite Hu. reflexivity.
Qed.

Lemma exec_from_skip_over ic r l : forall prev rest,
  (forall u1 u2, l = u1 ++ u2 -> u2 <> [] ->
     match_at ic r (rev u1 ++ prev) (u2 ++ rest) = None) ->
  exec_from ic r prev (l ++ rest) = exec_from ic r (rev l ++ prev) rest.
Proof.
  induction l as [|c t IH]; intros prev rest H; [reflexivity|].
  cbn [app rev]. rewrite <- app_assoc. cbn [app].
  rewrite <- IH.
  - pose proof (H [] (c :: t) eq_refl ltac:(discriminate)) as H0.
    cbn [rev app] in H0. cbn [exec_from]. rewrite H0. reflexivity.
  - intros u1 u2 Hu Hne. specialize (H (c :: u1) u2). cbn [rev] in H.
    rewrite <- app_assoc in H. apply H; [|exact Hne]. rewrite Hu. reflexivity.
Qed.

Lemma lit_chain_no_match ic w r prev rest :
  starts_with ic w rest = false -> match_at ic (lit_chain w r) prev rest = None.
Proof. intros H. unfold match_at. rewrite m_lit_chain, H. reflexivity. Qed.

(** A pattern that begins with a word finds nothing in a text without
    that word. *)
Lemma exec_from_word_absent ic w r l prev :
  no_occurrence ic w l -> exec_from ic (lit_chain w r) prev l = None.
Proof.
  intros H. apply exec_from_none. intros u1 u2 Hu.
  apply lit_chain_no_match, (H u1 u2 Hu).
Qed.

Lemma replace_word_absent ic w r n template l :
  no_occurrence ic w l ->
  regex_replace_all ic (lit_chain w r) n l template = l.
Proof.
  intros H. apply replace_from_none. intros u1 u2 Hu.
  apply lit_chain_no_match, (H u1 u2 Hu).
Qed.

Lemma take_length_suffix {A} (a b : list A) :
  take (length (a ++ b) - length b) (a ++ b) = a.
Proof.
  rewrite length_app. replace (length a + length b - length b) with (length a) by lia.
  apply take_app_length.
Qed.

Lemma drop_length_suffix {A} (a b : list A) :
  drop (length (a ++ b) - length b) (a ++ b) = b.
Proof.
  rewrite length_app. replace (length a + length b - length b) with (length a) by lia.
  apply drop_app_length.
Qed.

(** The replacement of the first match, when the first match is
    known. *)
Lemma replace_first_at re pre mid post y template :
  (forall u1 u2, pre = u1 ++ u2 -> u2 <> [] ->
     match_at (re_ignoreCase re) (re_pattern re) (rev u1) (u2 ++ mid ++ post) = None) ->
  match_at (re_ignoreCase re) (re_pattern re) (rev pre) (mid ++ post) = Some y ->
  mr_rest y = post ->
  String_replace_first (pre ++ mid ++ post) re template =
  pre ++ get_substitution mid pre post (mr_caps y) (re_ngroups re) template ++ post.
Proof.
  intros Hskip Hm Hrest. unfold String_replace_first, regex_exec.
  rewrite exec_from_skip_over.
  - rewrite app_nil_r, (exec_from_here _ _ _ _ _ Hm), Hrest.
    cbn [m_before m_text m_after m_captures].
    rewrite rev_involutive, take_length_suffix, drop_length_suffix. reflexivity.
  - intros u1 u2 Hu Hne. rewrite app_nil_r. apply (Hskip u1 u2 Hu Hne).
Qed.

Lemma replace_first_absent re s template :
  regex_exec (re_ignoreCase re) (re_pattern re) s = None ->
  String_replace_first s re template = s.
Proof. intros H. unfold String_replace_first. rewrite H. reflexivity. Qed.

(** ** A greedy star over a class *)

Lemma first_some {A} (x y : option A) z :
  x = Some z -> match x with Some v => Some v | None => y end = Some z.
Proof. intros ->. reflexivity. Qed.

(** The star takes every character of a run of the class, when the run
    ends in front of a character outside the class, or at the end, and
    the rest of the pattern matches there. *)
Lemma greedy_class_run ic invert items u :
  Forall (fun ch => xorb invert (char_set_found ic items ch) = true) u ->
  forall prev rest caps (k : Cont) z,
    match rest with
    | ch :: _ => xorb invert (char_set_found ic items ch) = false
    | [] => True
    end ->
    k (rev u ++ prev) rest caps = Some z ->
    m ic (RQuant (RClass invert items) 0 None true) prev (u ++ rest) caps k = Some z.
Proof.
  induction 1 as [|c u Hc Hu IH]; intros prev rest caps k z Hrest Hend.
  - cbn [rev app] in *. destruct rest as [|ch t].
    + matcher_steps. exact Hend.
    + rewrite greedy_class_stop by exact Hrest. exact Hend.
  - cbn [app]. matcher_steps. rewrite Hc, length_neq_succ.
    apply first_some. apply (IH (c :: prev) rest caps k z Hrest).
    cbn [rev] in Hend. rewrite <- app_assoc in Hend. exact Hend.
Qed.

Lemma not_gt_run (u : str) :
  ~ In ">"%char u ->
  Forall (fun ch => xorb true (char_set_found true [ClassRange ">" ">"] ch) = true) u.
Proof.
  intros H. apply List.Forall_forall. intros ch Hch. rewrite not_gt_found.
  apply negb_true_iff, char_eqb_neq. intros ->. exact (H Hch).
Qed.

(** ** A match ends where its continuation succeeds *)

Lemma fails_after_suffix rest s k :
  s `suffix_of` rest -> fails_after rest k -> fails_after s k.
Proof. intros Hs Hk p s' c Hs'. apply Hk. etrans; eassumption. Qed.

Section RepeatFails.
Variable body : str -> str -> gmap nat str -> Cont -> option MatchResult.
Variable parens : list nat.
Hypothesis body_needs : needs_continuation body.

Lemma repeat_matcher_fails fuel :
  forall mn mx greedy prev rest caps k,
    fails_after rest k ->
    repeat_matcher body parens fuel mn mx greedy prev rest caps k = None.
Proof using body_needs.
  induction fuel as [|fuel IH]; intros mn mx greedy prev rest caps k Hk; [reflexivity|].
  cbn [repeat_matcher].
  assert (Hhere : k prev rest caps = None) by (apply Hk; reflexivity).
  assert (Hbody : forall mx',
    body prev rest (clear_caps parens caps)
      (fun prev' rest' caps' =>
         if (mn =? 0) && (length rest' =? length rest) then None
         else repeat_matcher body parens fuel (pred mn) mx' greedy prev' rest' caps' k)
    = None).
  { intros mx'. apply body_needs. intros p s c Hs.
    destruct ((mn =? 0) && (length s =? length rest)); [reflexivity|].
    apply IH. eapply fails_after_suffix; eassumption. }
  destruct mx as [[|n]|]; [exact Hhere | |];
    rewrite Hbody, Hhere; destruct (negb (mn =? 0)), greedy; reflexivity.
Qed.
End RepeatFails.

Lemma m_fails ic r : needs_continuation (m ic r).
Proof.
  induction r as [ | c | | invert items | r1 IH1 r2 IH2 | r1 IH1 r2 IH2 | n r1 IH1
                 | r1 IH1 mn mx greedy | | | negated | negated r1 IH1 | n ];
    intros prev rest caps k Hk; cbn [m].
  - apply Hk. reflexivity.
  - destruct rest as [|ch t]; [reflexivity|].
    destruct (char_matches ic c ch); [|reflexivity]. apply Hk. apply suffix_cons_r. reflexivity.
  - destruct rest as [|ch t]; [reflexivity|].
    destruct (is_line_terminator ch); [reflexivity|]. apply Hk. apply suffix_cons_r. reflexivity.
  - destruct rest as [|ch t]; [reflexivity|].
    destruct (xorb invert (char_set_found ic items ch)); [|reflexivity].
    apply Hk. apply suffix_cons_r. reflexivity.
  - apply IH1. intros p s c Hs. apply IH2. eapply fails_after_suffix; eassumption.
  - rewrite (IH1 prev rest caps k Hk), (IH2 prev rest caps k Hk). reflexivity.
  - apply IH1. intros p s c Hs. apply Hk. exact Hs.
  - apply repeat_matcher_fails; [exact IH1 | exact Hk].
  - destruct prev; [apply Hk; reflexivity | reflexivity].
  - destruct rest; [apply Hk; reflexivity | reflexivity].
  - destruct (xorb negated _); [apply Hk; reflexivity | reflexivity].
  - destruct (m ic r1 prev rest caps accept); destruct negated; try reflexivity;
      apply Hk; reflexivity.
  - destruct (caps !! n) as [s|]; [|apply Hk; reflexivity].
    destruct (starts_with ic s rest); [|reflexivity].
    apply Hk. apply suffix_drop.
Qed.

(** A pattern that ends in a word matches nowhere in a text without
    that word. *)
Lemma m_word_absent ic r w text :
  no_occurrence ic w text ->
  forall prev rest caps k,
    rest `suffix_of` text ->
    m ic (RSeq r (lit_chain w REmpty)) prev rest caps k = None.
Proof.
  intros Hno prev rest caps k Hrest. rewrite m_seq. apply m_fails.
  intros p s c Hs. rewrite m_lit_chain.
  assert (Hsuf : s `suffix_of` text) by (etrans; eassumption).
  destruct Hsuf as [u Hu]. rewrite (Hno u s Hu). reflexivity.
Qed.

(** ** [extractEnmlBody] on any input *)

Lemma en_note_tail_fails text :
  no_occurrence true close_tag text ->
  forall prev rest caps k,
    rest `suffix_of` text -> m true en_note_tail prev rest caps k = None.
Proof.
  intros Hno prev rest caps k Hrest. unfold en_note_tail.
  rewrite m_seq. apply m_fails. intros p s c Hs.
  rewrite m_seq. apply m_fails. intros p' s' c' Hs'.
  apply (m_word_absent _ _ _ _ Hno). etrans; [exact Hs'|]. etrans; eassumption.
Qed.

Lemma piece_safe_suffix w piece u1 u2 :
  piece_safe w piece = true -> piece = u1 ++ u2 -> u2 <> [] ->
  mismatch_within w u2 = true.
Proof.
  revert piece. induction u1 as [|x u1 IH]; intros piece H Hp Hne; cbn [app] in Hp; subst piece.
  - destruct u2 as [|c t]; [contradiction|].
    cbn [piece_safe] in H. apply andb_true_iff in H as [H _]. exact H.
  - cbn [piece_safe] in H. apply andb_true_iff in H as [_ H].
    apply (IH _ H eq_refl Hne).
Qed.

(** The match of the whole pattern at an opening tag, with or without
    attributes. *)
Lemma match_en_note_attributes prev attrs body tail :
  ~ In ">"%char attrs ->
  no_occurrence true close_tag body ->
  exists p,
    match_at true (re_pattern re_en_note) prev
      (open_prefix ++ attrs ++ ">" ++ body ++ close_tag ++ tail) =
    Some {| mr_prev := p; mr_rest := tail; mr_caps := {[ 1 := body ]} |}.
Proof.
  intros Hattrs Hno. eexists. unfold match_at.
  rewrite re_en_note_pieces, m_lit_chain.
  rewrite starts_with_self, take_app_length, drop_app_length.
  unfold en_note_tail, class_not_gt, class_any. rewrite m_seq.
  apply greedy_class_run; [apply not_gt_run, Hattrs | reflexivity |].
  cbn [app]. rewrite m_seq, m_char, char_matches_refl, m_seq, m_group, m_seq.
  apply lazy_any_first.
  - apply any_found.
  - intros u1 u2 Hu Hne. rewrite m_empty, m_lit_chain.
    destruct (starts_with true close_tag (u2 ++ close_tag ++ tail)) eqn:E; [|reflexivity].
    apply close_tag_no_overlap in E as [E|E]; [contradiction|].
    rewrite (Hno u1 u2 Hu) in E. discriminate.
  - rewrite m_empty, m_lit_chain.
    rewrite starts_with_self, take_app_length, drop_app_length.
    rewrite m_empty. unfold accept. f_equal. f_equal.
    rewrite insert_empty. f_equal. rewrite !length_app.
    replace (length body + (length close_tag + length tail)
             - (length close_tag + length tail)) with (length body) by lia.
    apply take_app_length.
Qed.

Lemma extractEnmlBody_incomplete (enml : str) :
  no_occurrence true open_prefix enml \/ no_occurrence true close_tag enml ->
  extractEnmlBody enml = [].
Proof.
  intros H. unfold extractEnmlBody, String_match, regex_exec.
  change (re_ignoreCase re_en_note) with true.
  rewrite exec_from_none; [reflexivity|]. intros u1 u2 Hu.
  unfold match_at. rewrite re_en_note_pieces, m_lit_chain.
  destruct H as [Hopen|Hclose].
  - rewrite (Hopen u1 u2 Hu). reflexivity.
  - destruct (starts_with true open_prefix u2); [|reflexivity].
    apply (en_note_tail_fails _ Hclose).
    etrans; [apply suffix_drop|]. exists u1. exact Hu.
Qed.

Lemma extractEnmlBody_root (pre attrs body tail : str) :
  piece_safe open_prefix pre = true ->
  ~ In ">"%char attrs ->
  no_occurrence true close_tag body ->
  extractEnmlBody (pre ++ "<en-note" ++ attrs ++ ">" ++ body ++ "</en-note>" ++ tail) = body.
Proof.
  intros Hpre Hattrs Hno. unfold extractEnmlBody, String_match, regex_exec.
  change (re_ignoreCase re_en_note) with true.
  destruct (match_en_note_attributes (rev pre ++ []) attrs body tail Hattrs Hno) as [p Hp].
  rewrite exec_from_skip_over.
  - change ("<en-note" ++ attrs ++ ">" ++ body ++ "</en-note>" ++ tail)
      with (open_prefix ++ attrs ++ ">" ++ body ++ close_tag ++ tail).
    rewrite (exec_from_here _ _ _ _ _ Hp). cbn [m_captures mr_caps].
    unfold capture_text. rewrite lookup_singleton_eq. reflexivity.
  - intros u1 u2 Hu Hne. rewrite re_en_note_pieces.
    apply lit_chain_no_match, mismatch_within_starts.
    eapply piece_safe_suffix; eassumption.
Qed.

(** X1. Without an opening root tag, or without a closing one, the body is
    the empty string: [extractEnmlBody] never fails, and what is not
    inside a complete root element is not part of the body. *)
Theorem extract_incomplete_root (enml : str) :
  no_occurrence true open_prefix enml \/ no_occurrence true close_tag enml ->
  extractEnmlBody enml = [].
Proof. apply extractEnmlBody_incomplete. Qed.

Lemma extract_incomplete_root_witness :
  extractEnmlBody (xmlProlog ++ enmlDocType ++ "<en-note>milk") = [].
Proof.
  apply (extract_incomplete_root (xmlProlog ++ enmlDocType ++ "<en-note>milk")).
  right. apply free_of_no_occurrence. reflexivity.
Defined.

(** X2. The body is what stands between the first opening root tag, whatever
    its attributes, and the first closing root tag after it; the text
    before the root element and the text after its closing tag are
    dropped. *)
Theorem extract_root_element (pre attrs body tail : str) :
  piece_safe open_prefix pre = true ->
  ~ In ">"%char attrs ->
  no_occurrence true close_tag body ->
  extractEnmlBody (pre ++ "<en-note" ++ attrs ++ ">" ++ body ++ "</en-note>" ++ tail) = body.
Proof. apply extractEnmlBody_root. Qed.

Lemma extract_root_element_witness :
  extractEnmlBody
    ("<p>" ++ "<en-note" ++ " style=" ++ ">" ++ "a</en-note" ++ "</en-note>" ++ "b</en-note>")
  = "a</en-note".
Proof.
  apply (extract_root_element "<p>" " style=" "a</en-note" "b</en-note>").
  - reflexivity.
  - simpl. intros H. repeat destruct H as [H|H]; discriminate || contradiction.
  - apply free_of_no_occurrence. reflexivity.
Defined.

(** ** [enmlToHtml] *)

(** A tag with attributes, matched by its name, a greedy run without
    [>] and the [>]. *)
Lemma match_tag_attributes w attrs prev rest :
  ~ In ">"%char attrs ->
  match_at true
    (lit_chain w (RSeq (RQuant class_not_gt 0 None true) (RSeq (RChar ">") REmpty)))
    prev (w ++ attrs ++ ">" ++ rest) =
  Some {| mr_prev := ">"%char :: rev attrs ++ rev w ++ prev; mr_rest := rest; mr_caps := ∅ |}.
Proof.
  intros Hattrs. unfold match_at. rewrite m_lit_chain.
  rewrite starts_with_self, take_app_length, drop_app_length, m_seq.
  apply greedy_class_run; [apply not_gt_run, Hattrs | reflexivity |].
  cbn [app]. rewrite m_seq, m_char, char_matches_refl, m_empty. reflexivity.
Qed.

Lemma piece_safe_skip ic w r pre u1 u2 prev rest :
  ic = true -> piece_safe w pre = true -> pre = u1 ++ u2 -> u2 <> [] ->
  match_at ic (lit_chain w r) prev (u2 ++ rest) = None.
Proof.
  intros -> Hpre Hu Hne. apply lit_chain_no_match, mismatch_within_starts.
  eapply piece_safe_suffix; eassumption.
Qed.

(** The first tag of that name replaced by a text without [$]. *)
Lemma replace_first_tag re w attrs pre post template :
  re_pattern re
  = lit_chain w (RSeq (RQuant class_not_gt 0 None true) (RSeq (RChar ">") REmpty)) ->
  re_ignoreCase re = true ->
  piece_safe w pre = true ->
  ~ In ">"%char attrs ->
  no_dollar template ->
  String_replace_first (pre ++ (w ++ attrs ++ ">") ++ post) re template
  = pre ++ template ++ post.
Proof.
  intros Hre Hic Hpre Hattrs Ht.
  erewrite replace_first_at.
  - rewrite get_substitution_plain by exact Ht. reflexivity.
  - intros u1 u2 Hu Hne. rewrite Hre, <- !app_assoc.
    eapply piece_safe_skip; eassumption.
  - rewrite Hre, Hic, <- !app_assoc. apply match_tag_attributes, Hattrs.
  - reflexivity.
Qed.

(** The opening root tag becomes the opening tag of a [div] with the
    same attributes. *)
Lemma match_en_note_open attrs prev rest :
  ~ In ">"%char attrs ->
  match_at true (re_pattern re_en_note_open) prev ("<en-note" ++ attrs ++ ">" ++ rest) =
  Some {| mr_prev := ">"%char :: rev attrs ++ rev open_prefix ++ prev;
          mr_rest := rest;
          mr_caps := {[ 1 := attrs ]} |}.
Proof.
  intros Hattrs. unfold match_at.
  change (re_pattern re_en_note_open)
    with (lit_chain open_prefix
            (RSeq (RGroup 1 (RSeq (RQuant class_not_gt 0 None true) REmpty))
               (RSeq (RChar ">") REmpty))).
  change ("<en-note" ++ attrs ++ ">" ++ rest) with (open_prefix ++ attrs ++ ">" ++ rest).
  rewrite m_lit_chain, starts_with_self, take_app_length, drop_app_length.
  rewrite m_seq, m_group, m_seq.
  apply greedy_class_run; [apply not_gt_run, Hattrs | reflexivity |].
  rewrite m_empty. cbn [app]. rewrite m_seq, m_char, char_matches_refl, m_empty.
  unfold accept. f_equal. f_equal. rewrite insert_empty. f_equal.
  change (">"%char :: rest) with (">" ++ rest).
  apply take_length_suffix.
Qed.

Lemma div_template matched before after caps :
  get_substitution matched before after caps 1 "<div$1>" = "<div" ++ capture_text caps 1 ++ ">".
Proof. reflexivity. Qed.

Lemma replace_first_en_note_open attrs post :
  ~ In ">"%char attrs ->
  String_replace_first ("<en-note" ++ attrs ++ ">" ++ post) re_en_note_open "<div$1>"
  = "<div" ++ attrs ++ ">" ++ post.
Proof.
  intros Hattrs.
  assert (E : "<en-note" ++ attrs ++ ">" ++ post = [] ++ ("<en-note" ++ attrs ++ ">") ++ post)
    by (rewrite <- !app_assoc; reflexivity).
  rewrite E. clear E.
  rewrite (replace_first_at re_en_note_open [] ("<en-note" ++ attrs ++ ">") post
             {| mr_prev := ">"%char :: rev attrs ++ rev open_prefix ++ rev [];
                mr_rest := post;
                mr_caps := {[ 1 := attrs ]} |} "<div$1>").
  - rewrite div_template. unfold capture_text. cbn [mr_caps].
    rewrite lookup_singleton_eq. cbn [app]. rewrite <- app_assoc. reflexivity.
  - intros [|x u1] u2 Hu Hne; [|discriminate Hu]. cbn [app] in Hu. congruence.
  - change (re_ignoreCase re_en_note_open) with true. rewrite <- !app_assoc.
    apply match_en_note_open, Hattrs.
  - reflexivity.
Qed.

(** The first occurrence of a word replaced by a text without [$]. *)
Lemma replace_first_word re w pre post template :
  re_pattern re = lit_chain w REmpty ->
  (forall u1 u2, pre = u1 ++ u2 -> u2 <> [] ->
     starts_with (re_ignoreCase re) w (u2 ++ w ++ post) = false) ->
  no_dollar template ->
  String_replace_first (pre ++ w ++ post) re template = pre ++ template ++ post.
Proof.
  intros Hre Hpre Ht.
  erewrite replace_first_at.
  - rewrite get_substitution_plain by exact Ht. reflexivity.
  - intros u1 u2 Hu Hne. rewrite Hre. apply lit_chain_no_match, (Hpre u1 u2 Hu Hne).
  - rewrite Hre, match_at_lit_chain, starts_with_self, take_app_length, drop_app_length.
    reflexivity.
  - reflexivity.
Qed.

Lemma replace_first_en_note_close pre :
  no_occurrence true close_tag pre ->
  String_replace_first (pre ++ "</en-note>") re_en_note_close "</div>" = pre ++ "</div>".
Proof.
  intros Hno.
  change (pre ++ "</en-note>") with (pre ++ close_tag ++ []).
  rewrite (replace_first_word re_en_note_close close_tag pre [] "</div>").
  - reflexivity.
  - reflexivity.
  - intros u1 u2 Hu Hne. change (re_ignoreCase re_en_note_close) with true.
    destruct (starts_with true close_tag (u2 ++ close_tag ++ [])) eqn:E; [|reflexivity].
    apply close_tag_no_overlap in E as [E|E]; [contradiction|].
    rewrite (Hno u1 u2 Hu) in E. discriminate.
  - no_dollar.
Qed.

(** The three patterns for checklist items begin with the name of the
    element: a text without it is left as it is. *)
Lemma replace_todo_absent s :
  no_occurrence true todo_prefix s ->
  String_replace
    (String_replace (String_replace s re_todo_checked checkbox_checked)
       re_todo_unchecked checkbox_unchecked)
    re_todo checkbox_unchecked = s.
Proof.
  intros Hno. unfold String_replace.
  assert (H1 : exists r, re_pattern re_todo_checked = lit_chain todo_prefix r)
    by (eexists; reflexivity).
  assert (H2 : exists r, re_pattern re_todo_unchecked = lit_chain todo_prefix r)
    by (eexists; reflexivity).
  assert (H3 : exists r, re_pattern re_todo = lit_chain todo_prefix r)
    by (eexists; reflexivity).
  destruct H1 as [r1 ->], H2 as [r2 ->], H3 as [r3 ->].
  change (re_ignoreCase re_todo_checked) with true.
  change (re_ignoreCase re_todo_unchecked) with true.
  change (re_ignoreCase re_todo) with true.
  rewrite (replace_word_absent true todo_prefix r1 _ _ s Hno).
  rewrite (replace_word_absent true todo_prefix r2 _ _ s Hno).
  apply (replace_word_absent true todo_prefix r3 _ _ s Hno).
Qed.

(** White space *)
Lemma trim_start_id s :
  match s with c :: _ => is_js_space c = false | [] => True end -> trim_start s = s.
Proof. destruct s as [|c t]; [reflexivity|]. cbn [trim_start]. intros ->. reflexivity. Qed.

Lemma trim_id s : trimmed s -> trim s = s.
Proof.
  intros [H1 H2]. unfold trim. rewrite (trim_start_id s H1), (trim_start_id _ H2).
  apply rev_involutive.
Qed.

Lemma trim_start_space c s : is_js_space c = true -> trim_start (c :: s) = trim_start s.
Proof. intros H. cbn [trim_start]. rewrite H. reflexivity. Qed.

Lemma piece_safe_no_lt w attrs :
  ~ In "<"%char attrs -> piece_safe ("<"%char :: w) attrs = true.
Proof.
  induction attrs as [|c t IH]; intros H; [reflexivity|].
  cbn [piece_safe mismatch_within]. rewrite lt_matches.
  replace (c == "<") with false.
  - cbn [negb orb andb]. apply IH. intros Hin. apply H. right. exact Hin.
  - symmetry. apply char_eqb_neq. intros ->. apply H. left. reflexivity.
Qed.

Lemma no_occurrence_in_div w attrs body tail :
  piece_safe ("<"%char :: w) "<div" = true ->
  no_lt w = true ->
  ~ In "<"%char attrs ->
  mismatch_within ("<"%char :: w) ">" = true ->
  no_occurrence true ("<"%char :: w) body ->
  free_of ("<"%char :: w) ("<"%char :: tail) = true ->
  no_occurrence true ("<"%char :: w) ("<div" ++ attrs ++ ">" ++ body ++ "<" ++ tail).
Proof.
  intros Hdiv Hw Hattrs Hgt Hbody Htail. apply free_of_no_occurrence.
  rewrite free_of_app_piece by exact Hdiv.
  rewrite free_of_app_piece by (apply piece_safe_no_lt, Hattrs).
  rewrite free_of_app_piece by (cbn [piece_safe]; rewrite Hgt; reflexivity).
  cbn [app]. rewrite free_of_app_lt; [exact Htail | exact Hw |].
  apply free_of_no_occurrence, Hbody.
Qed.

(** A document with the prolog, the document type and one root element,
    up to the replacement of the checklist items: the root element
    becomes a [div] with the same attributes and the same body, when the
    body has no closing root tag. *)
Lemma enmlToHtml_steps attrs body :
  ~ In ">"%char attrs -> ~ In "<"%char attrs ->
  no_occurrence true close_tag body ->
  enmlToHtml (xmlProlog ++ enmlDocType ++ "<en-note" ++ attrs ++ ">" ++ body ++ "</en-note>")
  = String_replace
      (String_replace
         (String_replace ("<div" ++ attrs ++ ">" ++ body ++ "</div>")
            re_todo_checked checkbox_checked)
         re_todo_unchecked checkbox_unchecked)
      re_todo checkbox_unchecked.
Proof.
  intros Hgt Hlt Hclose. unfold enmlToHtml.
  set (root := "<en-note" ++ attrs ++ ">" ++ body ++ "</en-note>").
  (* the XML declaration *)
  change (xmlProlog ++ enmlDocType ++ root)
    with ([] ++ ("<?xml" ++ (" version=" ++ dquote ++ "1.0" ++ dquote ++ " encoding="
                              ++ dquote ++ "UTF-8" ++ dquote ++ "?") ++ ">")
             ++ (newline ++ enmlDocType ++ root)).
  rewrite (replace_first_tag re_xml_declaration "<?xml");
    [ | reflexivity | reflexivity | reflexivity
      | vm_compute; intros H; repeat destruct H as [H|H]; discriminate || contradiction
      | no_dollar ].
  (* the document type *)
  change ([] ++ [] ++ newline ++ enmlDocType ++ root)
    with (newline ++ ("<!DOCTYPE" ++ (" en-note SYSTEM " ++ dquote
                                        ++ "http://xml.evernote.com/pub/enml2.dtd" ++ dquote)
                        ++ ">") ++ root).
  rewrite (replace_first_tag re_doctype "<!DOCTYPE");
    [ | reflexivity | reflexivity | reflexivity
      | vm_compute; intros H; repeat destruct H as [H|H]; discriminate || contradiction
      | no_dollar ].
  (* white space *)
  change (newline ++ [] ++ root) with (chr 10 :: root).
  unfold trim. rewrite trim_start_space by reflexivity. fold (trim root).
  rewrite trim_id.
  2: { unfold root. split; [reflexivity|].
       rewrite !rev_app_distr. reflexivity. }
  (* the root element *)
  unfold root. rewrite (replace_first_en_note_open attrs _ Hgt).
  rewrite !app_assoc.
  rewrite replace_first_en_note_close.
  2: { rewrite <- !app_assoc, <- (app_nil_r body). apply free_of_no_occurrence.
       rewrite free_of_app_piece by reflexivity.
       rewrite free_of_app_piece by (apply piece_safe_no_lt, Hlt).
       rewrite free_of_app_piece by reflexivity.
       rewrite app_nil_r. apply free_of_no_occurrence, Hclose. }
  rewrite <- !app_assoc. reflexivity.
Qed.

(** The same without checklist items in the body. *)
Lemma enmlToHtml_root attrs body :
  ~ In ">"%char attrs -> ~ In "<"%char attrs ->
  no_occurrence true close_tag body ->
  no_occurrence true todo_prefix body ->
  enmlToHtml (xmlProlog ++ enmlDocType ++ "<en-note" ++ attrs ++ ">" ++ body ++ "</en-note>")
  = "<div" ++ attrs ++ ">" ++ body ++ "</div>".
Proof.
  intros Hgt Hlt Hclose Htodo. rewrite (enmlToHtml_steps attrs body Hgt Hlt Hclose).
  apply replace_todo_absent.
  apply (no_occurrence_in_div "en-todo" attrs body "/div>");
    [reflexivity | reflexivity | exact Hlt | reflexivity | exact Htodo | reflexivity].
Qed.

(** ** Documents read back as HTML *)

Lemma free_of_encode_le w :
  piece_safe w "<br />" = true ->
  piece_safe w [CR] = true ->
  (forall c, piece_safe w (escape_char c) = true) ->
  forall n s rest, length s <= n ->
    free_of w (encode_text s ++ rest) = free_of w rest.
Proof.
  intros Hbr Hcr Hesc. induction n as [|n IH]; intros s rest Hlen.
  - destruct s; [reflexivity | simpl in Hlen; lia].
  - destruct s as [|c t]; [reflexivity|]. simpl in Hlen. cbn [encode_text].
    destruct (c == CR) eqn:Ec.
    + apply char_eqb_eq in Ec. subst c.
      destruct t as [|d t']; [apply (free_of_app_piece w [CR] rest Hcr)|].
      destruct (d == LF).
      * rewrite <- app_assoc, free_of_app_piece by exact Hbr.
        apply IH. simpl in Hlen. lia.
      * change (CR :: encode_text (d :: t')) with ([CR] ++ encode_text (d :: t')).
        rewrite <- app_assoc, free_of_app_piece by exact Hcr. apply IH. lia.
    + destruct (c == LF).
      * rewrite <- app_assoc, free_of_app_piece by exact Hbr. apply IH. lia.
      * rewrite <- app_assoc, free_of_app_piece by apply Hesc.
        apply IH. lia.
Qed.

Lemma escape_char_safe_close c : piece_safe close_tag (escape_char c) = true.
Proof. each_char c; reflexivity. Qed.

Lemma escape_char_safe_todo c : piece_safe todo_prefix (escape_char c) = true.
Proof. each_char c; reflexivity. Qed.

(** The body of a plain-text document holds neither a closing root tag
    nor a checklist item. *)
Lemma plain_text_body_free (text : str) :
  no_occurrence true close_tag ("<div>" ++ encode_text text ++ "</div>") /\
  no_occurrence true todo_prefix ("<div>" ++ encode_text text ++ "</div>").
Proof.
  split; apply free_of_no_occurrence.
  - rewrite free_of_app_piece by reflexivity.
    rewrite (free_of_encode_le close_tag eq_refl eq_refl escape_char_safe_close
               (length text)) by lia.
    reflexivity.
  - rewrite free_of_app_piece by reflexivity.
    rewrite (free_of_encode_le todo_prefix eq_refl eq_refl escape_char_safe_todo
               (length text)) by lia.
    reflexivity.
Qed.

Lemma not_in_nil {A} (x : A) : ~ In x [].
Proof. intros []. Qed.

(** X3. [enmlToHtml] on a document with the prolog, the document type and
    one root element: the root element becomes a [div] that keeps the
    attributes and the body, and nothing else is left, when the
    attributes hold no angle bracket and the body holds no closing root
    tag and no checklist item. *)
Theorem enmlToHtml_document (attrs body : str) :
  ~ In ">"%char attrs -> ~ In "<"%char attrs ->
  no_occurrence true close_tag body ->
  no_occurrence true todo_prefix body ->
  enmlToHtml (xmlProlog ++ enmlDocType ++ "<en-note" ++ attrs ++ ">" ++ body ++ "</en-note>")
  = "<div" ++ attrs ++ ">" ++ body ++ "</div>".
Proof. apply enmlToHtml_root. Qed.

Lemma enmlToHtml_document_witness :
  enmlToHtml (xmlProlog ++ enmlDocType ++ "<en-note" ++ " lang=en" ++ ">"
                ++ "<b>hi</b>" ++ "</en-note>")
  = "<div" ++ " lang=en" ++ ">" ++ "<b>hi</b>" ++ "</div>".
Proof.
  apply (enmlToHtml_document " lang=en" "<b>hi</b>").
  - simpl. intros H. repeat destruct H as [H|H]; discriminate || contradiction.
  - simpl. intros H. repeat destruct H as [H|H]; discriminate || contradiction.
  - apply free_of_no_occurrence. reflexivity.
  - apply free_of_no_occurrence. reflexivity.
Defined.

(** X4. Read as HTML, a note whose content this node made from plain text
    comes back as the encoded text in two nested [div]s, with the title
    as stored and the digest of the content in hexadecimal: the read
    operation undoes the wrapping of [plainTextToEnml], not its
    escaping. *)
Theorem read_html_of_plain_text (note : FullNote) (text : str) :
  fn_content note = Some (plainTextToEnml text) ->
  readOutput "html" note =
  {| out_title := fn_title note;
     out_content := Some ("<div><div>" ++ encode_text text ++ "</div></div>");
     out_contentHash := option_map to_hex (fn_contentHash note) |}.
Proof.
  intros Hc. unfold readOutput. rewrite Hc, plainTextToEnml_encode.
  destruct (plain_text_body_free text) as [Hclose Htodo].
  pose proof (enmlToHtml_root [] _ (not_in_nil _) (not_in_nil _) Hclose Htodo) as E.
  cbn [app] in E. cbn [wrapEnmlBody app xmlProlog enmlDocType dquote newline].
  unfold wrapEnmlBody. cbn [app xmlProlog enmlDocType dquote newline].
  cbn [xmlProlog enmlDocType dquote newline app] in E.
  change (str_eqb "html" "html") with true. cbv iota.
  unfold transformNote. cbn [out_title out_content out_contentHash].
  f_equal. f_equal. rewrite E. rewrite <- !app_assoc. reflexivity.
Qed.

Lemma read_html_of_plain_text_witness :
  readOutput "html" sample_full_note =
  {| out_title := fn_title sample_full_note;
     out_content := Some ("<div><div>" ++ encode_text "a < b" ++ "</div></div>");
     out_contentHash := option_map to_hex (fn_contentHash sample_full_note) |}.
Proof. apply (read_html_of_plain_text sample_full_note "a < b"). reflexivity. Defined.

(** ** The append mode *)

Lemma or_else_empty (content : option str) :
  or_else content [] = match content with Some c => c | None => [] end.
Proof. destruct content as [[|c t]|]; reflexivity. Qed.

Lemma editContent_append h p note :
  contentEditingMode p = "append" ->
  contentMode p <> "html" ->
  editContent h p note =
  Ok (wrapEnmlBody
        (extractEnmlBody (or_else (note_content note) "")
         ++ "<div>" ++ encode_text (plainContent p) ++ "</div>")).
Proof.
  intros Hm Hc. unfold editContent, encodeContent. rewrite Hm, (proj2 (str_eqb_neq _ _) Hc).
  eval_str_eqb. rewrite extract_plainTextToEnml. reflexivity.
Qed.

(** X5. Appending plain text to a note with a root element: the new content
    is the body of that element followed by the encoded text in one
    [div], wrapped afresh. The attributes of the root element and
    whatever stood before the root element or after its closing tag are
    not carried over. *)
Theorem append_plain_text (h : Host) (p : UpdateParams) (note : ExistingNote)
    (pre attrs body tail : str) :
  contentEditingMode p = "append" ->
  contentMode p <> "html" ->
  note_content note
    = Some (pre ++ "<en-note" ++ attrs ++ ">" ++ body ++ "</en-note>" ++ tail) ->
  piece_safe open_prefix pre = true ->
  ~ In ">"%char attrs ->
  no_occurrence true close_tag body ->
  editContent h p note =
  Ok (wrapEnmlBody (body ++ "<div>" ++ encode_text (plainContent p) ++ "</div>")).
Proof.
  intros Hm Hc Hn Hpre Hattrs Hbody.
  rewrite (editContent_append h p note Hm Hc), Hn, or_else_empty.
  rewrite (extractEnmlBody_root pre attrs body tail Hpre Hattrs Hbody). reflexivity.
Qed.

Lemma append_plain_text_witness :
  editContent sample_host (sample_append "eggs") sample_styled_note =
  Ok (wrapEnmlBody ("milk" ++ "<div>" ++ encode_text "eggs" ++ "</div>")).
Proof.
  apply (append_plain_text sample_host (sample_append "eggs") sample_styled_note
           (xmlProlog ++ enmlDocType) " lang=en" "milk" "<!-- end -->").
  - reflexivity.
  - discriminate.
  - reflexivity.
  - reflexivity.
  - simpl. intros H. repeat destruct H as [H|H]; discriminate || contradiction.
  - apply free_of_no_occurrence. reflexivity.
Defined.

(** X6. Appending to a note without content, or with a content that has no
    opening or no closing root tag, gives what the replace mode gives:
    the existing content counts as an empty body and is lost. *)
Theorem append_without_root (h : Host) (p : UpdateParams) (note : ExistingNote) :
  contentEditingMode p = "append" ->
  contentMode p <> "html" ->
  match note_content note with
  | Some c => no_occurrence true open_prefix c \/ no_occurrence true close_tag c
  | None => True
  end ->
  editContent h p note = Ok (plainTextToEnml (plainContent p)).
Proof.
  intros Hm Hc Hn. rewrite (editContent_append h p note Hm Hc), or_else_empty.
  rewrite plainTextToEnml_encode. f_equal. f_equal.
  destruct (note_content note) as [c|]; [|reflexivity].
  rewrite (extractEnmlBody_incomplete c Hn). reflexivity.
Qed.

Lemma append_without_root_witness :
  editContent sample_host (sample_append "eggs") sample_truncated_note =
  Ok (plainTextToEnml "eggs").
Proof.
  apply (append_without_root sample_host (sample_append "eggs") sample_truncated_note).
  - reflexivity.
  - discriminate.
  - right. apply free_of_no_occurrence. reflexivity.
Defined.

(** X7. Two appends in a row, the second on the content that the first
    produced, add up: the body is the original body followed by the two
    encoded texts, each in its own [div], in the order of the appends. *)
Theorem append_twice (h : Host) (p1 p2 : UpdateParams) (note1 note2 : ExistingNote)
    (body content1 : str) :
  contentEditingMode p1 = "append" -> contentMode p1 <> "html" ->
  contentEditingMode p2 = "append" -> contentMode p2 <> "html" ->
  note_content note1 = Some (wrapEnmlBody body) ->
  no_occurrence true close_tag body ->
  editContent h p1 note1 = Ok content1 ->
  note_content note2 = Some content1 ->
  editContent h p2 note2 =
  Ok (wrapEnmlBody
        (body ++ ("<div>" ++ encode_text (plainContent p1) ++ "</div>")
              ++ ("<div>" ++ encode_text (plainContent p2) ++ "</div>"))).
Proof.
  intros Hm1 Hc1 Hm2 Hc2 Hn1 Hbody H1 Hn2.
  rewrite (editContent_append h p1 note1 Hm1 Hc1), Hn1, or_else_empty in H1.
  rewrite (extract_wrap body Hbody) in H1. injection H1 as <-.
  rewrite (editContent_append h p2 note2 Hm2 Hc2), Hn2, or_else_empty.
  rewrite extract_wrap; [rewrite <- app_assoc; reflexivity|].
  apply free_of_no_occurrence. cbn [app].
  rewrite free_of_app_lt; [| reflexivity | apply free_of_no_occurrence, Hbody].
  apply free_of_no_occurrence.
  apply (plain_text_body_free (plainContent p1)).
Qed.

Lemma append_twice_witness :
  editContent sample_host (sample_append "eggs")
    {| note_title := None;
       note_content := Some (wrapEnmlBody ("price: $5.00" ++ "<div>" ++ encode_text "milk"
                                             ++ "</div>")) |} =
  Ok (wrapEnmlBody
        ("price: $5.00" ++ ("<div>" ++ encode_text (plainContent (sample_append "milk"))
                              ++ "</div>")
           ++ ("<div>" ++ encode_text (plainContent (sample_append "eggs")) ++ "</div>"))).
Proof.
  apply (append_twice sample_host (sample_append "milk") (sample_append "eggs")
           sample_note _ "price: $5.00"
           (wrapEnmlBody ("price: $5.00" ++ "<div>" ++ encode_text "milk" ++ "</div>"))).
  - reflexivity.
  - discriminate.
  - reflexivity.
  - discriminate.
  - reflexivity.
  - apply free_of_no_occurrence. reflexivity.
  - vm_compute. reflexivity.
  - reflexivity.
Defined.

(** ** Search and replace without a match *)

Lemma replace_without_match ic r n s template :
  regex_test ic r s = false -> regex_replace_all ic r n s template = s.
Proof.
  unfold regex_test, regex_exec. intros H.
  destruct (exec_from ic r [] s) eqn:E; [discriminate|].
  apply replace_from_none. apply (exec_from_none_inv _ _ _ _ E).
Qed.

Lemma searchReplaceContent_compiled content searchValue useRegex caseSensitive replaceValue r n :
  searchValue <> [] ->
  compile (searchPattern searchValue useRegex) = Pattern r n ->
  searchReplaceContent content searchValue useRegex caseSensitive replaceValue =
  Ok (wrapEnmlBody
        (regex_replace_all (negb caseSensitive) r n
           (extractEnmlBody (or_else content "")) replaceValue)).
Proof.
  intros Hne Hr. unfold searchReplaceContent.
  destruct searchValue as [|c s] eqn:Es; [contradiction|]. rewrite <- Es in *.
  replace (nonempty searchValue) with true by (rewrite Es; reflexivity).
  cbn [negb]. cbv iota. rewrite Hr. reflexivity.
Qed.

(** X8. A search that finds nothing changes nothing in the body, whatever
    the replacement: with a pattern, when the pattern matches nowhere in
    the body; with a literal search value, when the value does not occur
    in the body. The content is still wrapped afresh; for a content that
    [wrapEnmlBody] made it is the same content. *)
Theorem search_without_match (content : option str) (searchValue replaceValue : str)
    (useRegex caseSensitive : bool) :
  searchValue <> [] ->
  (forall r n,
     compile (searchPattern searchValue useRegex) = Pattern r n ->
     regex_test (negb caseSensitive) r (extractEnmlBody (or_else content "")) = false ->
     searchReplaceContent content searchValue useRegex caseSensitive replaceValue =
     Ok (wrapEnmlBody (extractEnmlBody (or_else content "")))) /\
  (no_occurrence (negb caseSensitive) searchValue (extractEnmlBody (or_else content "")) ->
   searchReplaceContent content searchValue false caseSensitive replaceValue =
   Ok (wrapEnmlBody (extractEnmlBody (or_else content "")))) /\
  (forall body,
     content = Some (wrapEnmlBody body) ->
     no_occurrence true close_tag body ->
     no_occurrence (negb caseSensitive) searchValue body ->
     searchReplaceContent content searchValue false caseSensitive replaceValue =
     Ok (wrapEnmlBody body)).
Proof.
  intros Hne.
  assert (Hlit : forall body,
    extractEnmlBody (or_else content "") = body ->
    no_occurrence (negb caseSensitive) searchValue body ->
    searchReplaceContent content searchValue false caseSensitive replaceValue =
    Ok (wrapEnmlBody body)).
  { intros body Hb Hno.
    rewrite (searchReplaceContent_compiled _ _ _ _ _ _ _ Hne
               (literal_pattern_compiles searchValue)).
    rewrite Hb, (replace_word_absent _ _ _ _ _ _ Hno). reflexivity. }
  split; [|split].
  - intros r n Hr Ht.
    rewrite (searchReplaceContent_compiled _ _ _ _ _ _ _ Hne Hr).
    rewrite (replace_without_match _ _ _ _ _ Ht). reflexivity.
  - apply Hlit. reflexivity.
  - intros body -> Hclose Hno. apply Hlit; [|exact Hno].
    rewrite or_else_empty. apply extract_wrap, Hclose.
Qed.

Lemma search_without_match_witness :
  searchReplaceContent (note_content sample_note) "EUR" false false "USD" =
  Ok (wrapEnmlBody "price: $5.00").
Proof.
  refine (proj2 (proj2 (search_without_match (note_content sample_note) "EUR" "USD"
                          false false _)) "price: $5.00" _ _ _).
  - discriminate.
  - reflexivity.
  - apply free_of_no_occurrence. reflexivity.
  - apply free_of_no_occurrence. reflexivity.
Defined.

(** X9. With the regular-expression switch off, no search value makes the
    update fail with the error of an invalid regular expression: the
    escaped search value always compiles. *)
Theorem literal_search_never_invalid (h : Host) (p : UpdateParams) :
  useRegex p = false ->
  snd (update h p) <> Throw InvalidRegularExpression /\
  forall note, editContent h p note <> Throw InvalidRegularExpression
               /\ editContent h p note <> Uncovered.
Proof.
  intros Hu.
  assert (Hedit : forall note,
    editContent h p note <> Throw InvalidRegularExpression
    /\ editContent h p note <> Uncovered).
  { intros note. unfold editContent.
    destruct (str_eqb (contentEditingMode p) "keep"); [split; discriminate|].
    destruct (str_eqb (contentEditingMode p) "replace"); [split; discriminate|].
    destruct (str_eqb (contentEditingMode p) "append"); [split; discriminate|].
    destruct (str_eqb (contentEditingMode p) "searchReplace"); [|split; discriminate].
    rewrite Hu. unfold searchReplaceContent.
    destruct (nonempty (searchValue p)); cbn [negb]; cbv iota; [|split; discriminate].
    rewrite literal_pattern_compiles. split; discriminate. }
  split; [|exact Hedit].
  intros H. destruct (update_edit_errors h p _ H (or_intror eq_refl))
    as (att & note & _ & _ & He & _).
  exact (proj1 (Hedit note) He).
Qed.

Lemma literal_search_never_invalid_witness :
  snd (update sample_host (sample_update "searchReplace" "ignore" "" "(" "x" "" "" false))
    <> Throw InvalidRegularExpression /\
  forall note,
    editContent sample_host (sample_update "searchReplace" "ignore" "" "(" "x" "" "" false) note
      <> Throw InvalidRegularExpression
    /\ editContent sample_host (sample_update "searchReplace" "ignore" "" "(" "x" "" "" false) note
      <> Uncovered.
Proof.
  apply (literal_search_never_invalid sample_host
           (sample_update "searchReplace" "ignore" "" "(" "x" "" "" false)).
  reflexivity.
Defined.

(** ** Lists of names *)

Lemma split_on_no_sep sep s : ~ In sep s -> split_on sep s = [s].
Proof.
  induction s as [|c s IH]; intros H; [reflexivity|].
  cbn [split_on]. replace (c == sep) with false.
  - rewrite IH; [reflexivity|]. intros Hin. apply H. right. exact Hin.
  - symmetry. apply char_eqb_neq. intros ->. apply H. left. reflexivity.
Qed.

Lemma split_on_app_sep sep s rest :
  ~ In sep s -> split_on sep (s ++ sep :: rest) = s :: split_on sep rest.
Proof.
  induction s as [|c s IH]; intros H.
  - cbn [app split_on]. rewrite char_eqb_refl. reflexivity.
  - cbn [app split_on]. replace (c == sep) with false.
    + rewrite IH; [reflexivity|]. intros Hin. apply H. right. exact Hin.
    + symmetry. apply char_eqb_neq. intros ->. apply H. left. reflexivity.
Qed.

Lemma split_on_join_with sep (l : list str) :
  l <> [] -> Forall (fun s => ~ In sep s) l -> split_on sep (join_with sep l) = l.
Proof.
  intros Hne H. induction H as [|s l Hs Hl IH]; [contradiction|].
  destruct l as [|s' l'].
  - cbn [join_with]. apply split_on_no_sep, Hs.
  - cbn [join_with]. rewrite split_on_app_sep by exact Hs.
    f_equal. apply IH. discriminate.
Qed.

(** X10. Joined with commas and split again, a list of names comes back as it
    was, when each name is non-empty, has no white space at either end
    and holds no comma. The same for the names of binary properties. *)
Theorem splitTags_join (names : list str) :
  Forall (fun name => name <> [] /\ trimmed name /\ ~ In ","%char name) names ->
  splitTags (join_with "," names) = names /\
  parseBinaryPropertyNames (join_with "," names) = names.
Proof.
  intros H.
  assert (E : List.filter nonempty (map trim (split_on "," (join_with "," names))) = names).
  { destruct names as [|n0 names0]; [reflexivity|].
    rewrite split_on_join_with.
    - induction H as [|name names (Hne & Htr & _) _ IH]; [reflexivity|].
      cbn [map List.filter]. rewrite (trim_id name Htr).
      apply nonempty_true in Hne. rewrite Hne, IH. reflexivity.
    - discriminate.
    - eapply Forall_impl; [exact H|]. intros name (_ & _ & Hc). exact Hc. }
  split; exact E.
Qed.

Lemma splitTags_join_witness :
  splitTags (join_with "," ["to do"; "home"]) = ["to do"; "home"] /\
  parseBinaryPropertyNames (join_with "," ["to do"; "home"]) = ["to do"; "home"].
Proof.
  apply (splitTags_join ["to do"; "home"]).
  repeat constructor; try discriminate;
    simpl; intros H; repeat destruct H as [H|H]; discriminate || contradiction.
Defined.

(** ** The set of the existing and the requested tag names *)

Lemma Set_spread_fold_id (l : list str) : forall acc,
  List.NoDup (acc ++ l) ->
  foldl (fun acc x => if includes acc x then acc else acc ++ [x]) acc l = acc ++ l.
Proof.
  induction l as [|x l IH]; intros acc H; cbn [foldl]; [rewrite app_nil_r; reflexivity|].
  replace (includes acc x) with false.
  - rewrite IH; rewrite <- app_assoc; [reflexivity | exact H].
  - symmetry. apply includes_not_In. intros Hin.
    apply List.NoDup_remove_2 in H. apply H. apply in_app_iff. left. exact Hin.
Qed.

Lemma Set_spread_fold_in (l : list str) : forall acc,
  (forall x, In x l -> In x acc) ->
  foldl (fun acc x => if includes acc x then acc else acc ++ [x]) acc l = acc.
Proof.
  induction l as [|x l IH]; intros acc H; cbn [foldl]; [reflexivity|].
  replace (includes acc x) with true.
  - apply IH. intros y Hy. apply H. right. exact Hy.
  - symmetry. apply includes_In, H. left. reflexivity.
Qed.

Lemma Set_spread_app (a b : list str) :
  Set_spread (a ++ b) =
  foldl (fun acc x => if includes acc x then acc else acc ++ [x]) (Set_spread a) b.
Proof. unfold Set_spread. apply foldl_app. Qed.

Lemma Set_spread_id (l : list str) : List.NoDup l -> Set_spread l = l.
Proof. intros H. unfold Set_spread. rewrite Set_spread_fold_id; [reflexivity | exact H]. Qed.

(** What the set adds to existing names without repetition: the
    existing names stay in front, in their order. *)
Lemma Set_spread_existing (existing tags : list str) :
  List.NoDup existing ->
  exists added,
    Set_spread (existing ++ tags) = existing ++ added /\
    List.NoDup added /\
    forall t, In t added <-> In t tags /\ ~ In t existing.
Proof.
  intros Hnd. rewrite Set_spread_app, (Set_spread_id _ Hnd).
  revert existing Hnd. induction tags as [|x tags IH]; intros existing Hnd; cbn [foldl].
  - exists []. rewrite app_nil_r. split; [reflexivity|]. split; [constructor|].
    intros t. cbn. tauto.
  - destruct (includes existing x) eqn:E.
    + destruct (IH existing Hnd) as (added & H1 & H2 & H3).
      exists added. split; [exact H1|]. split; [exact H2|].
      intros t. rewrite H3. cbn. apply includes_In in E.
      split; [tauto|]. intros [[<-|H] Hn]; [contradiction | auto].
    + apply includes_not_In in E.
      assert (Hnd' : List.NoDup (existing ++ [x])).
      { apply List.NoDup_app.
        - exact Hnd.
        - constructor; [intros [] | constructor].
        - intros y Hy [->|[]]. contradiction. }
      destruct (IH _ Hnd') as (added & H1 & H2 & H3).
      exists (x :: added). rewrite H1, <- app_assoc. split; [reflexivity|].
      split.
      * constructor; [|exact H2]. intros Hin. apply H3 in Hin as [_ Hn].
        apply Hn, in_app_iff. right. left. reflexivity.
      * intros t. cbn. rewrite H3, in_app_iff. cbn.
        split.
        -- intros [<-|[Ht Hn]]; [tauto|]. split; [tauto|]. intros Hin. apply Hn. tauto.
        -- intros [[<-|Ht] Hn]; [tauto|].
           destruct (decide (x = t)) as [->|Hxt]; [tauto|]. right. split; [exact Ht|].
           intros [Hin|[Heq|[]]]; [contradiction | congruence].
Qed.

Lemma reconcileTags_add_result h p existing :
  tagsMode p = "add" ->
  getNoteTagNames h (noteGuid p) = inr existing ->
  snd (reconcileTags h p) = Ok (Set_spread (existing ++ splitTags (tagsRaw p))).
Proof. intros Hm He. unfold reconcileTags. rewrite Hm, He. reflexivity. Qed.

Lemma reconcileTags_remove_result h p existing :
  tagsMode p = "remove" ->
  getNoteTagNames h (noteGuid p) = inr existing ->
  snd (reconcileTags h p) =
  Ok (List.filter (fun tag => negb (includes (splitTags (tagsRaw p)) tag)) existing).
Proof. intros Hm He. unfold reconcileTags. rewrite Hm, He. reflexivity. Qed.

Lemma reconcileTags_add_appends (h : Host) (p : UpdateParams) (existing : list str) :
  tagsMode p = "add" ->
  getNoteTagNames h (noteGuid p) = inr existing ->
  List.NoDup existing ->
  exists added,
    snd (reconcileTags h p) = Ok (existing ++ added) /\
    List.NoDup added /\
    forall t, In t added <-> In t (splitTags (tagsRaw p)) /\ ~ In t existing.
Proof.
  intros Hm He Hnd. rewrite (reconcileTags_add_result h p existing Hm He).
  destruct (Set_spread_existing existing (splitTags (tagsRaw p)) Hnd) as (added & H1 & H2 & H3).
  exists added. rewrite H1. auto.
Qed.

(** X11. In the add mode the existing tag names, when the store returns them
    without repetition, stay in front and in their order; the requested
    names that are new follow, each once. *)
Theorem add_mode_appends (h : Host) (p : UpdateParams) (existing : list str) :
  tagsMode p = "add" ->
  getNoteTagNames h (noteGuid p) = inr existing ->
  List.NoDup existing ->
  exists added,
    snd (reconcileTags h p) = Ok (existing ++ added) /\
    List.NoDup added /\
    forall t, In t added <-> In t (splitTags (tagsRaw p)) /\ ~ In t existing.
Proof. apply reconcileTags_add_appends. Qed.

Lemma add_mode_appends_witness :
  exists added,
    snd (reconcileTags sample_host sample_add) = Ok (["a"; "b"] ++ added) /\
    List.NoDup added /\
    forall t, In t added <-> In t (splitTags (tagsRaw sample_add)) /\ ~ In t ["a"; "b"].
Proof.
  apply (add_mode_appends sample_host sample_add ["a"; "b"]).
  - reflexivity.
  - reflexivity.
  - repeat constructor; simpl; intros H; repeat destruct H as [H|H]; discriminate || contradiction.
Defined.

(** X12. The same request a second time changes nothing: adding to the tag
    names that an add produced gives those names again, and removing
    from the names that a remove produced gives those again. *)
Theorem tag_request_twice (h h' : Host) (p : UpdateParams) (tags : list str) :
  tagsMode p = "add" \/ tagsMode p = "remove" ->
  snd (reconcileTags h p) = Ok tags ->
  getNoteTagNames h' (noteGuid p) = inr tags ->
  snd (reconcileTags h' p) = Ok tags.
Proof.
  intros Hm H1 H2.
  destruct (getNoteTagNames h (noteGuid p)) as [message|existing] eqn:He.
  { unfold reconcileTags in H1. destruct Hm as [Hm|Hm]; rewrite Hm, He in H1; discriminate. }
  destruct Hm as [Hm|Hm].
  - rewrite (reconcileTags_add_result h p existing Hm He) in H1. injection H1 as <-.
    rewrite (reconcileTags_add_result h' p _ Hm H2). f_equal.
    rewrite Set_spread_app, (Set_spread_id _ (Set_spread_NoDup _)).
    apply Set_spread_fold_in. intros x Hx. apply Set_spread_In, in_app_iff. right. exact Hx.
  - rewrite (reconcileTags_remove_result h p existing Hm He) in H1. injection H1 as <-.
    rewrite (reconcileTags_remove_result h' p _ Hm H2). f_equal.
    clear He H2. induction existing as [|x existing IH]; [reflexivity|]. cbn [List.filter].
    destruct (negb (includes (splitTags (tagsRaw p)) x)) eqn:E; [|exact IH].
    cbn [List.filter]. rewrite E, IH. reflexivity.
Qed.

Lemma tag_request_twice_witness :
  snd (reconcileTags (host_with_tags ["a"; "b"; "c"]) sample_add) = Ok ["a"; "b"; "c"].
Proof.
  apply (tag_request_twice sample_host (host_with_tags ["a"; "b"; "c"]) sample_add).
  - left. reflexivity.
  - reflexivity.
  - reflexivity.
Defined.

(** X13. Removing the names that were just added gives back the tag names
    from before the add, when none of them was among the requested
    names and the store returned them without repetition. *)
Theorem add_then_remove (h h' : Host) (p p' : UpdateParams) (existing tags : list str) :
  tagsMode p = "add" -> tagsMode p' = "remove" ->
  tagsRaw p' = tagsRaw p -> noteGuid p' = noteGuid p ->
  getNoteTagNames h (noteGuid p) = inr existing ->
  List.NoDup existing ->
  (forall t, In t existing -> ~ In t (splitTags (tagsRaw p))) ->
  snd (reconcileTags h p) = Ok tags ->
  getNoteTagNames h' (noteGuid p) = inr tags ->
  snd (reconcileTags h' p') = Ok existing.
Proof.
  intros Hm Hm' Hraw Hguid He Hnd Hdis H1 H2.
  destruct (reconcileTags_add_appends h p existing Hm He Hnd) as (added & Ha & _ & Hadded).
  rewrite Ha in H1. injection H1 as <-.
  rewrite <- Hguid in H2. rewrite (reconcileTags_remove_result h' p' _ Hm' H2), Hraw. f_equal.
  rewrite List.filter_app.
  replace (List.filter _ added) with (@nil str).
  - rewrite app_nil_r. apply forallb_filter_id. apply forallb_forall.
    intros t Ht. apply negb_true_iff, includes_not_In, Hdis, Ht.
  - symmetry. clear -Hadded.
    assert (H : forall t, In t added -> In t (splitTags (tagsRaw p))) by (intros t Ht; apply Hadded, Ht).
    clear Hadded. induction added as [|x added IH]; [reflexivity|]. cbn [List.filter].
    replace (includes (splitTags (tagsRaw p)) x) with true.
    + cbn [negb]. apply IH. intros t Ht. apply H. right. exact Ht.
    + symmetry. apply includes_In, H. left. reflexivity.
Qed.

Lemma add_then_remove_witness :
  snd (reconcileTags (host_with_tags ["a"; "b"; "c"]) sample_remove) = Ok ["a"].
Proof.
  apply (add_then_remove (host_with_tags ["a"]) (host_with_tags ["a"; "b"; "c"])
           sample_add sample_remove ["a"] ["a"; "b"; "c"]).
  - reflexivity.
  - reflexivity.
  - reflexivity.
  - reflexivity.
  - reflexivity.
  - repeat constructor; simpl; intros H; repeat destruct H as [H|H]; discriminate || contradiction.
  - intros t [<-|[]]. vm_compute. intros H; repeat destruct H as [H|H]; discriminate || contradiction.
  - reflexivity.
  - reflexivity.
Defined.

(** ** Attachments *)

Lemma buildResourcesLoop_throw binary names :
  forall rs ts e,
    buildResourcesLoop binary names rs ts = Throw e ->
    exists present name, first_missing binary names present name /\ e = MissingBinaryData name.
Proof.
  induction names as [|n names IH]; intros rs ts e H; cbn [buildResourcesLoop] in H;
    [discriminate|].
  unfold buildResource in H. destruct (binary !! n) as [input|] eqn:E.
  - apply IH in H as (present & name & (rest & -> & Hp & Hn) & ->).
    exists (n :: present), name. split; [|reflexivity].
    exists rest. split; [reflexivity|]. split; [|exact Hn].
    constructor; [exists input; exact E | exact Hp].
  - injection H as <-. exists [], n. split; [|reflexivity].
    exists names. split; [reflexivity|]. split; [constructor | exact E].
Qed.

Lemma buildResourcesLoop_first_missing binary names present name :
  first_missing binary names present name ->
  forall rs ts, buildResourcesLoop binary names rs ts = Throw (MissingBinaryData name).
Proof.
  intros (rest & -> & Hp & Hn). induction Hp as [|n present [input Hin] _ IH]; intros rs ts.
  - cbn [app buildResourcesLoop]. unfold buildResource. rewrite Hn. reflexivity.
  - cbn [app buildResourcesLoop]. unfold buildResource. rewrite Hin. apply IH.
Qed.

Lemma buildResourcesLoop_covered binary names :
  forall rs ts, buildResourcesLoop binary names rs ts <> Uncovered.
Proof.
  induction names as [|n names IH]; intros rs ts; cbn [buildResourcesLoop]; [discriminate|].
  unfold buildResource. destruct (binary !! n); [apply IH | discriminate].
Qed.

(** X14. The resource builder fails exactly when the input item lacks one of
    the named binary properties, and then with the error of the first
    name that is missing, whatever follows it; nothing is returned for
    the properties before it. *)
Theorem first_missing_property (binary : gmap str BinaryData) (names : list str) :
  (forall e,
     buildResourcesFromBinary binary names = Throw e <->
     exists present name, first_missing binary names present name /\ e = MissingBinaryData name)
  /\ buildResourcesFromBinary binary names <> Uncovered.
Proof.
  split; [|apply buildResourcesLoop_covered].
  intros e. split.
  - apply buildResourcesLoop_throw.
  - intros (present & name & Hm & ->). apply (buildResourcesLoop_first_missing _ _ _ _ Hm).
Qed.

Lemma buildAttachments_throw h add raw e :
  buildAttachments h add raw = Throw e -> exists name, e = MissingBinaryData name.
Proof.
  unfold buildAttachments, buildResourcesFromBinary. destruct add; [|discriminate].
  destruct (buildResourcesLoop _ _ _ _) as [res|e'|] eqn:E; cbn; try discriminate.
  intros [= <-]. apply buildResourcesLoop_throw in E as (_ & name & _ & ->). eauto.
Qed.

Lemma buildAttachments_covered h add raw : buildAttachments h add raw <> Uncovered.
Proof.
  unfold buildAttachments, buildResourcesFromBinary. destruct add; [|discriminate].
  pose proof (buildResourcesLoop_covered (binary h) (parseBinaryPropertyNames raw) [] []) as H.
  destruct (buildResourcesLoop _ _ _ _); cbn; congruence.
Qed.

Lemma appendMediaTags_body content att :
  appendMediaTags (wrapEnmlBody content) att =
  match mediaTagsOf att with
  | [] => wrapEnmlBody content
  | _ :: _ =>
      wrapEnmlBody (extractEnmlBody (wrapEnmlBody content) ++ join_empty (mediaTagsOf att))
  end.
Proof. destruct att as [res|]; reflexivity. Qed.

(** ** The calls of the update operation *)

Lemma finishUpdate_trace h p att note content :
  fst (finishUpdate h p att note content) = fst (reconcileTags h p)
  \/ exists nd,
       fst (finishUpdate h p att note content) = fst (reconcileTags h p) ++ [UpdateNote nd].
Proof.
  unfold finishUpdate. rewrite bind_fst_snd.
  destruct (snd (reconcileTags h p)) as [tags|e|]; cbn [fst]; [|left; reflexivity..].
  destruct (mergeAttributes (attributesJson p) (noteAttributesUi p)) as [attrs|e|].
  - rewrite bind_lift_ok. right. eexists.
    destruct (updateNote h _); reflexivity.
  - left. cbn. apply app_nil_r.
  - left. cbn. apply app_nil_r.
Qed.

(** X15. The calls that an update makes to the note store, in every case: it
    starts with the fetch of the note; the tag names are fetched next,
    and only in the add and the remove mode; the note is sent last and
    at most once. A missing binary property ends the update before any
    call, and malformed attributes end it before the note is sent. *)
Theorem update_store_calls (h : Host) (p : UpdateParams) :
  let fetch := GetNote (noteGuid p) (fetchWithContent p) in
  let tagCalls :=
    if str_eqb (tagsMode p) "add" || str_eqb (tagsMode p) "remove"
    then [GetNoteTagNames (noteGuid p)] else [] in
  (fst (update h p) = []
   \/ fst (update h p) = [fetch]
   \/ fst (update h p) = fetch :: tagCalls
   \/ exists nd, fst (update h p) = fetch :: tagCalls ++ [UpdateNote nd])
  /\ (fst (update h p) = [] <->
      exists name, snd (update h p) = Throw (MissingBinaryData name))
  /\ (snd (update h p) = Throw InvalidJsonAttributes ->
      forall nd, ~ In (UpdateNote nd) (fst (update h p))).
Proof.
  cbv zeta. rewrite update_steps.
  destruct (buildAttachments h (addAttachments p) (binaryPropertyNamesRaw p))
    as [att|e|] eqn:Ea.
  - destruct (getNote h (noteGuid p) (fetchWithContent p)) as [message|note].
    { cbn [fst snd]. split; [right; left; reflexivity|].
      split; [split; [discriminate | intros [? ?]; discriminate] | discriminate]. }
    destruct (editContent h p note) as [content|e|] eqn:Ee; cbn [fst snd].
    + split; [|split].
      * right. right.
        destruct (finishUpdate_trace h p att note content) as [H|[nd H]];
          rewrite H, reconcileTags_trace; [left; reflexivity | right; eauto].
      * split; [discriminate|]. intros [name H].
        apply finishUpdate_error in H as [H|[message H]]; discriminate.
      * intros H nd [Hin|Hin]; [discriminate|].
        apply finishUpdate_sent in Hin as (tags & attrs & Ht & Hattrs & _).
        unfold finishUpdate in H. rewrite bind_fst_snd, Ht in H. cbn [snd] in H.
        rewrite Hattrs, bind_lift_ok in H. destruct (updateNote h _); discriminate.
    + split; [right; left; reflexivity|].
      split; [split; [discriminate|] | intros _ nd [Hin|[]]; discriminate].
      intros [name [= ->]]. exfalso.
      unfold editContent in Ee.
      destruct (str_eqb (contentEditingMode p) "keep"); [discriminate|].
      destruct (str_eqb (contentEditingMode p) "replace"); [discriminate|].
      destruct (str_eqb (contentEditingMode p) "append"); [discriminate|].
      destruct (str_eqb (contentEditingMode p) "searchReplace"); [|discriminate].
      unfold searchReplaceContent in Ee.
      destruct (negb (nonempty (searchValue p))); [discriminate|].
      destruct (compile _); discriminate.
    + split; [right; left; reflexivity|].
      split; [split; [discriminate | intros [? ?]; discriminate] | discriminate].
  - cbn [fst snd]. split; [left; reflexivity|].
    split; [|intros _ nd []].
    split; [|reflexivity]. intros _.
    destruct (buildAttachments_throw _ _ _ _ Ea) as [name ->]. eauto.
  - destruct (buildAttachments_covered _ _ _ Ea).
Qed.

(** X16. The resources field of the note that an update sends: absent without
    attachments; with attachments, one resource for each property name,
    and so the empty list when the list of names is blank. The empty
    list adds no media tag: the content is the one that the editing mode
    produced. *)
Theorem update_resources_field (h : Host) (p : UpdateParams) (nd : NoteData) :
  In (UpdateNote nd) (fst (update h p)) ->
  (addAttachments p = false -> nd_resources nd = None) /\
  (addAttachments p = true ->
   exists res,
     buildResourcesFromBinary (binary h) (parseBinaryPropertyNames (binaryPropertyNamesRaw p))
       = Ok res /\
     nd_resources nd = Some (resources res) /\
     length (resources res) = length (parseBinaryPropertyNames (binaryPropertyNamesRaw p)) /\
     length (mediaTags res) = length (parseBinaryPropertyNames (binaryPropertyNamesRaw p))) /\
  (addAttachments p = true ->
   parseBinaryPropertyNames (binaryPropertyNamesRaw p) = [] ->
   nd_resources nd = Some [] /\
   exists note,
     getNote h (noteGuid p) (fetchWithContent p) = inr note /\
     editContent h p note = Ok (nd_content nd)).
Proof.
  intros Hsent.
  apply update_sent in Hsent
    as (att & note & content & tags & attrs & Hatt & Hnote & Hedit & _ & _ & ->).
  cbn [updateNoteData nd_resources nd_content].
  split; [|split].
  - intros Hf. rewrite Hf in Hatt. apply buildAttachments_none in Hatt as ->. reflexivity.
  - intros Ht. rewrite Ht in Hatt. unfold buildAttachments in Hatt.
    destruct (buildResourcesFromBinary _ _) as [res| |] eqn:E; cbn in Hatt; try discriminate.
    injection Hatt as <-. exists res. split; [reflexivity|]. split; [reflexivity|].
    destruct (buildResourcesLoop_built _ _ _ _ _ E) as (built & Hb & -> & ->).
    cbn [app]. rewrite !length_map. apply Forall2_length in Hb. auto.
  - intros Ht Hnames. rewrite Ht in Hatt. unfold buildAttachments in Hatt.
    rewrite Hnames in Hatt. cbn in Hatt. injection Hatt as <-.
    split; [reflexivity|]. exists note. split; [exact Hnote | exact Hedit].
Qed.

Lemma update_resources_field_witness :
  (addAttachments sample_no_names = false -> nd_resources sample_no_names_sent = None) /\
  (addAttachments sample_no_names = true ->
   exists res,
     buildResourcesFromBinary (binary sample_host)
       (parseBinaryPropertyNames (binaryPropertyNamesRaw sample_no_names)) = Ok res /\
     nd_resources sample_no_names_sent = Some (resources res) /\
     length (resources res)
       = length (parseBinaryPropertyNames (binaryPropertyNamesRaw sample_no_names)) /\
     length (mediaTags res)
       = length (parseBinaryPropertyNames (binaryPropertyNamesRaw sample_no_names))) /\
  (addAttachments sample_no_names = true ->
   parseBinaryPropertyNames (binaryPropertyNamesRaw sample_no_names) = [] ->
   nd_resources sample_no_names_sent = Some [] /\
   exists note,
     getNote sample_host (noteGuid sample_no_names) (fetchWithContent sample_no_names)
       = inr note /\
     editContent sample_host sample_no_names note = Ok (nd_content sample_no_names_sent)).
Proof.
  apply (update_resources_field sample_host sample_no_names sample_no_names_sent).
  vm_compute. right. left. reflexivity.
Defined.

(** ** The create operation *)

Lemma splitTags_nil (raw : str) :
  splitTags raw = [] <-> Forall (fun segment => trim segment = []) (split_on "," raw).
Proof.
  unfold splitTags. induction (split_on "," raw) as [|seg segs IH]; cbn [map List.filter].
  - split; [constructor | reflexivity].
  - destruct (trim seg) as [|c t] eqn:E; cbn [nonempty].
    + rewrite IH. split; [intros H; constructor; assumption | intros H; inversion H; assumption].
    + split; [discriminate|]. intros H. inversion H. congruence.
Qed.

(** X17. The note that a creation sends, and its only call: the creation
    never fetches anything, and fails before the call when a binary
    property is missing or the attributes are malformed. The note has no
    identifier; its tag names are absent when no name is left after
    trimming, and never an empty list; its resources are present exactly
    when attachments are switched on; and for plain text its content is
    one [div] with the encoded text, followed by the media tags, in the
    root element. *)
Theorem create_note_sent (h : Host) (p : CreateParams) :
  (fst (create h p) = [] /\
   ((exists name, snd (create h p) = Throw (MissingBinaryData name))
    \/ snd (create h p) = Throw InvalidJsonAttributes
    \/ snd (create h p) = Uncovered))
  \/ exists nd att,
       fst (create h p) = [CreateNote nd] /\
       buildAttachments h (c_addAttachments p) (c_binaryPropertyNamesRaw p) = Ok att /\
       nd_guid nd = None /\
       nd_title nd = Some (c_title p) /\
       nd_tagNames nd <> Some [] /\
       (nd_tagNames nd = None <->
        Forall (fun segment => trim segment = []) (split_on "," (c_tagsRaw p))) /\
       (forall tags, nd_tagNames nd = Some tags -> tags = splitTags (c_tagsRaw p)) /\
       (nd_resources nd = None <-> c_addAttachments p = false) /\
       (c_contentMode p <> "html" ->
        nd_content nd =
        wrapEnmlBody ("<div>" ++ encode_text (c_plainContent p) ++ "</div>"
                        ++ join_empty (mediaTagsOf att))).
Proof.
  rewrite create_steps.
  destruct (buildAttachments h (c_addAttachments p) (c_binaryPropertyNamesRaw p))
    as [att|e|] eqn:Ea.
  - destruct (mergeAttributes (c_attributesJson p) (c_noteAttributesUi p)) as [attrs|e|] eqn:Em.
    + right. cbv zeta. eexists. exists att.
      split; [destruct (createNote h _); reflexivity|].
      cbn [nd_guid nd_title nd_tagNames nd_resources nd_content].
      split; [reflexivity|]. split; [reflexivity|]. split; [reflexivity|].
      split; [destruct (splitTags (c_tagsRaw p)); discriminate|].
      split; [|split; [|split]].
      * rewrite <- splitTags_nil. destruct (splitTags (c_tagsRaw p)); split; congruence.
      * intros tags. destruct (splitTags (c_tagsRaw p)); congruence.
      * destruct (c_addAttachments p) eqn:Eadd.
        -- apply buildAttachments_some in Ea as [res ->]. split; discriminate.
        -- apply buildAttachments_none in Ea as ->. split; reflexivity.
      * intros Hc. unfold encodeContent. rewrite (proj2 (str_eqb_neq _ _) Hc).
        rewrite plainTextToEnml_encode, appendMediaTags_body.
        destruct (mediaTagsOf att) as [|tag tags] eqn:Et.
        -- cbn [join_empty concat]. rewrite app_nil_r. reflexivity.
        -- rewrite extract_wrap by apply plain_text_body_free.
           rewrite <- !app_assoc. reflexivity.
    + left. split; [reflexivity|]. right. left. cbn [snd].
      rewrite (mergeAttributes_error _ _ _ Em). reflexivity.
    + left. split; [reflexivity|]. right. right. reflexivity.
  - left. split; [reflexivity|]. left.
    destruct (buildAttachments_throw _ _ _ _ Ea) as [name ->]. eauto.
  - destruct (buildAttachments_covered _ _ _ Ea).
Qed.

(** ** Digests in hexadecimal *)

Lemma byte_of_hex_digits (b : byte) :
  byte_of_hex (hex_digit (Byte.to_N b / 16)) (hex_digit (Byte.to_N b mod 16)) = Some b.
Proof. destruct b; reflexivity. Qed.

Lemma hex_digits_lower (b : byte) :
  lower_hex_digit (hex_digit (Byte.to_N b / 16)) = true /\
  lower_hex_digit (hex_digit (Byte.to_N b mod 16)) = true.
Proof. destruct b; split; reflexivity. Qed.

Lemma from_hex_to_hex (bs : list byte) : from_hex (to_hex bs) = bs.
Proof.
  induction bs as [|b bs IH]; [reflexivity|].
  unfold to_hex in *. cbn [flat_map app from_hex].
  rewrite byte_of_hex_digits, IH. reflexivity.
Qed.

Lemma to_hex_length (bs : list byte) : length (to_hex bs) = 2 * length bs.
Proof.
  induction bs as [|b bs IH]; [reflexivity|].
  unfold to_hex in *. cbn [flat_map app length]. rewrite IH. lia.
Qed.

Lemma to_hex_lower (bs : list byte) : Forall (fun c => lower_hex_digit c = true) (to_hex bs).
Proof.
  induction bs as [|b bs IH]; [constructor|].
  unfold to_hex in *. cbn [flat_map app].
  destruct (hex_digits_lower b) as [H1 H2]. constructor; [exact H1|]. constructor; assumption.
Qed.

(** X18. The hexadecimal text of a digest, as the node returns it for the
    content of a note and writes it into a media tag: two lower-case
    digits for each byte, from which the bytes can be read back, so that
    different digests have different texts. [transformNote] changes the
    digest of a note in this way and nothing else. *)
Theorem to_hex_faithful (bs bs' : list byte) (note : FullNote) :
  length (to_hex bs) = 2 * length bs /\
  Forall (fun c => lower_hex_digit c = true) (to_hex bs) /\
  from_hex (to_hex bs) = bs /\
  (to_hex bs = to_hex bs' -> bs = bs') /\
  out_title (transformNote note) = fn_title note /\
  out_content (transformNote note) = fn_content note /\
  option_map from_hex (out_contentHash (transformNote note)) = fn_contentHash note.
Proof.
  split; [apply to_hex_length|]. split; [apply to_hex_lower|].
  split; [apply from_hex_to_hex|]. split; [|split; [reflexivity|split; [reflexivity|]]].
  - intros H. rewrite <- (from_hex_to_hex bs), <- (from_hex_to_hex bs'), H. reflexivity.
  - unfold transformNote. cbn [out_contentHash].
    destruct (fn_contentHash note) as [hash|]; [|reflexivity].
    cbn [option_map]. rewrite from_hex_to_hex. reflexivity.
Qed.

Lemma le_bytes_length count x : length (le_bytes count x) = count.
Proof. unfold le_bytes. rewrite length_map. apply length_seq. Qed.

Lemma md5_length (buffer : list byte) : length (md5 buffer) = 16.
Proof.
  unfold md5. destruct (md5_blocks _ _ _) as [[[a b] c] d].
  rewrite !length_app, !le_bytes_length. reflexivity.
Qed.

Lemma or_else_default_nonempty a b : b <> [] -> or_else a b <> [].
Proof. intros Hb. destruct a as [[|c t]|]; cbn; congruence. Qed.

(** X19. Every resource that the builder returns, with its media tag: the
    size is the number of bytes of the body, the digest has 16 bytes,
    the MIME type is not empty, and the media tag carries that MIME type
    and the digest as 32 lower-case hexadecimal digits. *)
Theorem built_resources_shape (binary : gmap str BinaryData) (names : list str)
    (res : ResourceBuildResult) :
  buildResourcesFromBinary binary names = Ok res ->
  Forall2
    (fun r tag =>
       size (data r) = length (body (data r)) /\
       length (bodyHash (data r)) = 16 /\
       mime r <> [] /\
       exists hex,
         tag = "<en-media type=" ++ dquote ++ mime r ++ dquote ++ " hash=" ++ dquote
                 ++ hex ++ dquote ++ " />" /\
         length hex = 32 /\
         Forall (fun c => lower_hex_digit c = true) hex /\
         from_hex hex = md5 (body (data r)))
    (resources res) (mediaTags res).
Proof.
  intros H. unfold buildResourcesFromBinary in H.
  destruct (buildResourcesLoop_built _ _ _ _ _ H) as (built & Hb & -> & ->).
  cbn [app]. clear H. induction Hb as [|name [r tag] names built Hr _ IH]; [constructor|].
  cbn [map fst snd]. constructor; [|exact IH].
  apply buildResource_ok in Hr as (input & _ & Hbody & Hsize & Hhash & Hmime & ->).
  split; [rewrite Hsize, Hbody; reflexivity|].
  split; [rewrite Hhash; apply md5_length|].
  split; [rewrite Hmime; apply or_else_default_nonempty; discriminate|].
  exists (to_hex (bodyHash (data r))). split; [reflexivity|].
  split; [rewrite to_hex_length, Hhash, md5_length; reflexivity|].
  split; [apply to_hex_lower|].
  rewrite from_hex_to_hex, Hhash, Hbody. reflexivity.
Qed.

Lemma built_resources_shape_witness :
  exists res,
    buildResourcesFromBinary sample_binary ["data"] = Ok res /\
    Forall2
      (fun r tag =>
         size (data r) = length (body (data r)) /\
         length (bodyHash (data r)) = 16 /\
         mime r <> [] /\
         exists hex,
           tag = "<en-media type=" ++ dquote ++ mime r ++ dquote ++ " hash=" ++ dquote
                   ++ hex ++ dquote ++ " />" /\
           length hex = 32 /\
           Forall (fun c => lower_hex_digit c = true) hex /\
           from_hex hex = md5 (body (data r)))
      (resources res) (mediaTags res).
Proof.
  eexists. split; [reflexivity|].
  apply (built_resources_shape sample_binary ["data"]). reflexivity.
Defined.

(** ** Escaped text *)

Lemma escape_char_clean c :
  Forall (fun x => x <> "<"%char /\ x <> ">"%char /\ x <> chr 34) (escape_char c).
Proof. each_char c; vm_compute; repeat constructor; discriminate. Qed.

Lemma escape_char_length c : 1 <= length (escape_char c).
Proof. each_char c; vm_compute; lia. Qed.

Lemma escape_char_id c :
  escape_char c = [c] <-> ~ In c ["&"; "<"; ">"; chr 34]%char.
Proof.
  each_char c; vm_compute;
    (split;
      [ intros H; try discriminate H; intros Hin;
        repeat destruct Hin as [Hin|Hin]; discriminate || contradiction
      | intros H; try reflexivity; exfalso; apply H; auto 10 ]).
Qed.

Lemma escape_char_output c :
  Forall (fun x => x <> "<"%char /\ x <> ">"%char /\ x <> chr 34) (escape_char c) /\
  1 <= length (escape_char c) /\
  (escape_char c = [c] <-> ~ In c ["&"; "<"; ">"; chr 34]%char).
Proof.
  split; [apply escape_char_clean|]. split; [apply escape_char_length | apply escape_char_id].
Qed.

(** X20. The text that [escapeXml] returns holds no angle bracket and no
    double quote; it is at least as long as the input, and it is the
    input exactly when the input holds none of the four characters that
    are escaped. *)
Theorem escapeXml_output (value : str) :
  Forall (fun x => x <> "<"%char /\ x <> ">"%char /\ x <> chr 34) (escapeXml value) /\
  length value <= length (escapeXml value) /\
  (escapeXml value = value <->
   Forall (fun c => ~ In c ["&"; "<"; ">"; chr 34]%char) value).
Proof.
  rewrite escapeXml_chars. induction value as [|c value (IH1 & IH2 & IH3)].
  - split; [constructor|]. split; [reflexivity|]. split; [constructor | reflexivity].
  - destruct (escape_char_output c) as (H1 & H2 & H3). cbn [flat_map].
    split; [apply Forall_app; split; assumption|].
    split; [rewrite length_app; cbn [length]; lia|].
    split.
    + intros H.
      assert (Hlen : length (escape_char c) = 1).
      { apply (f_equal (@length ascii)) in H. rewrite length_app in H. cbn [length] in H. lia. }
      destruct (escape_char c) as [|x [|y t]] eqn:E; cbn in Hlen; try lia.
      cbn [app] in H. injection H as -> H.
      constructor; [apply H3; reflexivity | apply IH3, H].
    + intros H. inversion H as [|? ? Hc Hv]; subst.
      apply H3 in Hc. apply IH3 in Hv. rewrite Hc, Hv. reflexivity.
Qed.

Lemma encode_text_no_line_feed_le (n : nat) :
  forall s, length s <= n -> ~ In LF (encode_text s).
Proof.
  induction n as [|n IH]; intros s Hlen.
  - destruct s; [intros [] | simpl in Hlen; lia].
  - destruct s as [|c t]; [intros []|]. simpl in Hlen. cbn [encode_text].
    destruct (c == CR) eqn:Ec.
    + apply char_eqb_eq in Ec. subst c.
      destruct t as [|d t']; [intros [H|[]]; discriminate|].
      destruct (d == LF).
      * rewrite in_app_iff. intros [H|H].
        -- cbn in H. repeat destruct H as [H|H]; discriminate || contradiction.
        -- revert H. apply IH. simpl in Hlen. lia.
      * intros [H|H]; [discriminate|]. revert H. apply IH. lia.
    + destruct (c == LF) eqn:El.
      * rewrite in_app_iff. intros [H|H].
        -- cbn in H. repeat destruct H as [H|H]; discriminate || contradiction.
        -- revert H. apply IH. lia.
      * rewrite in_app_iff. intros [H|H]; [|revert H; apply IH; lia].
        apply char_eqb_neq in El. revert H El. clear.
        each_char c; cbn; intros H E; repeat destruct H as [H|H];
          discriminate || contradiction || (apply E; reflexivity) || idtac.
Qed.

Lemma encode_text_plain (s : str) :
  Forall (fun c => ~ In c ["&"; "<"; ">"; chr 34; LF]%char) s -> encode_text s = s.
Proof.
  induction 1 as [|c s Hc Hs IH]; [reflexivity|].
  cbn [encode_text].
  assert (El : (c == LF) = false).
  { apply char_eqb_neq. intros ->. apply Hc. cbn. tauto. }
  assert (Hesc : escape_char c = [c]).
  { apply escape_char_output. intros Hin. apply Hc. cbn in *. tauto. }
  destruct (c == CR) eqn:Ec.
  - apply char_eqb_eq in Ec. subst c. destruct s as [|d s']; [reflexivity|].
    inversion Hs as [|? ? Hd _]; subst.
    replace (d == LF) with false; [rewrite IH; reflexivity|].
    symmetry. apply char_eqb_neq. intros ->. apply Hd. cbn. tauto.
  - rewrite El, Hesc, IH. reflexivity.
Qed.

(** X21. The body of a plain-text document holds no line feed: each is a
    break element, together with the carriage return before it. A text
    without markup characters and line feeds is the body as it is, in
    one [div]. *)
Theorem plain_text_body (text : str) :
  ~ In LF (extractEnmlBody (plainTextToEnml text)) /\
  (Forall (fun c => ~ In c ["&"; "<"; ">"; chr 34; LF]%char) text ->
   extractEnmlBody (plainTextToEnml text) = "<div>" ++ text ++ "</div>").
Proof.
  rewrite extract_plainTextToEnml. split.
  - rewrite !in_app_iff. intros [H|[H|H]].
    + cbn in H. repeat destruct H as [H|H]; discriminate || contradiction.
    + revert H. apply (encode_text_no_line_feed_le (length text)). lia.
    + cbn in H. repeat destruct H as [H|H]; discriminate || contradiction.
  - intros H. rewrite (encode_text_plain text H). reflexivity.
Qed.

(** ** Attributes that are not an object *)

(** X22. Every text that [JSON.parse] accepts is accepted as attributes, not
    only an object; a number, a boolean or [null] adds nothing, as if
    the text were empty. *)
Theorem attributes_json_any_value (text : str) (ui : gmap str json) (v : json) (rest : str) :
  JSON_parse text = POk v rest ->
  (exists attributes, mergeAttributes text ui = Ok attributes) /\
  (json_scalar v = true -> mergeAttributes text ui = mergeAttributes "" ui).
Proof.
  intros Hp. unfold mergeAttributes. split.
  - destruct (nonempty text); [rewrite Hp|]; cbn [result_bind]; eauto.
  - intros Hv. destruct (nonempty text); [|reflexivity]. rewrite Hp.
    destruct v; try discriminate; reflexivity.
Qed.

Lemma attributes_json_any_value_witness :
  (exists attributes, mergeAttributes "42" sample_attributes_ui = Ok attributes) /\
  (json_scalar (JNumber "42") = true ->
   mergeAttributes "42" sample_attributes_ui = mergeAttributes "" sample_attributes_ui).
Proof. apply (attributes_json_any_value "42" sample_attributes_ui (JNumber "42") []). reflexivity. Defined.

(** ** Checklist items *)

(** *** A global replacement with one match *)

Lemma replace_from_pass ic r n template a : forall prev rest,
  (forall u1 u2, a = u1 ++ u2 -> u2 <> [] ->
     match_at ic r (rev u1 ++ prev) (u2 ++ rest) = None) ->
  replace_from ic r n template 0 prev (a ++ rest)
  = a ++ replace_from ic r n template 0 (rev a ++ prev) rest.
Proof.
  induction a as [|c t IH]; intros prev rest H; [reflexivity|].
  pose proof (H [] (c :: t) eq_refl ltac:(discriminate)) as H0. cbn [rev app] in H0.
  cbn [app replace_from]. rewrite H0. f_equal.
  cbn [rev]. rewrite <- app_assoc. cbn [app]. apply IH.
  intros u1 u2 Hu Hne. specialize (H (c :: u1) u2). cbn [rev] in H.
  rewrite <- app_assoc in H. apply H; [|exact Hne]. rewrite Hu. reflexivity.
Qed.

Lemma replace_from_skip ic r n template u : forall prev rest,
  replace_from ic r n template (length u) prev (u ++ rest)
  = replace_from ic r n template 0 (rev u ++ prev) rest.
Proof.
  induction u as [|c t IH]; intros prev rest; [reflexivity|].
  cbn [length app replace_from rev]. rewrite <- app_assoc. apply IH.
Qed.

Lemma replace_from_match ic r n template prev c t b y :
  match_at ic r prev ((c :: t) ++ b) = Some y ->
  mr_rest y = b ->
  replace_from ic r n template 0 prev ((c :: t) ++ b)
  = get_substitution (c :: t) (rev prev) b (mr_caps y) n template
    ++ replace_from ic r n template 0 (rev (c :: t) ++ prev) b.
Proof.
  intros Hm Hrest.
  pose proof (take_length_suffix (c :: t) b) as Htake.
  pose proof (drop_length_suffix (c :: t) b) as Hdrop.
  assert (Hlen : length ((c :: t) ++ b) - length b = S (length t))
    by (rewrite length_app; cbn [length]; lia).
  change ((c :: t) ++ b) with (c :: t ++ b) in *.
  cbn [replace_from]. rewrite Hm, Hrest. cbv zeta.
  rewrite Htake, Hdrop, Hlen.
  rewrite replace_from_skip. cbn [rev]. rewrite <- app_assoc. reflexivity.
Qed.

(** The only match of the pattern in a text replaced by a text without
    [$]. *)
Lemma replace_once ic r n template a c t b y :
  (forall u1 u2, a = u1 ++ u2 -> u2 <> [] ->
     match_at ic r (rev u1) (u2 ++ (c :: t) ++ b) = None) ->
  match_at ic r (rev a) ((c :: t) ++ b) = Some y ->
  mr_rest y = b ->
  (forall u1 u2, b = u1 ++ u2 -> match_at ic r (rev u1 ++ rev (c :: t) ++ rev a) u2 = None) ->
  no_dollar template ->
  regex_replace_all ic r n (a ++ (c :: t) ++ b) template = a ++ template ++ b.
Proof.
  intros Ha Hm Hrest Hb Ht. unfold regex_replace_all.
  rewrite replace_from_pass.
  - rewrite app_nil_r, (replace_from_match _ _ _ _ _ _ _ _ _ Hm Hrest).
    rewrite get_substitution_plain by exact Ht.
    rewrite replace_from_none; [reflexivity|]. exact Hb.
  - intros u1 u2 Hu Hne. rewrite app_nil_r. apply (Ha u1 u2 Hu Hne).
Qed.

(** *** Words that begin with [<] *)

Lemma starts_with_longer ic w w2 l :
  starts_with ic (w ++ w2) l = true -> starts_with ic w l = true.
Proof.
  revert l. induction w as [|c w IH]; intros l H; [reflexivity|].
  destruct l as [|x l]; cbn [app starts_with] in *; [discriminate|].
  apply andb_true_iff in H as [Hc H]. rewrite Hc. apply (IH l H).
Qed.

Lemma no_occurrence_longer ic w w2 l :
  no_occurrence ic w l -> no_occurrence ic (w ++ w2) l.
Proof.
  intros H u1 u2 Hu. destruct (starts_with ic (w ++ w2) u2) eqn:E; [|reflexivity].
  apply starts_with_longer in E. rewrite (H u1 u2 Hu) in E. discriminate.
Qed.

(** A word that begins with [<] and has no other does not occur in a
    text made of two parts without it and, between them, a tag with no
    [<] but its first character that the word does not start. *)
Lemma no_occurrence_around w a item b :
  no_lt w = true ->
  no_occurrence true ("<"%char :: w) a ->
  no_occurrence true ("<"%char :: w) b ->
  ~ In "<"%char item ->
  starts_with true ("<"%char :: w) ("<"%char :: item ++ b) = false ->
  no_occurrence true ("<"%char :: w) (a ++ ("<"%char :: item) ++ b).
Proof.
  intros Hw Ha Hb Hitem Hstart. apply free_of_no_occurrence. cbn [app].
  rewrite free_of_app_lt; [| exact Hw | apply free_of_no_occurrence, Ha].
  rewrite free_of_cons, Hstart. cbn [negb andb].
  rewrite free_of_app_piece by (apply piece_safe_no_lt, Hitem).
  apply free_of_no_occurrence, Hb.
Qed.

Lemma no_match_before_lt w r a rest u1 u2 :
  no_lt w = true ->
  no_occurrence true ("<"%char :: w) a ->
  a = u1 ++ u2 -> u2 <> [] ->
  match_at true (lit_chain ("<"%char :: w) r) (rev u1) (u2 ++ "<"%char :: rest) = None.
Proof.
  intros Hw Ha Hu Hne. apply lit_chain_no_match.
  destruct u2 as [|x u2]; [contradiction|].
  destruct (starts_with true ("<"%char :: w) ((x :: u2) ++ "<"%char :: rest)) eqn:E;
    [|reflexivity].
  cbn [app starts_with] in E. apply andb_true_iff in E as [Hx E].
  apply (starts_with_before_lt _ _ _ Hw) in E.
  pose proof (Ha u1 (x :: u2) Hu) as Hno. cbn [starts_with] in Hno.
  rewrite Hx, E in Hno. discriminate.
Qed.

(** *** The three patterns *)

Lemma space_class c :
  xorb false (char_set_found true [ClassEsc EscSpace false] c) = is_js_space c.
Proof. each_char c; reflexivity. Qed.

Lemma space_run (space : str) :
  Forall (fun c => is_js_space c = true) space ->
  Forall (fun c => xorb false (char_set_found true [ClassEsc EscSpace false] c) = true) space.
Proof. intros H. eapply Forall_impl; [exact H|]. intros c Hc. rewrite space_class. exact Hc. Qed.

Lemma todo_patterns state :
  re_pattern (todo_pattern state) = lit_chain (todo_prefix ++ todo_attribute state) todo_tail
  /\ re_ignoreCase (todo_pattern state) = true.
Proof. destruct state; split; reflexivity. Qed.

Lemma match_todo_tail prev space slash b :
  Forall (fun c => is_js_space c = true) space ->
  slash = [] \/ slash = "/" ->
  exists p,
    m true todo_tail prev (space ++ slash ++ ">" ++ b) ∅ accept
    = Some {| mr_prev := p; mr_rest := b; mr_caps := ∅ |}.
Proof.
  intros Hs Hslash. unfold todo_tail.
  destruct Hslash as [->| ->]; eexists; rewrite m_seq;
    (apply greedy_class_run; [apply space_run, Hs | reflexivity |]);
    rewrite m_seq; cbn [app]; matcher_steps.
  - change (char_matches true "/" ">") with false. cbv iota.
    rewrite char_matches_refl. reflexivity.
  - rewrite !char_matches_refl, length_neq_succ. reflexivity.
Qed.

Lemma match_todo_item state prev space slash b :
  Forall (fun c => is_js_space c = true) space ->
  slash = [] \/ slash = "/" ->
  exists p,
    match_at true (re_pattern (todo_pattern state)) prev (todo_item state space slash ++ b)
    = Some {| mr_prev := p; mr_rest := b; mr_caps := ∅ |}.
Proof.
  intros Hs Hslash. destruct (todo_patterns state) as [-> _].
  unfold match_at, todo_item. rewrite m_lit_chain.
  rewrite (app_assoc todo_prefix), <- !app_assoc, (app_assoc todo_prefix).
  rewrite starts_with_self, take_app_length, drop_app_length.
  apply match_todo_tail; assumption.
Qed.

Lemma todo_item_head state space slash :
  todo_item state space slash = "<"%char :: todo_item_tail state space slash.
Proof. reflexivity. Qed.

Lemma space_not_lt c : is_js_space c = true -> c <> "<"%char.
Proof. intros H ->. discriminate H. Qed.

Lemma todo_item_tail_no_lt state space slash :
  Forall (fun c => is_js_space c = true) space ->
  slash = [] \/ slash = "/" ->
  ~ In "<"%char (todo_item_tail state space slash).
Proof.
  intros Hs Hslash. unfold todo_item_tail. rewrite !in_app_iff.
  intros [H|[H|[H|[H|H]]]].
  - cbn in H. repeat destruct H as [H|H]; discriminate || contradiction.
  - destruct state; cbn in H; repeat destruct H as [H|H]; discriminate || contradiction.
  - rewrite List.Forall_forall in Hs. apply (space_not_lt _ (Hs _ H)). reflexivity.
  - destruct Hslash as [->| ->]; cbn in H; repeat destruct H as [H|H];
      discriminate || contradiction.
  - cbn in H. repeat destruct H as [H|H]; discriminate || contradiction.
Qed.

Lemma space_not_c c : is_js_space c = true -> char_matches true "c" c = false.
Proof. each_char c; intros H; try discriminate H; reflexivity. Qed.

(** An item without attribute is not the start of a pattern with an
    attribute. *)
Lemma attribute_needed w space slash b :
  Forall (fun c => is_js_space c = true) space ->
  slash = [] \/ slash = "/" ->
  starts_with true (" "%char :: "c"%char :: w) (space ++ slash ++ ">" ++ b) = false.
Proof.
  intros Hs Hslash.
  destruct Hs as [|c1 space Hc1 Hs].
  - destruct Hslash as [->| ->]; reflexivity.
  - cbn [app starts_with]. destruct (char_matches true " " c1); [|reflexivity].
    cbn [andb]. destruct Hs as [|c2 space Hc2 Hs].
    + destruct Hslash as [->| ->]; reflexivity.
    + cbn [app]. rewrite (space_not_c _ Hc2). reflexivity.
Qed.

Lemma starts_with_same_prefix ic p w l :
  starts_with ic (p ++ w) (p ++ l) = starts_with ic w l.
Proof.
  induction p as [|c p IH]; [reflexivity|].
  cbn [app starts_with]. rewrite char_matches_refl. exact IH.
Qed.

Lemma attribute_mismatch state' state space slash b :
  state' <> state -> state' <> TodoPlain ->
  Forall (fun c => is_js_space c = true) space ->
  slash = [] \/ slash = "/" ->
  starts_with true (todo_prefix ++ todo_attribute state')
    (todo_item state space slash ++ b) = false.
Proof.
  intros Hne Hplain Hs Hslash. unfold todo_item.
  rewrite <- !app_assoc, starts_with_same_prefix.
  destruct state', state; try contradiction.
  - apply (attribute_needed _ _ _ _ Hs Hslash).
  - apply mismatch_within_starts. reflexivity.
  - apply (attribute_needed _ _ _ _ Hs Hslash).
  - apply mismatch_within_starts. reflexivity.
Qed.

Lemma todo_word state :
  todo_prefix ++ todo_attribute state
  = "<"%char :: tl (todo_prefix ++ todo_attribute state)
  /\ no_lt (tl (todo_prefix ++ todo_attribute state)) = true.
Proof. destruct state; split; reflexivity. Qed.

Lemma todo_html_shape state :
  todo_html state = "<"%char :: tl (todo_html state)
  /\ ~ In "<"%char (tl (todo_html state))
  /\ mismatch_within todo_prefix (todo_html state) = true
  /\ no_dollar (todo_html state).
Proof.
  destruct state; (split; [reflexivity|]); (split; [|split; [reflexivity|]]);
    cbn; intros H; repeat destruct H as [H|H]; discriminate || contradiction.
Qed.

(** The pattern for one form leaves a text without that form as it
    is. *)
Lemma todo_pattern_absent state s template :
  no_occurrence true (todo_prefix ++ todo_attribute state) s ->
  String_replace s (todo_pattern state) template = s.
Proof.
  intros H. unfold String_replace. destruct (todo_patterns state) as [-> ->].
  apply replace_word_absent, H.
Qed.

(** The pattern for the form of the item replaces the item. *)
Lemma todo_pattern_once state a b space slash :
  no_occurrence true todo_prefix a ->
  no_occurrence true todo_prefix b ->
  Forall (fun c => is_js_space c = true) space ->
  slash = [] \/ slash = "/" ->
  String_replace (a ++ todo_item state space slash ++ b) (todo_pattern state) (todo_html state)
  = a ++ todo_html state ++ b.
Proof.
  intros Ha Hb Hs Hslash. unfold String_replace.
  destruct (match_todo_item state (rev a) space slash b Hs Hslash) as [p Hp].
  destruct (todo_patterns state) as [Hpat Hic]. rewrite Hic, Hpat in *.
  destruct (todo_word state) as [Hw Hlt].
  rewrite todo_item_head in *.
  apply (replace_once _ _ _ _ a _ _ b {| mr_prev := p; mr_rest := b; mr_caps := ∅ |}).
  - intros u1 u2 Hu Hne. rewrite Hw. cbn [app].
    apply (no_match_before_lt _ _ a); [exact Hlt | | exact Hu | exact Hne].
    rewrite <- Hw. apply no_occurrence_longer, Ha.
  - exact Hp.
  - reflexivity.
  - intros u1 u2 Hu. apply lit_chain_no_match.
    apply (no_occurrence_longer _ _ _ _ Hb u1 u2 Hu).
  - apply todo_html_shape.
Qed.

(** A form that the item does not have does not occur in the text
    around the item either. *)
Lemma todo_other_absent state' state a b space slash :
  state' <> state -> state' <> TodoPlain ->
  no_occurrence true todo_prefix a ->
  no_occurrence true todo_prefix b ->
  Forall (fun c => is_js_space c = true) space ->
  slash = [] \/ slash = "/" ->
  no_occurrence true (todo_prefix ++ todo_attribute state')
    (a ++ todo_item state space slash ++ b).
Proof.
  intros Hne Hplain Ha Hb Hs Hslash.
  pose proof (attribute_mismatch state' state space slash b Hne Hplain Hs Hslash) as Hm.
  destruct (todo_word state') as [Hw Hlt]. rewrite Hw in *. rewrite todo_item_head in *.
  apply no_occurrence_around.
  - exact Hlt.
  - rewrite <- Hw. apply no_occurrence_longer, Ha.
  - rewrite <- Hw. apply no_occurrence_longer, Hb.
  - apply todo_item_tail_no_lt; assumption.
  - exact Hm.
Qed.

(** After the replacement no checklist item is left. *)
Lemma todo_html_absent state' state a b :
  no_occurrence true todo_prefix a ->
  no_occurrence true todo_prefix b ->
  no_occurrence true (todo_prefix ++ todo_attribute state') (a ++ todo_html state ++ b).
Proof.
  intros Ha Hb. apply no_occurrence_longer.
  destruct (todo_html_shape state) as (Hh & Hlt & Hm & _). rewrite Hh.
  apply (no_occurrence_around "en-todo"); [reflexivity | exact Ha | exact Hb | exact Hlt |].
  change ("<"%char :: tl (todo_html state) ++ b) with (("<"%char :: tl (todo_html state)) ++ b).
  rewrite <- Hh. apply mismatch_within_starts, Hm.
Qed.

(** The three replacements on a text with one checklist item. *)
Lemma todo_replacements state a b space slash :
  no_occurrence true todo_prefix a ->
  no_occurrence true todo_prefix b ->
  Forall (fun c => is_js_space c = true) space ->
  slash = [] \/ slash = "/" ->
  String_replace
    (String_replace
       (String_replace (a ++ todo_item state space slash ++ b)
          re_todo_checked checkbox_checked)
       re_todo_unchecked checkbox_unchecked)
    re_todo checkbox_unchecked
  = a ++ todo_html state ++ b.
Proof.
  intros Ha Hb Hs Hslash.
  change re_todo_checked with (todo_pattern TodoChecked).
  change re_todo_unchecked with (todo_pattern TodoUnchecked).
  change re_todo with (todo_pattern TodoPlain).
  destruct state.
  - rewrite (todo_pattern_absent TodoChecked)
      by (apply todo_other_absent; try assumption; discriminate).
    rewrite (todo_pattern_absent TodoUnchecked)
      by (apply todo_other_absent; try assumption; discriminate).
    apply (todo_pattern_once TodoPlain); assumption.
  - change checkbox_checked with (todo_html TodoChecked).
    rewrite (todo_pattern_once TodoChecked) by assumption.
    rewrite (todo_pattern_absent TodoUnchecked) by (apply todo_html_absent; assumption).
    apply (todo_pattern_absent TodoPlain), todo_html_absent; assumption.
  - rewrite (todo_pattern_absent TodoChecked)
      by (apply todo_other_absent; try assumption; discriminate).
    change checkbox_unchecked with (todo_html TodoUnchecked) at 1.
    rewrite (todo_pattern_once TodoUnchecked) by assumption.
    apply (todo_pattern_absent TodoPlain), todo_html_absent; assumption.
Qed.

(** X23. A checklist item in the body of a document becomes a disabled check
    box, ticked when the item says [checked] is true and empty when it
    says false or nothing; white space before the end of the tag and a
    slash there make no difference. The text around the item is left as
    it is. *)
Theorem enmlToHtml_checklist_item (state : TodoState) (a b space slash : str) :
  no_occurrence true todo_prefix a ->
  no_occurrence true todo_prefix b ->
  Forall (fun c => is_js_space c = true) space ->
  slash = [] \/ slash = "/" ->
  no_occurrence true close_tag (a ++ todo_item state space slash ++ b) ->
  enmlToHtml (wrapEnmlBody (a ++ todo_item state space slash ++ b))
  = "<div>" ++ a ++ todo_html state ++ b ++ "</div>".
Proof.
  intros Ha Hb Hs Hslash Hclose.
  pose proof (enmlToHtml_steps [] _ (not_in_nil _) (not_in_nil _) Hclose) as E.
  change (enmlToHtml (wrapEnmlBody (a ++ todo_item state space slash ++ b)) = 
          String_replace
            (String_replace
               (String_replace ("<div>" ++ (a ++ todo_item state space slash ++ b) ++ "</div>")
                  re_todo_checked checkbox_checked)
               re_todo_unchecked checkbox_unchecked)
            re_todo checkbox_unchecked) in E.
  rewrite E.
  replace ("<div>" ++ (a ++ todo_item state space slash ++ b) ++ "</div>")
    with (("<div>" ++ a) ++ todo_item state space slash ++ (b ++ "</div>"))
    by (rewrite <- !app_assoc; reflexivity).
  rewrite todo_replacements; [rewrite <- !app_assoc; reflexivity | | | assumption..].
  - apply free_of_no_occurrence. rewrite free_of_app_piece by reflexivity.
    apply free_of_no_occurrence, Ha.
  - apply free_of_no_occurrence.
    rewrite (free_of_app_lt todo_prefix b "/div>");
      [reflexivity | reflexivity | apply free_of_no_occurrence, Hb].
Qed.

Lemma enmlToHtml_checklist_item_witness :
  enmlToHtml (wrapEnmlBody ("<div>" ++ todo_item TodoChecked " " "/" ++ "milk</div>"))
  = "<div>" ++ "<div>" ++ todo_html TodoChecked ++ "milk</div>" ++ "</div>".
Proof.
  apply (enmlToHtml_checklist_item TodoChecked "<div>" "milk</div>" " " "/").
  - apply free_of_no_occurrence. reflexivity.
  - apply free_of_no_occurrence. reflexivity.
  - repeat constructor.
  - right. reflexivity.
  - apply free_of_no_occurrence. reflexivity.
Defined.

(** ** Appending HTML *)

(** A body that holds a closing root tag comes back up to that tag. *)
Lemma extract_wrap_truncated (kept lost : str) :
  no_occurrence true close_tag kept ->
  extractEnmlBody (wrapEnmlBody (kept ++ "</en-note>" ++ lost)) = kept.
Proof.
  intros Hkept.
  replace (wrapEnmlBody (kept ++ "</en-note>" ++ lost))
    with ((xmlProlog ++ enmlDocType) ++ "<en-note" ++ [] ++ ">" ++ kept ++ "</en-note>"
            ++ (lost ++ "</en-note>")).
  - apply extractEnmlBody_root; [reflexivity | apply not_in_nil | exact Hkept].
  - unfold wrapEnmlBody. rewrite <- !app_assoc. reflexivity.
Qed.

(** X24. Appending HTML to a document that this node wrapped: the new body
    is the existing body followed by the sanitized HTML, as long as the
    sanitized HTML holds no closing root tag; when it holds one, what
    follows the first one is dropped, the tag included. *)
Theorem append_html (h : Host) (p : UpdateParams) (note : ExistingNote) (body : str) :
  contentEditingMode p = "append" ->
  contentMode p = "html" ->
  note_content note = Some (wrapEnmlBody body) ->
  no_occurrence true close_tag body ->
  (no_occurrence true close_tag (sanitizeHtml h (htmlContent p)) ->
   editContent h p note = Ok (wrapEnmlBody (body ++ sanitizeHtml h (htmlContent p)))) /\
  (forall kept lost,
     sanitizeHtml h (htmlContent p) = kept ++ "</en-note>" ++ lost ->
     no_occurrence true close_tag kept ->
     editContent h p note = Ok (wrapEnmlBody (body ++ kept))).
Proof.
  intros Hm Hc Hn Hbody.
  assert (E : editContent h p note =
              Ok (wrapEnmlBody
                    (body ++ extractEnmlBody (wrapEnmlBody (sanitizeHtml h (htmlContent p)))))).
  { unfold editContent, encodeContent, sanitizeHtmlToEnml. rewrite Hm, Hc, Hn. eval_str_eqb.
    rewrite or_else_empty, (extract_wrap body Hbody). reflexivity. }
  rewrite E. split.
  - intros Hs. rewrite (extract_wrap _ Hs). reflexivity.
  - intros kept lost -> Hkept. rewrite (extract_wrap_truncated kept lost Hkept). reflexivity.
Qed.

Lemma append_html_witness :
  (no_occurrence true close_tag
     (sanitizeHtml sample_host (htmlContent (sample_append_html "a</en-note>b"))) ->
   editContent sample_host (sample_append_html "a</en-note>b") sample_note
   = Ok (wrapEnmlBody
           ("price: $5.00"
              ++ sanitizeHtml sample_host (htmlContent (sample_append_html "a</en-note>b")))))
  /\
  (forall kept lost,
     sanitizeHtml sample_host (htmlContent (sample_append_html "a</en-note>b"))
       = kept ++ "</en-note>" ++ lost ->
     no_occurrence true close_tag kept ->
     editContent sample_host (sample_append_html "a</en-note>b") sample_note
     = Ok (wrapEnmlBody ("price: $5.00" ++ kept))).
Proof.
  apply (append_html sample_host (sample_append_html "a</en-note>b") sample_note
           "price: $5.00").
  - reflexivity.
  - reflexivity.
  - reflexivity.
  - apply free_of_no_occurrence. reflexivity.
Defined.

(** ** Attachments on a content without a root element *)

(** X25. In the keep mode the existing content is sent as it is only when no
    media tag is added. With at least one attachment, a note without
    content, or with a content that has no opening or no closing root
    tag, is sent with the media tags as its whole body: the existing
    content is not kept. *)
Theorem keep_with_attachments_incomplete (h : Host) (p : UpdateParams) (nd : NoteData) :
  In (UpdateNote nd) (fst (update h p)) ->
  contentEditingMode p = "keep" ->
  parseBinaryPropertyNames (binaryPropertyNamesRaw p) <> [] ->
  addAttachments p = true ->
  exists note res,
    getNote h (noteGuid p) (fetchWithContent p) = inr note /\
    buildResourcesFromBinary (binary h) (parseBinaryPropertyNames (binaryPropertyNamesRaw p))
      = Ok res /\
    mediaTags res <> [] /\
    (match note_content note with
     | Some c => no_occurrence true open_prefix c \/ no_occurrence true close_tag c
     | None => True
     end ->
     nd_content nd = wrapEnmlBody (join_empty (mediaTags res))).
Proof.
  intros Hsent Hm Hnames Hadd.
  apply update_sent in Hsent
    as (att & note & content & tags & attrs & Hatt & Hnote & Hedit & _ & _ & ->).
  rewrite (editContent_keep h p note Hm) in Hedit. injection Hedit as <-.
  rewrite Hadd in Hatt. unfold buildAttachments in Hatt.
  destruct (buildResourcesFromBinary _ _) as [res| |] eqn:E; cbn in Hatt; try discriminate.
  injection Hatt as <-. exists note, res.
  split; [exact Hnote|]. split; [reflexivity|].
  assert (Htags : mediaTags res <> []).
  { unfold buildResourcesFromBinary in E.
    destruct (buildResourcesLoop_built _ _ _ _ _ E) as (built & Hb & _ & ->).
    cbn [app]. intros Hnil. apply Hnames.
    apply Forall2_length in Hb. apply (f_equal (@length str)) in Hnil.
    rewrite length_map in Hnil. cbn in Hnil.
    destruct (parseBinaryPropertyNames (binaryPropertyNamesRaw p)); [reflexivity|].
    cbn in Hb. lia. }
  split; [exact Htags|].
  intros Hc. cbn [updateNoteData nd_content]. unfold appendMediaTags.
  destruct (mediaTags res) as [|tag more] eqn:Et; [contradiction|].
  f_equal.
  replace (extractEnmlBody (or_else (note_content note) (wrapEnmlBody ""))) with (@nil ascii);
    [reflexivity|].
  symmetry. destruct (note_content note) as [[|c0 c]|]; cbn [or_else].
  - apply extract_wrap. apply free_of_no_occurrence. reflexivity.
  - apply extractEnmlBody_incomplete, Hc.
  - apply extract_wrap. apply free_of_no_occurrence. reflexivity.
Qed.

Lemma keep_with_attachments_incomplete_witness :
  exists note res,
    getNote host_with_truncated_note (noteGuid sample_keep_attached)
      (fetchWithContent sample_keep_attached) = inr note /\
    buildResourcesFromBinary (binary host_with_truncated_note)
      (parseBinaryPropertyNames (binaryPropertyNamesRaw sample_keep_attached)) = Ok res /\
    mediaTags res <> [] /\
    (match note_content note with
     | Some c => no_occurrence true open_prefix c \/ no_occurrence true close_tag c
     | None => True
     end ->
     nd_content
       {| nd_guid := Some "note-1";
          nd_title := Some "Groceries";
          nd_content :=
            wrapEnmlBody
              (mediaTag "text/plain" (md5 (bytes_of_str "abc")));
          nd_tagNames := None;
          nd_resources :=
            Some [ {| data := {| body := bytes_of_str "abc"; size := 3;
                                 bodyHash := md5 (bytes_of_str "abc") |};
                      mime := "text/plain";
                      attributes := {| fileName := "abc.txt" |} |} ];
          nd_notebookGuid := None;
          nd_attributes := None |}
     = wrapEnmlBody (join_empty (mediaTags res))).
Proof.
  apply (keep_with_attachments_incomplete host_with_truncated_note sample_keep_attached).
  - vm_compute. right. left. reflexivity.
  - reflexivity.
  - discriminate.
  - reflexivity.
Defined.
